(** * Auto RIS Builder: a shallow embedding of the resolution pipeline

    The development embeds the pure core of [app_streamlit.py] and
    [app_streamlit_fixed.py] (identifier extraction, Crossref normalisation,
    RIS serialisation) and the batch loops of [tab_batch], and proves the
    properties of the specification about them.

    Conventions.
    - A Python [str] is a [list ascii]; a character is read as the code
      point 0..255 (the Latin-1 range of Unicode).  Every character class
      below ([isspace], [lower], [\d], line boundaries) is Python's class
      restricted to that range.
    - A decoded JSON value is a [json]; a [dict] is an association list in
      which the first binding of a key is the one that counts.
    - A Python computation that may raise returns [Exc A]; the batch loops,
      which also mutate [results] and [audit] and talk to the network, live
      in the monad [M] over [State].
    - The two source files differ in a few places; [variant] selects the
      file and every definition that differs matches on it. *)

From Stdlib Require Import String Ascii DecimalString ZArith Bool List Lia.
From Stdlib Require DecimalPos.
Import ListNotations.

Local Open Scope list_scope.

Set Warnings "-register-all".

(** ** Python strings *)

Definition str := list ascii.

Definition lit (s : string) : str := list_ascii_of_string s.

Definition code (c : ascii) : N := N_of_ascii c.

Fixpoint str_eqb (a b : str) : bool :=
  match a, b with
  | [], [] => true
  | x :: a', y :: b' => Ascii.eqb x y && str_eqb a' b'
  | _, _ => false
  end.

(** [str.isspace] on one character: TAB..CR, FS..US, space, NEL, NBSP. *)
Definition isspace (c : ascii) : bool :=
  let n := code c in
  ((9 <=? n) && (n <=? 13) || (28 <=? n) && (n <=? 32)
   || (n =? 133) || (n =? 160))%N.

(** [\d] and [str.isdigit] restricted to the range: 0..9. *)
Definition isdigit (c : ascii) : bool :=
  let n := code c in ((48 <=? n) && (n <=? 57))%N.

Definition isupper_ascii (c : ascii) : bool :=
  let n := code c in ((65 <=? n) && (n <=? 90))%N.

Definition islower_ascii (c : ascii) : bool :=
  let n := code c in ((97 <=? n) && (n <=? 122))%N.

(** [str.lower] on one character: A..Z and the Latin-1 capitals
    (U+00C0..U+00DE except the multiplication sign) move up by 32. *)
Definition lower_char (c : ascii) : ascii :=
  let n := code c in
  if ((65 <=? n) && (n <=? 90)
      || (192 <=? n) && (n <=? 222) && negb (n =? 215))%N
  then ascii_of_N (n + 32) else c.

Definition lower (s : str) : str := map lower_char s.

Fixpoint lstrip (s : str) : str :=
  match s with
  | c :: s' => if isspace c then lstrip s' else s
  | [] => []
  end.

Definition rstrip (s : str) : str := rev (lstrip (rev s)).

(** [s.strip()] *)
Definition strip (s : str) : str := rstrip (lstrip s).

(** [s.startswith(p)] *)
Fixpoint startswith (s p : str) : bool :=
  match p, s with
  | [], _ => true
  | x :: p', y :: s' => Ascii.eqb x y && startswith s' p'
  | _ :: _, [] => false
  end.

(** [s.startswith((p1, ..., pn))] *)
Definition startswith_any (s : str) (ps : list str) : bool :=
  existsb (startswith s) ps.

(** [s.replace(a, b)] for single characters [a], [b]. *)
Definition replace_char (a b : ascii) (s : str) : str :=
  map (fun c => if Ascii.eqb c a then b else c) s.

(** [c in s] for a single character [c]. *)
Definition contains_char (c : ascii) (s : str) : bool :=
  existsb (Ascii.eqb c) s.

(** [s.split(c, 1)] when [c] occurs in [s]: the text before the first [c]
    and the text after it; without an occurrence [(s, [])]. *)
Fixpoint split_once (c : ascii) (s : str) : str * str :=
  match s with
  | [] => ([], [])
  | x :: s' =>
      if Ascii.eqb x c then ([], s')
      else let (a, b) := split_once c s' in (x :: a, b)
  end.

(** [s.split()]: the maximal runs of non-whitespace characters.
    [cur] is the token being read, reversed. *)
Fixpoint split_ws_aux (cur : str) (s : str) : list str :=
  match s with
  | [] => match cur with [] => [] | _ => [rev cur] end
  | c :: s' =>
      if isspace c
      then match cur with
           | [] => split_ws_aux [] s'
           | _ => rev cur :: split_ws_aux [] s'
           end
      else split_ws_aux (c :: cur) s'
  end.

Definition split_ws (s : str) : list str := split_ws_aux [] s.

(** Line boundaries of [str.splitlines]: LF, VT, FF, CR, FS, GS, RS, NEL
    (and CR LF as one boundary). *)
Definition is_linebreak (c : ascii) : bool :=
  let n := code c in
  ((10 <=? n) && (n <=? 13) || (28 <=? n) && (n <=? 30) || (n =? 133))%N.

Definition is_CR (c : ascii) : bool := (code c =? 13)%N.
Definition is_LF (c : ascii) : bool := (code c =? 10)%N.

(** [s.splitlines()]; [cur] is the line being read, reversed.  A final
    line without a boundary is kept when it is non-empty. *)
Fixpoint splitlines_aux (cur : str) (s : str) : list str :=
  match s with
  | [] => match cur with [] => [] | _ => [rev cur] end
  | c :: s' =>
      if is_linebreak c then
        match s' with
        | d :: s'' =>
            if is_CR c && is_LF d
            then rev cur :: splitlines_aux [] s''
            else rev cur :: splitlines_aux [] s'
        | [] => [rev cur]
        end
      else splitlines_aux (c :: cur) s'
  end.

Definition splitlines (s : str) : list str := splitlines_aux [] s.

(** ["sep".join(l)] *)
Fixpoint join (sep : str) (l : list str) : str :=
  match l with
  | [] => []
  | [x] => x
  | x :: l' => x ++ sep ++ join sep l'
  end.

(** [str(n)] for a Python [int]. *)
Definition str_of_Z (z : Z) : str :=
  lit (NilZero.string_of_int (Z.to_int z)).

(** [urllib.parse.quote(s)] with the default [safe="/"]: letters, digits
    and [_.-~/] are kept, every other character is UTF-8 encoded and each
    byte written [%XX]. *)
Definition hex_digit (n : N) : ascii :=
  nth (N.to_nat n) (lit "0123456789ABCDEF") "0"%char.

Definition percent_byte (b : N) : str :=
  ["%"%char; hex_digit (b / 16); hex_digit (b mod 16)].

Definition quote_safe (c : ascii) : bool :=
  isupper_ascii c || islower_ascii c || isdigit c
  || existsb (Ascii.eqb c) (lit "_.-~/").

Definition quote_char (c : ascii) : str :=
  let n := code c in
  if quote_safe c then [c]
  else if (n <? 128)%N then percent_byte n
  else percent_byte (192 + n / 64) ++ percent_byte (128 + n mod 64).

Definition quote (s : str) : str := flat_map quote_char s.

(** ** Exceptions *)

(** A raised exception: its class name and [str(e)]. *)
Record exn : Type := Exn { exn_type : str; exn_msg : str }.

Inductive Exc (A : Type) : Type :=
| Ok (a : A)
| Raise (e : exn).
Arguments Ok {A} a.
Arguments Raise {A} e.

Definition ebind {A B : Type} (m : Exc A) (k : A -> Exc B) : Exc B :=
  match m with
  | Ok a => k a
  | Raise e => Raise e
  end.

Declare Scope exc_scope.
Delimit Scope exc_scope with exc.
Notation "x <- m ;; k" := (ebind m (fun x => k))
  (at level 61, m at next level, right associativity) : exc_scope.

(** [[f(x) for x in l]] when [f] may raise. *)
Fixpoint emap {A B : Type} (f : A -> Exc B) (l : list A) : Exc (list B) :=
  match l with
  | [] => Ok []
  | x :: l' =>
      match f x with
      | Ok y => match emap f l' with
                | Ok ys => Ok (y :: ys)
                | Raise e => Raise e
                end
      | Raise e => Raise e
      end
  end.

Definition AttributeError (ty attr : str) : exn :=
  Exn (lit "AttributeError")
      (lit "'" ++ ty ++ lit "' object has no attribute '" ++ attr ++ lit "'").

Definition TypeError (msg : str) : exn := Exn (lit "TypeError") msg.
Definition ValueError (msg : str) : exn := Exn (lit "ValueError") msg.
Definition KeyError (msg : str) : exn := Exn (lit "KeyError") msg.
Definition IndexError (msg : str) : exn := Exn (lit "IndexError") msg.
Definition OverflowError (msg : str) : exn := Exn (lit "OverflowError") msg.

(** ** Decoded JSON values *)

(** A Python [float]: not-a-number, an infinity, or the dyadic [m * 2^e]. *)
Inductive pyfloat : Type :=
| FNan
| FInf (negative : bool)
| FFin (m e : Z).

Inductive json : Type :=
| JNull
| JBool (b : bool)
| JInt (z : Z)
| JFloat (f : pyfloat)
| JStr (s : str)
| JArr (l : list json)
| JObj (kv : list (str * json)).

(** [type(v).__name__] *)
Definition type_name (v : json) : str :=
  match v with
  | JNull => lit "NoneType"
  | JBool _ => lit "bool"
  | JInt _ => lit "int"
  | JFloat _ => lit "float"
  | JStr _ => lit "str"
  | JArr _ => lit "list"
  | JObj _ => lit "dict"
  end.

(** [bool(v)] *)
Definition truthy (v : json) : bool :=
  match v with
  | JNull => false
  | JBool b => b
  | JInt z => negb (z =? 0)%Z
  | JFloat (FFin m _) => negb (m =? 0)%Z
  | JFloat _ => true
  | JStr s => match s with [] => false | _ => true end
  | JArr l => match l with [] => false | _ => true end
  | JObj kv => match kv with [] => false | _ => true end
  end.

(** [a or b] *)
Definition py_or (a b : json) : json := if truthy a then a else b.

Fixpoint assoc {A : Type} (k : str) (kv : list (str * A)) : option A :=
  match kv with
  | [] => None
  | (k', v) :: kv' => if str_eqb k k' then Some v else assoc k kv'
  end.

(** The keys of a dict in insertion order, each once. *)
Fixpoint dict_keys {A : Type} (seen : list str) (kv : list (str * A))
  : list str :=
  match kv with
  | [] => []
  | (k, _) :: kv' =>
      if existsb (str_eqb k) seen then dict_keys seen kv'
      else k :: dict_keys (k :: seen) kv'
  end.

(** [d.get(k, default)]; [d.get(k)] is [dict_get d k JNull]. *)
Definition dict_get (d : json) (k : str) (default : json) : Exc json :=
  match d with
  | JObj kv => Ok (match assoc k kv with Some v => v | None => default end)
  | _ => Raise (AttributeError (type_name d) (lit "get"))
  end.

(** [v.m(...)] for a [str] method [m]: the receiver must be a [str]. *)
Definition as_str (method : str) (v : json) : Exc str :=
  match v with
  | JStr s => Ok s
  | _ => Raise (AttributeError (type_name v) method)
  end.

(** [v[0]] *)
Definition index0 (v : json) : Exc json :=
  match v with
  | JArr (x :: _) => Ok x
  | JArr [] => Raise (IndexError (lit "list index out of range"))
  | JStr (c :: _) => Ok (JStr [c])
  | JStr [] => Raise (IndexError (lit "string index out of range"))
  | JObj _ => Raise (KeyError (lit "0"))
  | _ => Raise (TypeError
                  (lit "'" ++ type_name v ++ lit "' object is not subscriptable"))
  end.

(** [for x in v]: the elements of a list, the characters of a string, the
    keys of a dict. *)
Definition py_iter (v : json) : Exc (list json) :=
  match v with
  | JArr l => Ok l
  | JStr s => Ok (map (fun c => JStr [c]) s)
  | JObj kv => Ok (map JStr (dict_keys [] kv))
  | _ => Raise (TypeError
                  (lit "'" ++ type_name v ++ lit "' object is not iterable"))
  end.

(** [int(s)] for a string, base 10: surrounding whitespace, an optional
    sign, digits with single underscores between them.  The whitespace
    [int] passes over is TAB..CR, space, NEL and NBSP; unlike [strip] it
    does not pass over FS..US. *)
Definition int_space (c : ascii) : bool :=
  let n := code c in
  ((9 <=? n) && (n <=? 13) || (n =? 32) || (n =? 133) || (n =? 160))%N.

Fixpoint drop_while (p : ascii -> bool) (s : str) : str :=
  match s with
  | c :: s' => if p c then drop_while p s' else s
  | [] => []
  end.

Definition int_trim (s : str) : str :=
  rev (drop_while int_space (rev (drop_while int_space s))).

Definition digit_val (c : ascii) : Z := Z.of_N (code c) - 48.

Fixpoint digits_val (acc : Z) (after_digit : bool) (s : str) : option Z :=
  match s with
  | [] => if after_digit then Some acc else None
  | c :: s' =>
      if isdigit c then digits_val (acc * 10 + digit_val c) true s'
      else if Ascii.eqb c "_"%char && after_digit then digits_val acc false s'
      else None
  end.

Definition int_of_str (s : str) : option Z :=
  match int_trim s with
  | c :: t =>
      if Ascii.eqb c "-"%char then option_map Z.opp (digits_val 0 false t)
      else if Ascii.eqb c "+"%char then digits_val 0 false t
      else digits_val 0 false (c :: t)
  | [] => None
  end.

(** [int(f)] for a float: truncation towards zero. *)
Definition int_of_float (f : pyfloat) : Exc Z :=
  match f with
  | FNan => Raise (ValueError (lit "cannot convert float NaN to integer"))
  | FInf _ =>
      Raise (OverflowError (lit "cannot convert float infinity to integer"))
  | FFin m e =>
      Ok (if (0 <=? e)%Z then m * 2 ^ e else Z.quot m (2 ^ (- e)))%Z
  end.

(** [int(v)] *)
Definition py_int (v : json) : Exc Z :=
  match v with
  | JInt z => Ok z
  | JBool b => Ok (if b then 1 else 0)%Z
  | JFloat f => int_of_float f
  | JStr s =>
      match int_of_str s with
      | Some z => Ok z
      | None =>
          Raise (ValueError
                   (lit "invalid literal for int() with base 10: '"
                    ++ s ++ lit "'"))
      end
  | _ =>
      Raise (TypeError
               (lit "int() argument must be a string, a bytes-like object or a real number, not '"
                ++ type_name v ++ lit "'"))
  end.

(** ** Regular expressions

    Every pattern of the program is a sequence of quantified character
    classes, so a pattern is a list of [piece]s.  [match_here] is the
    backtracking matcher of [re]: a greedy piece tries the longest run
    first, a lazy piece the shortest.  The result lists, piece by piece,
    the text each piece consumed. *)

Record piece : Type := Piece {
  cls : ascii -> bool;
  rmin : nat;
  rmax : option nat;
  greedy : bool
}.

Definition regex := list piece.

Definition room (max : option nat) : bool :=
  match max with
  | Some 0 => false
  | _ => true
  end.

Fixpoint rep_greedy (c : ascii -> bool) (k : str -> option (list str))
    (min : nat) (max : option nat) (acc : str) (s : str)
  : option (list str) :=
  let stop :=
    match min with
    | 0 => option_map (cons (rev acc)) (k s)
    | S _ => None
    end in
  if room max then
    match s with
    | x :: s' =>
        if c x then
          match rep_greedy c k (pred min) (option_map pred max) (x :: acc) s'
          with
          | Some r => Some r
          | None => stop
          end
        else stop
    | [] => stop
    end
  else stop.

Fixpoint rep_lazy (c : ascii -> bool) (k : str -> option (list str))
    (min : nat) (max : option nat) (acc : str) (s : str)
  : option (list str) :=
  let stop :=
    match min with
    | 0 => option_map (cons (rev acc)) (k s)
    | S _ => None
    end in
  match stop with
  | Some r => Some r
  | None =>
      if room max then
        match s with
        | x :: s' =>
            if c x
            then rep_lazy c k (pred min) (option_map pred max) (x :: acc) s'
            else None
        | [] => None
        end
      else None
  end.

Fixpoint match_here (r : regex) (s : str) : option (list str) :=
  match r with
  | [] => Some []
  | p :: r' =>
      (if greedy p then rep_greedy else rep_lazy)
        (cls p) (match_here r') (rmin p) (rmax p) [] s
  end.

(** [re.search]: the first position, from the left, where the pattern
    matches; returns the text before the match and the pieces' texts. *)
Fixpoint search_from (r : regex) (pre : str) (s : str)
  : option (str * list str) :=
  match match_here r s with
  | Some m => Some (rev pre, m)
  | None =>
      match s with
      | [] => None
      | x :: s' => search_from r (x :: pre) s'
      end
  end.

Definition search (r : regex) (s : str) : option (str * list str) :=
  search_from r [] s.

(** [re.sub(r, repl, s)] for a pattern [r] that matches no empty text:
    the matches are found from left to right without overlap; [skip]
    counts the characters of the current match still to pass over. *)
Fixpoint sub_from (r : regex) (repl : str) (skip : nat) (s : str) : str :=
  match s with
  | [] => []
  | x :: s' =>
      match skip with
      | S n => sub_from r repl n s'
      | 0 =>
          match match_here r s with
          | Some m =>
              match length (concat m) with
              | S n => repl ++ sub_from r repl n s'
              | 0 => x :: sub_from r repl 0 s'
              end
          | None => x :: sub_from r repl 0 s'
          end
      end
  end.

Definition re_sub (r : regex) (repl : str) (s : str) : str :=
  sub_from r repl 0 s.

(** Pieces. *)
Definition one (c : ascii -> bool) : piece := Piece c 1 (Some 1) true.
Definition chr (a : ascii) : piece := one (Ascii.eqb a).
(** A literal character under [re.I]. *)
Definition chr_i (a : ascii) : piece :=
  one (fun c => Ascii.eqb (lower_char c) (lower_char a)).
Definition plus (c : ascii -> bool) : piece := Piece c 1 None true.
Definition star (c : ascii -> bool) : piece := Piece c 0 None true.
Definition star_lazy (c : ascii -> bool) : piece := Piece c 0 None false.
Definition between (c : ascii -> bool) (lo hi : nat) : piece :=
  Piece c lo (Some hi) true.

(** The class [[-._;()/:A-Z0-9]] under [re.I]. *)
Definition doi_char (c : ascii) : bool :=
  existsb (Ascii.eqb c) (lit "-._;()/:")
  || isupper_ascii c || islower_ascii c || isdigit c.

(** [DOI_REGEX = re.compile(r"(10\.\d{4,9}/[-._;()/:A-Z0-9]+)", re.I)];
    group 1 is the whole match. *)
Definition DOI_REGEX : regex :=
  [chr "1"; chr "0"; chr "."; between isdigit 4 9; chr "/"; plus doi_char].

Definition not_gt (c : ascii) : bool := negb (Ascii.eqb c ">"%char).
Definition any_char (c : ascii) : bool := true.

(** [r"<[^>]+>"] *)
Definition TAG_REGEX : regex := [chr "<"; plus not_gt; chr ">"].

(** [r"\s+"] *)
Definition SPACES_REGEX : regex := [plus isspace].

(** [r"<title[^>]*>(.*?)</title>"] with [re.I|re.S]; group 1 is the text
    of the piece at index 8. *)
Definition TITLE_REGEX : regex :=
  map chr_i (lit "<title") ++ [star not_gt; chr ">"; star_lazy any_char]
  ++ map chr_i (lit "</title>").

(** ** Utility *)

(** [find_doi_in_text]: [DOI_REGEX.search(text or "")], group 1. *)
Definition find_doi_in_text (text : str) : option str :=
  match search DOI_REGEX text with
  | Some (_, m) => Some (concat m)
  | None => None
  end.

(** [clean(s)]: [(s or "").strip()]. *)
Definition clean (v : json) : Exc str :=
  match as_str (lit "strip") (py_or v (JStr [])) with
  | Ok s => Ok (strip s)
  | Raise e => Raise e
  end.

(** [ris_escape(v)]: [v.replace("\n", " ").strip()]. *)
Definition ris_escape (v : str) : str :=
  strip (replace_char "010"%char " "%char v).

(** The two source files. *)
Inductive variant : Type :=
| Baseline  (* app_streamlit.py *)
| Fixed.    (* app_streamlit_fixed.py *)

(** ** The normalised record

    The dict built by [crossref_to_meta] and read by [to_ris_lines].  A
    scalar field is [None] when the key is absent or holds [None];
    [m.get("authors", [])] and [m.get("keywords", [])] make an absent list
    the empty list. *)
Record Meta : Type := mkMeta {
  m_type : option str;
  m_title : option str;
  m_authors : list str;
  m_year : option str;
  m_journal : option str;
  m_volume : option str;
  m_issue : option str;
  m_sp : option str;
  m_ep : option str;
  m_doi : option str;
  m_url : option str;
  m_publisher : option str;
  m_abstract : option str;
  m_keywords : list str
}.

(** The dict with no key at all. *)
Definition empty_meta : Meta :=
  mkMeta None None [] None None None None None None None None None None [].

Definition TYPE_MAP : list (str * str) :=
  [ (lit "journal-article", lit "JOUR");
    (lit "proceedings-article", lit "CPAPER");
    (lit "book-chapter", lit "CHAP");
    (lit "book", lit "BOOK");
    (lit "report", lit "RPRT");
    (lit "thesis", lit "THES");
    (lit "reference-entry", lit "GEN");
    (lit "posted-content", lit "GEN");
    (lit "dataset", lit "DATA");
    (lit "standard", lit "STD") ].

(** ** RIS serialisation *)

(** [if m.get(key): lines.append(prefix + f(m[key]))] *)
Definition field_line (prefix : str) (f : str -> str) (o : option str)
  : list str :=
  match o with
  | Some (c :: s) => [prefix ++ f (c :: s)]
  | _ => []
  end.

(** [for a in m.get(key, []): if a: lines.append(prefix + ris_escape(a))] *)
Definition list_lines (prefix : str) (l : list str) : list str :=
  flat_map (fun a => match a with
                     | [] => []
                     | _ => [prefix ++ ris_escape a]
                     end) l.

Definition raw (v : str) : str := v.

Definition to_ris_lines (meta : Meta) : list str :=
  let ty := match m_type meta with
            | Some (c :: s) => c :: s
            | _ => lit "GEN"
            end in
  [lit "TY  - " ++ ty]
  ++ field_line (lit "TI  - ") ris_escape (m_title meta)
  ++ field_line (lit "T2  - ") ris_escape (m_journal meta)
  ++ field_line (lit "PB  - ") ris_escape (m_publisher meta)
  ++ field_line (lit "PY  - ") raw (m_year meta)
  ++ field_line (lit "VL  - ") raw (m_volume meta)
  ++ field_line (lit "IS  - ") raw (m_issue meta)
  ++ list_lines (lit "AU  - ") (m_authors meta)
  ++ field_line (lit "SP  - ") raw (m_sp meta)
  ++ field_line (lit "EP  - ") raw (m_ep meta)
  ++ field_line (lit "DO  - ") raw (m_doi meta)
  ++ field_line (lit "UR  - ") raw (m_url meta)
  ++ field_line (lit "AB  - ") ris_escape (m_abstract meta)
  ++ list_lines (lit "KW  - ") (m_keywords meta)
  ++ [lit "ER  - "].

Definition NL : str := ["010"%char].

Definition meta_to_ris (meta_list : list Meta) : str :=
  join NL (map (fun m => join NL (to_ris_lines m)) meta_list)
  ++ match meta_list with [] => [] | _ => NL end.

(** ** Normalisation of a Crossref message *)

Local Open Scope exc_scope.

Definition normalize_author (crossref_author : json) : Exc str :=
  g <- dict_get crossref_author (lit "given") JNull ;;
  given <- clean g ;;
  f <- dict_get crossref_author (lit "family") JNull ;;
  family <- clean f ;;
  Ok (match family, given with
      | _ :: _, _ :: _ => family ++ lit ", " ++ given
      | _ :: _, [] => family
      | [], _ => given
      end).

Definition YEAR_KEYS : list str :=
  [lit "published-print"; lit "issued"; lit "created";
   lit "published-online"].

(** The loop of [crossref_first_year].  In the baseline file [parts[0][0]]
    is evaluated before the [try]; in the other file it is inside it. *)
Fixpoint first_year_loop (v : variant) (msg : json) (keys : list str)
  : Exc (option str) :=
  match keys with
  | [] => Ok None
  | key :: keys' =>
      d <- dict_get msg key (JObj []) ;;
      parts <- dict_get d (lit "date-parts") (JArr []) ;;
      if truthy parts then
        p0 <- index0 parts ;;
        if truthy p0 then
          match v with
          | Baseline =>
              y <- index0 p0 ;;
              match py_int y with
              | Ok n => Ok (Some (str_of_Z n))
              | Raise _ => first_year_loop v msg keys'
              end
          | Fixed =>
              match (y <- index0 p0 ;; py_int y) with
              | Ok n => Ok (Some (str_of_Z n))
              | Raise _ => first_year_loop v msg keys'
              end
          end
        else first_year_loop v msg keys'
      else first_year_loop v msg keys'
  end.

Definition crossref_first_year (v : variant) (msg : json)
  : Exc (option str) :=
  first_year_loop v msg YEAR_KEYS.

(** [x[0] if isinstance(x, list) and x else ""] *)
Definition first_variant (x : json) : json :=
  match x with
  | JArr (t :: _) => t
  | _ => JStr []
  end.

(** [[s.strip() for s in l if isinstance(s, str)]] *)
Definition strings_stripped (l : list json) : list str :=
  flat_map (fun s => match s with
                     | JStr t => [strip t]
                     | _ => []
                     end) l.

(** The page range: [sp, ep] from the cleaned ["page"]. *)
Definition split_page (page : str) : str * str :=
  match page with
  | [] => ([], [])
  | _ :: _ =>
      if contains_char "-"%char page
      then let (a, b) := split_once "-"%char page in (strip a, strip b)
      else (strip page, [])
  end.

(** The abstract after [clean]: tags are removed only behind [<jats:]. *)
Definition strip_jats (abstract : str) : str :=
  if startswith abstract (lit "<jats:")
  then strip (re_sub TAG_REGEX (lit " ") abstract)
  else abstract.

(** The keywords.  The baseline file takes them only from a list; the
    other file iterates over whatever ["subject"] holds. *)
Definition subject_keywords (v : variant) (subj : json) : Exc (list str) :=
  match v with
  | Baseline =>
      match subj with
      | JArr l => Ok (strings_stripped l)
      | _ => Ok []
      end
  | Fixed => l <- py_iter subj ;; Ok (strings_stripped l)
  end.

Definition crossref_to_meta (v : variant) (msg : json) : Exc Meta :=
  t <- dict_get msg (lit "type") JNull ;;
  ctype <- as_str (lit "lower") (py_or t (JStr [])) ;;
  let ty := match assoc (lower ctype) TYPE_MAP with
            | Some x => x
            | None => lit "GEN"
            end in
  title0 <- dict_get msg (lit "title") JNull ;;
  let title := first_variant title0 in
  journal0 <- dict_get msg (lit "container-title") JNull ;;
  let journal := first_variant journal0 in
  author <- dict_get msg (lit "author") JNull ;;
  author_list <- py_iter (py_or author (JArr [])) ;;
  authors <- emap normalize_author author_list ;;
  page0 <- dict_get msg (lit "page") JNull ;;
  page <- clean page0 ;;
  let (sp, ep) := split_page page in
  abstract0 <- dict_get msg (lit "abstract") JNull ;;
  abstract1 <- clean abstract0 ;;
  let abstract := strip_jats abstract1 in
  subj <- dict_get msg (lit "subject") JNull ;;
  keywords <- subject_keywords v (py_or subj (JArr [])) ;;
  title' <- clean title ;;
  year <- crossref_first_year v msg ;;
  journal' <- clean journal ;;
  volume0 <- dict_get msg (lit "volume") JNull ;;
  volume <- clean volume0 ;;
  issue0 <- dict_get msg (lit "issue") JNull ;;
  issue <- clean issue0 ;;
  doi0 <- dict_get msg (lit "DOI") JNull ;;
  doi <- clean doi0 ;;
  url0 <- dict_get msg (lit "URL") JNull ;;
  url <- clean url0 ;;
  publisher0 <- dict_get msg (lit "publisher") JNull ;;
  publisher <- clean publisher0 ;;
  Ok (mkMeta (Some ty) (Some title') authors year (Some journal')
        (Some volume) (Some issue) (Some sp) (Some ep) (Some doi) (Some url)
        (Some publisher) (Some abstract) keywords).

(** ** Title guess *)

Definition TITLE_STOP_PREFIXES : list str :=
  [lit "arxiv:"; lit "doi:"; lit "issn:"; lit "copyright"].

Fixpoint guess_title_loop (lines : list str) : option str :=
  match lines with
  | [] => None
  | line0 :: rest =>
      let line := strip line0 in
      if (4 <=? length (split_ws line))
         && negb (startswith_any (lower line) TITLE_STOP_PREFIXES)
      then if (10 <=? length line) && (length line <=? 200)
           then Some line
           else guess_title_loop rest
      else guess_title_loop rest
  end.

Definition guess_title_from_pdf_text (text : str) : option str :=
  guess_title_loop (splitlines text).

Local Close Scope exc_scope.

(** ** The environment: network and PDF back ends *)

(** One [requests.get(url, params=..., headers=..., timeout=...)]. *)
Record request : Type := Request {
  req_url : str;
  req_params : list (str * json);
  req_headers : list (str * str);
  req_timeout : Z
}.

(** What the program reads of a response: [r.text], the exception
    [r.raise_for_status()] raises if any, and the outcome of [r.json()]. *)
Record response : Type := Response {
  resp_text : str;
  resp_status_error : option exn;
  resp_json : Exc json
}.

Record UploadedFile : Type := Upload {
  name : str;
  content : list Byte.byte
}.

(** The collaborators the program calls but does not define. *)
Record Env : Type := mkEnv {
  (** [requests.get]: raises on a transport error. *)
  requests_get : request -> Exc response;
  (** [pdfminer.high_level.extract_text] on the uploaded bytes. *)
  pdfminer_extract_text : list Byte.byte -> Exc str;
  (** [PyPDF2.PdfReader(path).pages]: per page, [extract_text() or ""]. *)
  pypdf2_pages : list Byte.byte -> Exc (list (Exc str));
  (** Whether [import pdfminer] and [import PyPDF2] succeeded. *)
  has_pdfminer : bool;
  has_pypdf2 : bool
}.

Definition CROSSREF_API : str := lit "https://api.crossref.org/works/".

Definition USER_AGENT (v : variant) : str :=
  match v with
  | Baseline => lit "auto-meta-web/1.0 (mailto:you@example.com)"
  | Fixed => lit "auto-meta-web/1.1 (mailto:you@example.com)"
  end.

Definition headers (v : variant) : list (str * str) :=
  [(lit "User-Agent", USER_AGENT v)].

(** ** Audit entries and the session state *)

Record AuditEntry : Type := mkAudit {
  a_input : str;
  a_route : str;
  a_success : bool;
  a_meta : option Meta;
  a_error : option str
}.

(** The lists [results] and [audit] of the module, and the requests sent
    so far, oldest first. *)
Record State : Type := mkState {
  results : list Meta;
  audit : list AuditEntry;
  sent : list request
}.

Definition M (A : Type) : Type := State -> Exc A * State.

Definition mret {A : Type} (a : A) : M A := fun st => (Ok a, st).

Definition mbind {A B : Type} (m : M A) (k : A -> M B) : M B :=
  fun st =>
    match m st with
    | (Ok a, st') => k a st'
    | (Raise e, st') => (Raise e, st')
    end.

(** A computation that only may raise. *)
Definition lift {A : Type} (x : Exc A) : M A := fun st => (x, st).

(** [try: body  except Exception as e: handler(e)] *)
Definition try_except {A : Type} (body : M A) (handler : exn -> M A) : M A :=
  fun st =>
    match body st with
    | (Ok a, st') => (Ok a, st')
    | (Raise e, st') => handler e st'
    end.

Definition results_append (m : Meta) : M unit :=
  fun st => (Ok tt, mkState (results st ++ [m]) (audit st) (sent st)).

Definition audit_append (a : AuditEntry) : M unit :=
  fun st => (Ok tt, mkState (results st) (audit st ++ [a]) (sent st)).

Declare Scope m_scope.
Delimit Scope m_scope with m.
Notation "x <- m ;; k" := (mbind m (fun x => k))
  (at level 61, m at next level, right associativity) : m_scope.
Notation "m ;;; k" := (mbind m (fun _ => k))
  (at level 61, right associativity) : m_scope.

(** [for x in l: body(x)] *)
Fixpoint for_each {A : Type} (l : list A) (body : A -> M unit) : M unit :=
  match l with
  | [] => mret tt
  | x :: l' => mbind (body x) (fun _ => for_each l' body)
  end.

Section Pipeline.

Variable v : variant.
Variable E : Env.

Local Open Scope m_scope.

(** [requests.get(...)]: the request is sent, then the call returns or
    raises. *)
Definition get (rq : request) : M response :=
  fun st =>
    (requests_get E rq,
     mkState (results st) (audit st) (sent st ++ [rq])).

Definition raise_for_status (r : response) : M unit :=
  match resp_status_error r with
  | Some e => lift (Raise e)
  | None => mret tt
  end.

Definition fetch_request (doi : str) : request :=
  Request (CROSSREF_API ++ quote doi) [] (headers v) 20.

Definition fetch_crossref_by_doi (doi : str) : M json :=
  r <- get (fetch_request doi) ;;
  raise_for_status r ;;;
  body <- lift (resp_json r) ;;
  lift (dict_get body (lit "message") (JObj [])).

Definition search_request (title : str) : request :=
  Request (lit "https://api.crossref.org/works")
    [(lit "query.title", JStr title); (lit "rows", JInt 1)] (headers v) 20.

(** [search_crossref_by_title]; [None] is [JNull]. *)
Definition search_crossref_by_title (title : str) : M json :=
  match strip title with
  | [] => mret JNull
  | _ :: _ =>
      r <- get (search_request title) ;;
      raise_for_status r ;;;
      body <- lift (resp_json r) ;;
      message <- lift (dict_get body (lit "message") (JObj [])) ;;
      items <- lift (dict_get message (lit "items") (JArr [])) ;;
      if truthy items then lift (index0 items) else mret JNull
  end.

Definition page_request (url : str) : request :=
  Request url [] (headers v) 20.

Definition max_chars : nat :=
  N.to_nat match v with
           | Baseline => 100000
           | Fixed => 120000
           end.

(** The pages read by the fallback back end: the first 20, a page whose
    extraction raises counting as empty, joined by newlines. *)
Definition pypdf2_text (pages : list (Exc str)) : str :=
  join NL (map (fun p => match p with Ok t => t | Raise _ => [] end)
             (firstn 20 pages)).

(** [extract_text_from_pdf_bytes].  The temporary file is written, read by
    the back end and removed within the call; it leaves no trace in the
    state. *)
Definition extract_text_from_pdf_bytes (pdf_bytes : list Byte.byte)
  : Exc str :=
  match v with
  | Baseline =>
      match pdfminer_extract_text E pdf_bytes with
      | Ok text => Ok (firstn max_chars text)
      | Raise e => Raise e
      end
  | Fixed =>
      let text1 :=
        if has_pdfminer E then
          match pdfminer_extract_text E pdf_bytes with
          | Ok t => t
          | Raise _ => []
          end
        else [] in
      let text2 :=
        match text1 with
        | [] =>
            if has_pypdf2 E then
              match pypdf2_pages E pdf_bytes with
              | Ok pages => pypdf2_text pages
              | Raise _ => text1
              end
            else text1
        | _ :: _ => text1
        end in
      Ok (firstn max_chars text2)
  end.

(** The outcome of the strategies for one input: [meta] and [route]. *)
Definition outcome : Type := option Meta * str.

Definition via_doi (doi route : str) : M outcome :=
  msg <- fetch_crossref_by_doi doi ;;
  meta <- lift (crossref_to_meta v msg) ;;
  mret (Some meta, route).

Definition via_title (title_guess route : str) : M outcome :=
  match title_guess with
  | [] => mret (None, [])
  | _ :: _ =>
      hit <- search_crossref_by_title title_guess ;;
      if truthy hit then
        meta <- lift (crossref_to_meta v hit) ;;
        mret (Some meta, route)
      else mret (None, [])
  end.

(** [audit.append] (and [results.append]) once the strategies are done. *)
Definition record_outcome (input : str) (o : outcome) : M unit :=
  match o with
  | (Some meta, route) =>
      results_append meta ;;;
      audit_append (mkAudit input route true (Some meta) None)
  | (None, route) =>
      audit_append (mkAudit input route false None None)
  end.

Definition record_error (input route : str) (e : exn) : M unit :=
  audit_append (mkAudit input route false None (Some (exn_msg e))).

(** The strategies for one uploaded PDF (the body of the [try]). *)
Definition pdf_strategies (f : UploadedFile) : M outcome :=
  text <- lift (extract_text_from_pdf_bytes (content f)) ;;
  match find_doi_in_text text with
  | Some d => via_doi d (lit "pdf_doi")
  | None =>
      let title_guess :=
        match guess_title_from_pdf_text text with
        | Some t => t
        | None => []
        end in
      via_title title_guess (lit "pdf_title")
  end.

(** The title of a page: group 1 of the first [<title>] element with its
    whitespace runs collapsed. *)
Definition page_title (page : str) : str :=
  match search TITLE_REGEX page with
  | Some (_, m) => strip (re_sub SPACES_REGEX (lit " ") (nth 8 m []))
  | None => []
  end.

(** The strategies for one line of the list (the body of the [try]). *)
Definition item_strategies (item : str) : M outcome :=
  match search DOI_REGEX item with
  | Some _ => via_doi item (lit "doi")
  | None =>
      resp <- get (page_request item) ;;
      let page := resp_text resp in
      match search DOI_REGEX page with
      | Some (_, found) => via_doi (concat found) (lit "url_doi")
      | None => via_title (page_title page) (lit "url_title")
      end
  end.

Definition process_pdf (f : UploadedFile) : M unit :=
  try_except
    (o <- pdf_strategies f ;; record_outcome (name f) o)
    (record_error (name f) (lit "pdf_error")).

Definition process_item (item : str) : M unit :=
  try_except
    (o <- item_strategies item ;; record_outcome item o)
    (record_error item (lit "url_error")).

(** The lines of the text area, stripped, without the blank ones. *)
Definition batch_items (list_box : str) : list str :=
  filter (fun val => match val with [] => false | _ => true end)
    (map strip (splitlines list_box)).

(** The body of [if st.button("Process batch")]. *)
Definition process_batch (pdfs : list UploadedFile) (list_box : str)
  : M unit :=
  let items := batch_items list_box in
  for_each pdfs process_pdf ;;;
  for_each items process_item.

End Pipeline.

(** ** Definitions the statements use *)

(** *** The serialiser as a table

    One entry per line between the type line and the end marker: the tag,
    whether the value goes through [ris_escape], and the field's value. *)
Definition entry : Type := str * bool * str.

Definition scalar (tag : string) (escaped : bool) (o : option str)
  : list entry :=
  match o with
  | Some (c :: s) => [(lit tag, escaped, c :: s)]
  | _ => []
  end.

Definition listed (tag : string) (l : list str) : list entry :=
  map (fun a => (lit tag, true, a))
    (filter (fun a => match a with [] => false | _ => true end) l).

Definition entries (m : Meta) : list entry :=
  scalar "TI" true (m_title m)
  ++ scalar "T2" true (m_journal m)
  ++ scalar "PB" true (m_publisher m)
  ++ scalar "PY" false (m_year m)
  ++ scalar "VL" false (m_volume m)
  ++ scalar "IS" false (m_issue m)
  ++ listed "AU" (m_authors m)
  ++ scalar "SP" false (m_sp m)
  ++ scalar "EP" false (m_ep m)
  ++ scalar "DO" false (m_doi m)
  ++ scalar "UR" false (m_url m)
  ++ scalar "AB" true (m_abstract m)
  ++ listed "KW" (m_keywords m).

(** Tag, two spaces, hyphen, space, value. *)
Definition tag_line (tag value : str) : str := tag ++ lit "  - " ++ value.

Definition render (e : entry) : str :=
  let '(tag, escaped, x) := e in
  tag_line tag (if escaped then ris_escape x else x).

(** The scalar fields with their tags, and the list fields. *)
Definition SCALAR_TAGS : list (str * (Meta -> option str)) :=
  [ (lit "TI", m_title); (lit "T2", m_journal); (lit "PB", m_publisher);
    (lit "PY", m_year); (lit "VL", m_volume); (lit "IS", m_issue);
    (lit "SP", m_sp); (lit "EP", m_ep); (lit "DO", m_doi);
    (lit "UR", m_url); (lit "AB", m_abstract) ].

Definition LIST_TAGS : list (str * (Meta -> list str)) :=
  [ (lit "AU", m_authors); (lit "KW", m_keywords) ].

(** The record of the specification's example: only [title = "Test"]. *)
Definition title_only : Meta :=
  mkMeta None (Some (lit "Test")) [] None None None None None None None None
    None None [].

Definition str_eq_dec : forall a b : str, {a = b} + {a <> b} :=
  list_eq_dec ascii_dec.

(** *** The title heuristic on one (trimmed) line *)
Definition qualifies (line : str) : bool :=
  (4 <=? length (split_ws line))
  && negb (startswith_any (lower line) TITLE_STOP_PREFIXES)
  && (10 <=? length line) && (length line <=? 200).

(** *** The shape of a DOI

    [10.] followed by 4 to 9 digits, a [/], and a non-empty run of
    characters of [[-._;()/:A-Za-z0-9]]. *)
Definition DIGITS : str := lit "0123456789".

Definition DOI_TOKEN_CHARS : str :=
  lit "-._;()/:ABCDEFGHIJKLMNOPQRSTUVWXYZabcdefghijklmnopqrstuvwxyz0123456789".

Definition doi_shape (r : str) : Prop :=
  exists ds tok,
    r = lit "10." ++ ds ++ lit "/" ++ tok
    /\ 4 <= length ds <= 9
    /\ (forall c, In c ds -> In c DIGITS)
    /\ tok <> []
    /\ (forall c, In c tok -> In c DOI_TOKEN_CHARS).

(** [r] occurs in [text] after [pre]. *)
Definition occurs_at (text pre r : str) : Prop :=
  exists post, text = pre ++ r ++ post.

(** *** The year of a message, following the specification

    A date field yields a year when it is present as an object whose
    ["date-parts"] is a list with a non-empty list as first entry, and the
    first component of that entry is accepted by [int]. *)
Definition year_component (msg : json) (key : str) : option json :=
  match msg with
  | JObj kv =>
      match assoc key kv with
      | Some (JObj d) =>
          match assoc (lit "date-parts") d with
          | Some (JArr (JArr (y :: _) :: _)) => Some y
          | _ => None
          end
      | _ => None
      end
  | _ => None
  end.

Definition parsed_year (msg : json) (key : str) : option Z :=
  match year_component msg key with
  | Some y => match py_int y with Ok n => Some n | Raise _ => None end
  | None => None
  end.

Fixpoint first_some {A B : Type} (f : A -> option B) (l : list A)
  : option B :=
  match l with
  | [] => None
  | x :: l' => match f x with Some y => Some y | None => first_some f l' end
  end.

Definition spec_first_year (msg : json) : option str :=
  option_map str_of_Z (first_some (parsed_year msg) YEAR_KEYS).

(** A date field as Crossref sends it: absent, or an object whose
    ["date-parts"] is absent, null, or a list whose first entry, if any,
    is a list. *)
Definition date_shaped (field : option json) : bool :=
  match field with
  | None => true
  | Some (JObj d) =>
      match assoc (lit "date-parts") d with
      | None | Some JNull | Some (JArr []) | Some (JArr (JArr _ :: _)) => true
      | Some _ => false
      end
  | Some _ => false
  end.

Definition dates_shaped (msg : json) : bool :=
  match msg with
  | JObj kv => forallb (fun key => date_shaped (assoc key kv)) YEAR_KEYS
  | _ => false
  end.

(** *** Audit entries of the batch *)

(** The state of a fresh session. *)
Definition init : State := mkState [] [] [].

(** The audit entry for one input, from the outcome of its strategies. *)
Definition entry_of (input error_route : str) (r : Exc outcome)
  : AuditEntry :=
  match r with
  | Ok (Some meta, route) => mkAudit input route true (Some meta) None
  | Ok (None, route) => mkAudit input route false None None
  | Raise e => mkAudit input error_route false None (Some (exn_msg e))
  end.

(** The records an outcome adds to [results]. *)
Definition result_of (r : Exc outcome) : list Meta :=
  match r with
  | Ok (Some meta, _) => [meta]
  | _ => []
  end.

Definition pdf_entry (v : variant) (E : Env) (f : UploadedFile)
  : AuditEntry :=
  entry_of (name f) (lit "pdf_error") (fst (pdf_strategies v E f init)).

Definition item_entry (v : variant) (E : Env) (item : str) : AuditEntry :=
  entry_of item (lit "url_error") (fst (item_strategies v E item init)).

(** The type written on the first line. *)
Definition type_or_GEN (m : Meta) : str :=
  match m_type m with
  | Some (c :: s) => c :: s
  | _ => lit "GEN"
  end.

(** A record whose only field is a volume. *)
Definition volume_only (volume : str) : Meta :=
  mkMeta None None [] None None (Some volume) None None None None None None
    None [].

(** Which tags carry an escaped value. *)
Definition TAG_ESCAPED : list (str * bool) :=
  [ (lit "TI", true); (lit "T2", true); (lit "PB", true);
    (lit "PY", false); (lit "VL", false); (lit "IS", false);
    (lit "AU", true); (lit "SP", false); (lit "EP", false);
    (lit "DO", false); (lit "UR", false); (lit "AB", true);
    (lit "KW", true) ].

(** [d.get(k)] on a dict. *)
Definition lookup (kv : list (str * json)) (k : string) : json :=
  match assoc (lit k) kv with
  | Some x => x
  | None => JNull
  end.

(** *** Matching, declaratively *)

Definition within (max : option nat) (n : nat) : Prop :=
  forall m, max = Some m -> n <= m.

(** A quantified class accepts a text. *)
Definition accepts (p : piece) (x : str) : Prop :=
  forallb (cls p) x = true /\ rmin p <= length x
  /\ within (rmax p) (length x).

(** A pattern and the texts of its pieces. *)
Definition matches (r : regex) (l : list str) : Prop := Forall2 accepts r l.

(** *** Example inputs *)

(** The three-line text of the specification. *)
Definition three_lines : str :=
  lit "DOI: 10.1/2" ++ NL ++ lit "A Study of Something Interesting"
  ++ NL ++ lit "x".

(** A message whose issued date has no year, as Crossref sends it, and
    whose creation date has one. *)
Definition created_2020 : json :=
  JObj [ (lit "issued", JObj [(lit "date-parts", JArr [JArr [JNull]])]);
         (lit "created",
          JObj [(lit "date-parts", JArr [JArr [JInt 2020; JInt 1; JInt 2]])])
       ].

(** *** Computations that only talk to the network *)

(** [m] returns [r] and sends [reqs], whatever the state, and touches
    neither [results] nor [audit]. *)
Definition sends_as {A : Type} (m : M A) (r : Exc A) (reqs : list request)
  : Prop :=
  forall st,
    m st = (r, mkState (results st) (audit st) (sent st ++ reqs)).

Definition only_sends {A : Type} (m : M A) : Prop :=
  exists r reqs, sends_as m r reqs.

(** The outcome of the strategies for one input and the requests they
    send, in a fresh session. *)
Definition pdf_outcome (v : variant) (E : Env) (f : UploadedFile)
  : Exc outcome :=
  fst (pdf_strategies v E f init).

Definition item_outcome (v : variant) (E : Env) (item : str)
  : Exc outcome :=
  fst (item_strategies v E item init).

Definition item_requests (v : variant) (E : Env) (item : str)
  : list request :=
  sent (snd (item_strategies v E item init)).

(** *** A batch of three lines, the second of which cannot be fetched *)

Definition titled (t : string) : json :=
  JObj [(lit "message", JObj [(lit "title", JArr [JStr (lit t)])])].

Definition flaky_env : Env :=
  mkEnv
    (fun rq =>
       if str_eqb (req_url rq) (CROSSREF_API ++ lit "10.1000/bad")
       then Raise (Exn (lit "ConnectionError") (lit "connection refused"))
       else Ok (Response [] None (Ok (titled "Found"))))
    (fun _ => Ok [])
    (fun _ => Ok [])
    true true.

Definition three_dois : str :=
  lit "10.1000/one" ++ NL ++ lit "10.1000/bad" ++ NL ++ lit "10.1000/two".

(** The inputs of a batch in the order they are processed, each with the
    route its entry carries on an exception, and their outcomes. *)
Definition batch_inputs (pdfs : list UploadedFile) (items : list str)
  : list (str * str) :=
  map (fun f => (name f, lit "pdf_error")) pdfs
  ++ map (fun i => (i, lit "url_error")) items.

Definition batch_outcomes (v : variant) (E : Env)
    (pdfs : list UploadedFile) (items : list str) : list (Exc outcome) :=
  map (pdf_outcome v E) pdfs ++ map (item_outcome v E) items.

(** The entries a batch appends to [audit]. *)
Definition batch_audit (v : variant) (E : Env) (pdfs : list UploadedFile)
    (list_box : str) (st : State) : list AuditEntry :=
  skipn (length (audit st))
    (audit (snd (process_batch v E pdfs list_box st))).

(** ** The rest of the interface

    The single-input tab, the output area and one run of the script.  Of
    the widgets only those that depend on the inputs are kept; a widget
    call neither raises nor changes [results] and [audit], so the widgets
    shown are the value a step returns. *)

Local Open Scope m_scope.

Inductive download_data : Type :=
| Text (s : str)
| Bytes (b : list Byte.byte).

Inductive widget : Type :=
| st_warning (body : str)
| st_error (body : str)
| st_success (body : str)
| st_info (body : str)
| st_code (body : str)
| st_download_button (label : str) (data : download_data)
    (file_name mime : str).

Section Interface.

Variable v : variant.
Variable E : Env.

(** The URL strategy of the single-input tab, on the stripped URL. *)
Definition url_strategies (url : str) : M outcome :=
  resp <- get E (page_request v url) ;;
  let page := resp_text resp in
  match search DOI_REGEX page with
  | Some (_, found) => via_doi v E (concat found) (lit "url_doi")
  | None => via_title v E (page_title page) (lit "url_title")
  end.

(** The body of the [try] of the single-input tab: the DOI if there is
    one, else the URL, else the PDF. *)
Definition single_strategies (doi url : str) (pdf : option UploadedFile)
  : M outcome :=
  match strip doi with
  | _ :: _ => via_doi v E (strip doi) (lit "doi")
  | [] =>
      match strip url with
      | _ :: _ => url_strategies (strip url)
      | [] =>
          match pdf with
          | Some f => pdf_strategies v E f
          | None => mret (None, [])
          end
      end
  end.

(** [doi or url or (pdf.name if pdf else "")] *)
Definition single_input (doi url : str) (pdf : option UploadedFile) : str :=
  match doi, url, pdf with
  | _ :: _, _, _ => doi
  | [], _ :: _, _ => url
  | [], [], Some f => name f
  | [], [], None => []
  end.

(** [not any([doi.strip(), url.strip(), pdf])] *)
Definition nothing_given (doi url : str) (pdf : option UploadedFile)
  : bool :=
  match strip doi, strip url, pdf with
  | [], [], None => true
  | _, _, _ => false
  end.

(** The widget that closes the single-input tab. *)
Definition single_verdict (o : outcome) : widget :=
  match o with
  | (Some meta, _) =>
      st_success (lit "OK: " ++ match m_title meta with
                                | Some t => t
                                | None => lit "(no title)"
                                end)
  | (None, _) =>
      st_error (lit "Failed to extract metadata. Try a DOI or publisher page.")
  end.

(** The body of [if st.button("Process single input")].  An exception
    leaves [meta = None] and [route = ""] and is shown, not recorded. *)
Definition process_single (doi url : str) (pdf : option UploadedFile)
  : M (list widget) :=
  if nothing_given doi url pdf
  then mret [st_warning (lit "Please provide a DOI, a URL, or a PDF.")]
  else
    tried <- try_except
               (o <- single_strategies doi url pdf ;; mret (o, []))
               (fun e => mret ((None, []) : outcome,
                               [st_error (lit "Error: " ++ exn_msg e)])) ;;
    record_outcome (single_input doi url pdf) (fst tried) ;;;
    mret (snd tried ++ [single_verdict (fst tried)]).

End Interface.

(** *** The audit document *)

Definition QUOTE : str := ["034"%char].
Definition BACKSLASH : str := ["092"%char].

Definition hex_lower (n : N) : ascii :=
  nth (N.to_nat n) (lit "0123456789abcdef") "0"%char.

(** One character of a string under [json.dumps(..., ensure_ascii=False)]. *)
Definition json_escape_char (c : ascii) : str :=
  let n := code c in
  if (n =? 34)%N then BACKSLASH ++ QUOTE
  else if (n =? 92)%N then BACKSLASH ++ BACKSLASH
  else if (n =? 10)%N then BACKSLASH ++ lit "n"
  else if (n =? 13)%N then BACKSLASH ++ lit "r"
  else if (n =? 9)%N then BACKSLASH ++ lit "t"
  else if (n =? 8)%N then BACKSLASH ++ lit "b"
  else if (n =? 12)%N then BACKSLASH ++ lit "f"
  else if (n <? 32)%N
       then BACKSLASH ++ lit "u00" ++ [hex_lower (n / 16); hex_lower (n mod 16)]
  else [c].

Definition json_string (s : str) : str :=
  QUOTE ++ flat_map json_escape_char s ++ QUOTE.

Definition json_opt_string (o : option str) : str :=
  match o with
  | Some s => json_string s
  | None => lit "null"
  end.

Definition json_strings (l : list str) : str :=
  lit "[" ++ join (lit ", ") (map json_string l) ++ lit "]".

Definition json_member (key : string) (value : str) : str :=
  json_string (lit key) ++ lit ": " ++ value.

Definition json_object (members : list str) : str :=
  lit "{" ++ join (lit ", ") members ++ lit "}".

(** [json.dumps] of a record built by [crossref_to_meta]. *)
Definition dumps_meta (m : Meta) : str :=
  json_object
    [ json_member "type" (json_opt_string (m_type m));
      json_member "title" (json_opt_string (m_title m));
      json_member "authors" (json_strings (m_authors m));
      json_member "year" (json_opt_string (m_year m));
      json_member "journal" (json_opt_string (m_journal m));
      json_member "volume" (json_opt_string (m_volume m));
      json_member "issue" (json_opt_string (m_issue m));
      json_member "sp" (json_opt_string (m_sp m));
      json_member "ep" (json_opt_string (m_ep m));
      json_member "doi" (json_opt_string (m_doi m));
      json_member "url" (json_opt_string (m_url m));
      json_member "publisher" (json_opt_string (m_publisher m));
      json_member "abstract" (json_opt_string (m_abstract m));
      json_member "keywords" (json_strings (m_keywords m)) ].

(** [json.dumps(a, ensure_ascii=False)] of an audit entry; the key
    ["error"] exists only in the entries the [except] branches build. *)
Definition dumps_entry (a : AuditEntry) : str :=
  json_object
    ([ json_member "input" (json_string (a_input a));
       json_member "route" (json_string (a_route a));
       json_member "success" (if a_success a then lit "true" else lit "false") ]
     ++ match a_error a with
        | Some e => [json_member "error" (json_string e)]
        | None => []
        end
     ++ [ json_member "meta" match a_meta a with
                             | Some m => dumps_meta m
                             | None => lit "null"
                             end ]).

(** [s.encode("utf-8")] for code points below 256. *)
Definition utf8_char (c : ascii) : list Byte.byte :=
  let n := code c in
  if (n <? 128)%N then [byte_of_ascii c]
  else [byte_of_ascii (ascii_of_N (192 + n / 64));
        byte_of_ascii (ascii_of_N (128 + n mod 64))].

Definition encode_utf8 (s : str) : list Byte.byte := flat_map utf8_char s.

Definition audit_bytes (audit : list AuditEntry) : list Byte.byte :=
  encode_utf8 (join NL (map dumps_entry audit)).

(** *** The output area *)



(** *** One run of the script *)



Local Close Scope m_scope.

(** *** Further definitions the statements use *)

(** A text that [strip] leaves as it is. *)
Definition trimmed (s : str) : Prop := strip s = s.

(** The codes of [TYPE_MAP], with the default. *)
Definition TYPE_CODES : list str :=
  [lit "JOUR"; lit "CPAPER"; lit "CHAP"; lit "BOOK"; lit "RPRT";
   lit "THES"; lit "GEN"; lit "DATA"; lit "STD"].

(** The string fields of a record that [crossref_to_meta] cleans. *)
Definition CLEANED_FIELDS : list (Meta -> option str) :=
  [m_title; m_journal; m_publisher; m_volume; m_issue; m_sp; m_ep; m_doi;
   m_url; m_abstract].

(** The fields [to_ris_lines] writes without escaping. *)
Definition VERBATIM_FIELDS : list (Meta -> option str) :=
  [m_type; m_year; m_volume; m_issue; m_sp; m_ep; m_doi; m_url].


(** A value [clean] accepts: a string, or anything false. *)
Definition str_or_falsy (x : json) : bool :=
  match x with
  | JStr _ => true
  | _ => negb (truthy x)
  end.

Definition author_shaped (a : json) : bool :=
  match a with
  | JObj kv =>
      str_or_falsy (lookup kv "given") && str_or_falsy (lookup kv "family")
  | _ => false
  end.

(** A message as Crossref sends it: text (or nothing) in the text fields,
    lists of texts for title and container, a list of author objects, a
    list of subjects, and date fields of the shape of [date_shaped]. *)
Definition crossref_shaped (msg : json) : bool :=
  match msg with
  | JObj kv =>
      str_or_falsy (lookup kv "type")
      && str_or_falsy (first_variant (lookup kv "title"))
      && str_or_falsy (first_variant (lookup kv "container-title"))
      && match py_or (lookup kv "author") (JArr []) with
         | JArr l => forallb author_shaped l
         | _ => false
         end
      && str_or_falsy (lookup kv "page")
      && str_or_falsy (lookup kv "abstract")
      && match py_or (lookup kv "subject") (JArr []) with
         | JArr _ => true
         | _ => false
         end
      && str_or_falsy (lookup kv "volume")
      && str_or_falsy (lookup kv "issue")
      && str_or_falsy (lookup kv "DOI")
      && str_or_falsy (lookup kv "URL")
      && str_or_falsy (lookup kv "publisher")
      && dates_shaped msg
  | _ => false
  end.

(** Whitespace runs turned into single spaces, read off character by
    character; [in_run] tells that the previous character was whitespace. *)
Fixpoint collapse (in_run : bool) (s : str) : str :=
  match s with
  | [] => []
  | c :: s' =>
      if isspace c
      then if in_run then collapse true s' else " "%char :: collapse true s'
      else c :: collapse false s'
  end.

(** The lines of a record with a given tag. *)
Definition lines_tagged (tag : string) (lines : list str) : list str :=
  filter (fun l => startswith l (lit tag ++ lit "  - ")) lines.

(** The records of the successful entries. *)
Definition metas_of (entries : list AuditEntry) : list Meta :=
  flat_map (fun e => match a_meta e with Some m => [m] | None => [] end)
    entries.

(** The requests a computation sends in a fresh session. *)
Definition requests_of {A : Type} (m : M A) : list request :=
  sent (snd (m init)).

(** A request as the program builds them: its user agent, 20 seconds. *)
Definition well_formed_request (v : variant) (rq : request) : Prop :=
  req_headers rq = [(lit "User-Agent", USER_AGENT v)] /\ req_timeout rq = 20%Z.



(** *** What an audit entry may hold *)

(** The routes of an entry with a record, and of an entry with an error. *)
Definition ROUTES_FOUND : list str :=
  [lit "doi"; lit "url_doi"; lit "url_title"; lit "pdf_doi"; lit "pdf_title"].

Definition ROUTES_ERROR : list str := [lit "pdf_error"; lit "url_error"].

(** An entry holds a record under the route that found it, or an error
    under an error route, or neither and then no route. *)
Definition consistent (e : AuditEntry) : Prop :=
  match a_meta e, a_error e with
  | Some _, None => a_success e = true /\ In (a_route e) ROUTES_FOUND
  | None, None => a_success e = false /\ a_route e = []
  | None, Some _ => a_success e = false /\ In (a_route e) ROUTES_ERROR
  | Some _, Some _ => False
  end.

(** An outcome with a record carries one of [routes]; one without carries
    no route. *)
Definition outcome_under (routes : list str) (r : Exc outcome) : Prop :=
  match r with
  | Ok (Some _, route) => In route routes
  | Ok (None, route) => route = []
  | Raise _ => True
  end.

(** A request to the registry: a lookup by DOI or a search by a title that
    is not blank. *)
Definition to_crossref (v : variant) (rq : request) : Prop :=
  (exists doi, rq = fetch_request v doi)
  \/ (exists title, rq = search_request v title /\ strip title <> []).

(** The requests a batch adds to those sent before. *)
Definition batch_requests (v : variant) (E : Env)
    (pdfs : list UploadedFile) (list_box : str) (st : State)
  : list request :=
  skipn (length (sent st)) (sent (snd (process_batch v E pdfs list_box st))).

(** *** The single input *)

(** What the single-input tab goes on with after its [try]: the outcome of
    the strategies, or no record and no route after an exception. *)
Definition settled (r : Exc outcome) : outcome :=
  match r with
  | Ok o => o
  | Raise _ => (None, [])
  end.

Definition single_outcome (v : variant) (E : Env) (doi url : str)
    (pdf : option UploadedFile) : Exc outcome :=
  fst (single_strategies v E doi url pdf init).

(** The entry the single-input tab appends. *)
Definition single_entry (v : variant) (E : Env) (doi url : str)
    (pdf : option UploadedFile) : AuditEntry :=
  entry_of (single_input doi url pdf) []
    (Ok (settled (single_outcome v E doi url pdf))).

(** The message shown for an exception. *)
Definition error_shown (r : Exc outcome) : list widget :=
  match r with
  | Ok _ => []
  | Raise e => [st_error (lit "Error: " ++ exn_msg e)]
  end.

(** *** Line feeds *)

Definition no_lf (s : str) : bool := forallb (fun x => negb (is_LF x)) s.

(** How many line feeds a text holds, and how many bytes [0a] a byte
    string. *)
Definition line_feeds (s : str) : nat := length (filter is_LF s).

Definition line_feed_bytes (b : list Byte.byte) : nat :=
  length (filter (Byte.eqb Byte.x0a) b).

(** A text whose only whitespace is single spaces: every whitespace
    character is a space and is followed by no whitespace. *)
Fixpoint single_spaced (s : str) : bool :=
  match s with
  | [] => true
  | c :: s' =>
      (if isspace c
       then Ascii.eqb c " "%char
            && match s' with
               | [] => true
               | d :: _ => negb (isspace d)
               end
       else true)
      && single_spaced s'
  end.

(** The record built from a message without any field. *)
Definition blank_record : Meta :=
  mkMeta (Some (lit "GEN")) (Some []) [] None (Some []) (Some []) (Some [])
    (Some []) (Some []) (Some []) (Some []) (Some []) (Some []) [].

(** An environment in which every PDF reads as one title line and the
    registry answers every request with an empty object. *)
Definition paper_env : Env :=
  mkEnv (fun _ => Ok (Response [] None (Ok (JObj []))))
    (fun _ => Ok (lit "A Study of Something Interesting"))
    (fun _ => Ok []) true true.

(** * Properties *)

(** ** Strings *)

Lemma str_eqb_eq (a b : str) : str_eqb a b = true <-> a = b.
Proof.
  revert b; induction a as [|x a IH]; intros [|y b]; simpl;
    try (split; (discriminate || reflexivity)).
  rewrite andb_true_iff, Ascii.eqb_eq, IH.
  split; [intros [-> ->]; reflexivity | intros H; inversion H; auto].
Qed.

Lemma str_eqb_refl (a : str) : str_eqb a a = true.
Proof. apply str_eqb_eq; reflexivity. Qed.

Lemma lstrip_In (c : ascii) (s : str) : In c (lstrip s) -> In c s.
Proof.
  induction s as [|x s IH]; simpl; [auto|].
  destruct (isspace x); [right; auto | auto].
Qed.

Lemma lstrip_head (s t : str) (c : ascii) :
  lstrip s = c :: t -> isspace c = false.
Proof.
  induction s as [|x s IH]; simpl; [discriminate|].
  destruct (isspace x) eqn:Hx; [exact IH|].
  intros H; inversion H; subst; exact Hx.
Qed.

Lemma lstrip_nonspace (c : ascii) (s : str) :
  isspace c = false -> lstrip (c :: s) = c :: s.
Proof. intros H; simpl; rewrite H; reflexivity. Qed.

Lemma lstrip_idem (s : str) : lstrip (lstrip s) = lstrip s.
Proof.
  destruct (lstrip s) as [|c t] eqn:H; [reflexivity|].
  apply lstrip_nonspace, (lstrip_head _ _ _ H).
Qed.

Lemma lstrip_snoc (l : str) (c : ascii) :
  isspace c = false -> lstrip (l ++ [c]) = lstrip l ++ [c].
Proof.
  intros Hc; induction l as [|x l IH]; simpl.
  - rewrite Hc; reflexivity.
  - destruct (isspace x); [exact IH | reflexivity].
Qed.

Lemma rstrip_cons (c : ascii) (t : str) :
  isspace c = false -> rstrip (c :: t) = c :: rstrip t.
Proof.
  intros Hc; unfold rstrip; simpl.
  rewrite (lstrip_snoc _ _ Hc), rev_app_distr; reflexivity.
Qed.

Lemma rstrip_In (c : ascii) (s : str) : In c (rstrip s) -> In c s.
Proof.
  unfold rstrip; intros H.
  apply (proj2 (in_rev _ _)), lstrip_In in H.
  apply (proj2 (in_rev _ _)); exact H.
Qed.

Lemma rstrip_idem (s : str) : rstrip (rstrip s) = rstrip s.
Proof.
  unfold rstrip; rewrite rev_involutive, lstrip_idem; reflexivity.
Qed.

Lemma strip_In (c : ascii) (s : str) : In c (strip s) -> In c s.
Proof. intros H; apply lstrip_In, rstrip_In, H. Qed.

Lemma strip_head (s t : str) (c : ascii) :
  strip s = c :: t -> isspace c = false.
Proof.
  unfold strip; destruct (lstrip s) as [|x u] eqn:H.
  - discriminate.
  - pose proof (lstrip_head _ _ _ H) as Hx.
    rewrite (rstrip_cons _ _ Hx); intros E; inversion E; subst; exact Hx.
Qed.

Lemma strip_last (s t : str) (c : ascii) :
  strip s = t ++ [c] -> isspace c = false.
Proof.
  unfold strip, rstrip; intros H.
  apply (f_equal (@rev ascii)) in H.
  rewrite rev_involutive, rev_app_distr in H; simpl in H.
  exact (lstrip_head _ _ _ H).
Qed.

Lemma strip_idem (s : str) : strip (strip s) = strip s.
Proof.
  unfold strip at 1.
  destruct (strip s) as [|c t] eqn:H; [reflexivity|].
  rewrite (lstrip_nonspace _ _ (strip_head _ _ _ H)), <- H.
  unfold strip; apply rstrip_idem.
Qed.

Lemma replace_char_length (a b : ascii) (s : str) :
  length (replace_char a b s) = length s.
Proof. apply length_map. Qed.

Lemma replace_char_gone (a b c : ascii) (s : str) :
  b <> a -> In c (replace_char a b s) -> c <> a.
Proof.
  intros Hab H; unfold replace_char in H; apply in_map_iff in H.
  destruct H as (x & Hx & _).
  destruct (Ascii.eqb x a) eqn:E; [subst; exact Hab|].
  subst c; apply Ascii.eqb_neq; exact E.
Qed.

(** What [ris_escape] guarantees: no newline is left, and the text neither
    starts nor ends with whitespace. *)
Lemma ris_escape_no_newline (v : str) : ~ In "010"%char (ris_escape v).
Proof.
  intros H; apply strip_In in H.
  apply (replace_char_gone "010"%char " "%char) in H; [|discriminate].
  apply H; reflexivity.
Qed.

Lemma ris_escape_trimmed (v : str) : strip (ris_escape v) = ris_escape v.
Proof. apply strip_idem. Qed.

(** ** RIS serialisation *)

Lemma field_line_scalar (p : str) (tag : string) (esc : bool)
    (o : option str) :
  (forall v, p ++ v = tag_line (lit tag) v) ->
  field_line p (if esc then ris_escape else raw) o
  = map render (scalar tag esc o).
Proof.
  intros Hp; destruct o as [[|c s]|]; simpl; try reflexivity.
  rewrite Hp; destruct esc; reflexivity.
Qed.

Lemma list_lines_listed (p : str) (tag : string) (l : list str) :
  (forall v, p ++ v = tag_line (lit tag) v) ->
  list_lines p l = map render (listed tag l).
Proof.
  intros Hp; unfold list_lines, listed.
  induction l as [|a l IH]; simpl; [reflexivity|].
  destruct a as [|c a]; simpl; [exact IH|].
  rewrite Hp, IH; reflexivity.
Qed.

(** The serialiser is the table [entries] rendered line by line, between
    the type line and the end marker. *)
Lemma to_ris_lines_entries (m : Meta) :
  to_ris_lines m
  = tag_line (lit "TY") (type_or_GEN m)
    :: map render (entries m) ++ [tag_line (lit "ER") []].
Proof.
  unfold to_ris_lines, entries.
  rewrite (field_line_scalar _ "TI" true), (field_line_scalar _ "T2" true),
    (field_line_scalar _ "PB" true), (field_line_scalar _ "PY" false),
    (field_line_scalar _ "VL" false), (field_line_scalar _ "IS" false),
    (list_lines_listed _ "AU"), (field_line_scalar _ "SP" false),
    (field_line_scalar _ "EP" false), (field_line_scalar _ "DO" false),
    (field_line_scalar _ "UR" false), (field_line_scalar _ "AB" true),
    (list_lines_listed _ "KW") by reflexivity.
  rewrite !map_app, <- !app_assoc.
  reflexivity.
Qed.

Lemma scalar_inv (tag : string) (esc : bool) (o : option str) (e : entry) :
  In e (scalar tag esc o) ->
  exists x, e = (lit tag, esc, x) /\ o = Some x /\ x <> [].
Proof.
  destruct o as [[|c s]|]; simpl; try tauto.
  intros [<-|[]]; exists (c :: s); repeat split; discriminate.
Qed.

Lemma listed_inv (tag : string) (l : list str) (e : entry) :
  In e (listed tag l) ->
  exists x, e = (lit tag, true, x) /\ In x l /\ x <> [].
Proof.
  unfold listed; rewrite in_map_iff.
  intros (x & <- & Hx); apply filter_In in Hx; destruct Hx as [Hx Hne].
  exists x; repeat split; [exact Hx|].
  destruct x; [discriminate Hne | discriminate].
Qed.

(** Every entry comes from a non-empty field of the record, under that
    field's tag. *)
Lemma entries_inv (m : Meta) (tag : str) (esc : bool) (x : str) :
  In (tag, esc, x) (entries m) ->
  x <> [] /\ In (tag, esc) TAG_ESCAPED
  /\ ((exists get, In (tag, get) SCALAR_TAGS /\ get m = Some x)
      \/ (exists get, In (tag, get) LIST_TAGS /\ In x (get m))).
Proof.
  unfold entries; rewrite !in_app_iff.
  intros H;
    repeat match type of H with
           | _ \/ _ => destruct H as [H|H]
           end;
    first [ apply scalar_inv in H; destruct H as (y & E & Ho & Hne)
          | apply listed_inv in H; destruct H as (y & E & Ho & Hne) ];
    inversion E; subst; (split; [exact Hne|]);
    (split; [simpl; tauto|]);
    first [ left; eexists; split; [|exact Ho]; simpl; tauto
          | right; eexists; split; [|exact Ho]; simpl; tauto ].
Qed.

Lemma to_ris_lines_inv (m : Meta) (l : str) :
  In l (to_ris_lines m) ->
  l = tag_line (lit "TY") (type_or_GEN m)
  \/ l = tag_line (lit "ER") []
  \/ exists tag esc x, In (tag, esc, x) (entries m)
                       /\ l = render (tag, esc, x).
Proof.
  rewrite to_ris_lines_entries; simpl; rewrite in_app_iff, in_map_iff.
  intros [H|[(e & <- & He)|[H|[]]]]; auto.
  destruct e as [[tag esc] x]; right; right; exists tag, esc, x; auto.
Qed.

(** Split conjunctions only. *)
Ltac conjs := repeat match goal with |- _ /\ _ => split end.

Ltac split_In H :=
  simpl in H;
  repeat match type of H with
         | _ \/ _ => destruct H as [H|H]
         | False => destruct H
         end.

(** C2, as stated, fails: the record with only [title = "Test"] serialises
    to three lines, not two. *)
Lemma title_only_not_two_lines : length (to_ris_lines title_only) <> 2.
Proof. vm_compute; discriminate. Qed.

(** C2 (amended).  The record whose only non-empty field is
    [title = "Test"] serialises to exactly three lines, [TY  - GEN],
    [TI  - Test] and [ER  - ].  For every record the first line is the type
    line, with [GEN] when the type is empty or absent, and no line carries
    the tag of a scalar field that is empty or absent, nor the tag of a
    list field without a non-empty element. *)
Theorem title_only_three_lines_no_empty_tags :
  to_ris_lines title_only
  = [lit "TY  - GEN"; lit "TI  - Test"; lit "ER  - "]
  /\ (forall m,
        hd_error (to_ris_lines m) = Some (lit "TY  - " ++ type_or_GEN m)
        /\ (m_type m = None \/ m_type m = Some [] ->
            type_or_GEN m = lit "GEN"))
  /\ (forall m tag get l,
        In (tag, get) SCALAR_TAGS ->
        get m = None \/ get m = Some [] ->
        In l (to_ris_lines m) ->
        startswith l (tag ++ lit "  - ") = false)
  /\ (forall m tag get l,
        In (tag, get) LIST_TAGS ->
        (forall a, In a (get m) -> a = []) ->
        In l (to_ris_lines m) ->
        startswith l (tag ++ lit "  - ") = false).
Proof.
  split; [reflexivity|].
  split.
  { intros m; split; [reflexivity|].
    unfold type_or_GEN; intros [-> | ->]; reflexivity. }
  split.
  - intros m tag get l Htag Hget Hl.
    apply to_ris_lines_inv in Hl.
    destruct Hl as [-> | [-> | (tag' & esc & x & He & ->)]].
    + split_In Htag; inversion Htag; reflexivity.
    + split_In Htag; inversion Htag; reflexivity.
    + apply entries_inv in He.
      destruct He as (Hne & _ & [(get' & Hin & Hx) | (get' & Hin & Hx)]).
      * split_In Htag; inversion Htag; subst tag get;
          split_In Hin; inversion Hin; subst tag' get';
          first [ reflexivity
                | exfalso; destruct Hget as [Hget|Hget];
                  rewrite Hget in Hx; inversion Hx; subst x;
                  apply Hne; reflexivity ].
      * split_In Htag; inversion Htag; subst tag get;
          split_In Hin; inversion Hin; subst tag' get'; reflexivity.
  - intros m tag get l Htag Hget Hl.
    apply to_ris_lines_inv in Hl.
    destruct Hl as [-> | [-> | (tag' & esc & x & He & ->)]].
    + split_In Htag; inversion Htag; reflexivity.
    + split_In Htag; inversion Htag; reflexivity.
    + apply entries_inv in He.
      destruct He as (Hne & _ & [(get' & Hin & Hx) | (get' & Hin & Hx)]).
      * split_In Htag; inversion Htag; subst tag get;
          split_In Hin; inversion Hin; subst tag' get'; reflexivity.
      * split_In Htag; inversion Htag; subst tag get;
          split_In Hin; inversion Hin; subst tag' get';
          first [ reflexivity
                | exfalso; apply Hne, Hget, Hx ].
Qed.

(** The theorem at the record holding only the volume ["7"]: its title is
    absent, so its volume line is not a [TI] line. *)
Lemma title_only_three_lines_no_empty_tags_witness :
  startswith (lit "VL  - 7") (lit "TI" ++ lit "  - ") = false.
Proof.
  apply (proj1 (proj2 (proj2 title_only_three_lines_no_empty_tags))
           (volume_only (lit "7")) (lit "TI") m_title (lit "VL  - 7")).
  - simpl; tauto.
  - left; reflexivity.
  - right; left; reflexivity.
Defined.

(** C3, as stated, fails: a volume holding a newline is written as it is,
    not escaped. *)
Lemma volume_line_not_escaped :
  let v := lit "1" ++ NL ++ lit "2" in
  to_ris_lines (volume_only v)
  = [lit "TY  - GEN"; lit "VL  - " ++ v; lit "ER  - "]
  /\ lit "VL  - " ++ v <> tag_line (lit "VL") (ris_escape v)
  /\ ris_escape v = lit "1 2".
Proof.
  repeat split; try reflexivity.
  vm_compute; discriminate.
Qed.

(** C3 (amended).  Every line of a serialised record is a two-character
    tag, two spaces, a hyphen, a space, then a value: the type line, then
    one line per non-empty field, then the end marker with an empty value.
    For the tags TI, T2, PB, AU, AB and KW the value is the field escaped;
    for PY, VL, IS, SP, EP, DO and UR it is the field as it is, with no
    escaping.  Escaping replaces each newline with a space and trims: the
    escaped text has the length-preserving replacement as its source,
    holds no newline and is a fixed point of trimming. *)
Theorem tag_lines_escaped_or_verbatim (m : Meta) :
  to_ris_lines m
  = tag_line (lit "TY") (type_or_GEN m)
    :: map render (entries m) ++ [tag_line (lit "ER") []]
  /\ (forall tag esc x,
        In (tag, esc, x) (entries m) ->
        x <> [] /\ length tag = 2 /\ In (tag, esc) TAG_ESCAPED
        /\ render (tag, esc, x)
           = tag ++ lit "  - " ++ (if esc then ris_escape x else x))
  /\ (forall x,
        ris_escape x = strip (replace_char "010"%char " "%char x)
        /\ length (replace_char "010"%char " "%char x) = length x
        /\ ~ In "010"%char (ris_escape x)
        /\ strip (ris_escape x) = ris_escape x).
Proof.
  split; [apply to_ris_lines_entries|].
  split.
  - intros tag esc x H; apply entries_inv in H.
    destruct H as (Hne & Htag & _).
    repeat split; auto.
    split_In Htag; inversion Htag; reflexivity.
  - intros x; repeat split.
    + apply replace_char_length.
    + apply ris_escape_no_newline.
    + apply ris_escape_trimmed.
Qed.

(** The theorem at a record with a title and a volume: the title is
    escaped, the volume is not. *)
Lemma tag_lines_escaped_or_verbatim_witness :
  let m := mkMeta None (Some (lit " A" ++ NL ++ lit "B ")) [] None None
             (Some (lit "1" ++ NL ++ lit "2")) None None None None None
             None None [] in
  to_ris_lines m
  = [lit "TY  - GEN"; lit "TI  - A B";
     lit "VL  - 1" ++ NL ++ lit "2"; lit "ER  - "].
Proof.
  intros m.
  rewrite (proj1 (tag_lines_escaped_or_verbatim m)).
  reflexivity.
Defined.

(** ** The shape of a record block *)

Lemma count_field_line (p : str) (f : str -> str) (o : option str)
    (l : str) :
  (forall v, p ++ v <> l) -> count_occ str_eq_dec (field_line p f o) l = 0.
Proof.
  intros Hp; destruct o as [[|c s]|]; simpl; try reflexivity.
  destruct (str_eq_dec (p ++ f (c :: s)) l) as [E|_]; [|reflexivity].
  destruct (Hp _ E).
Qed.

Lemma count_list_lines (p : str) (xs : list str) (l : str) :
  (forall v, p ++ v <> l) -> count_occ str_eq_dec (list_lines p xs) l = 0.
Proof.
  intros Hp; unfold list_lines; induction xs as [|a xs IH]; simpl;
    [reflexivity|].
  destruct a as [|c a]; simpl; [exact IH|].
  destruct (str_eq_dec (p ++ ris_escape (c :: a)) l) as [E|_]; [|exact IH].
  destruct (Hp _ E).
Qed.

Lemma last_app_singleton {A : Type} (l : list A) (x d : A) :
  last (l ++ [x]) d = x.
Proof. apply last_last. Qed.

(** C10.  For every record, the lines of [to_ris_lines] are not empty, the
    first is a [TY  - ] line, the last is exactly [ER  - ], there are at
    least two lines, and exactly one of them is the end-of-record marker. *)
Theorem record_block_shape (m : Meta) :
  to_ris_lines m <> []
  /\ (exists ty, hd_error (to_ris_lines m) = Some (lit "TY  - " ++ ty))
  /\ last (to_ris_lines m) [] = lit "ER  - "
  /\ 2 <= length (to_ris_lines m)
  /\ count_occ str_eq_dec (to_ris_lines m) (lit "ER  - ") = 1.
Proof.
  split; [discriminate|].
  split; [eexists; reflexivity|].
  split.
  { rewrite to_ris_lines_entries.
    change (tag_line (lit "TY") (type_or_GEN m)
            :: map render (entries m) ++ [tag_line (lit "ER") []])
      with ((tag_line (lit "TY") (type_or_GEN m) :: map render (entries m))
            ++ [tag_line (lit "ER") []]).
    rewrite last_app_singleton; reflexivity. }
  split.
  { rewrite to_ris_lines_entries; simpl; rewrite length_app; simpl; lia. }
  unfold to_ris_lines.
  rewrite !count_occ_app.
  rewrite !count_field_line, !count_list_lines
    by (intros v H; discriminate H).
  reflexivity.
Qed.

(** ** Normalisation *)

Lemma contains_char_In (c : ascii) (s : str) :
  contains_char c s = true <-> In c s.
Proof.
  unfold contains_char; rewrite existsb_exists; split.
  - intros (x & Hx & E); apply Ascii.eqb_eq in E; subst; exact Hx.
  - intros H; exists c; split; [exact H | apply Ascii.eqb_refl].
Qed.

Lemma split_once_first (c : ascii) (a b : str) :
  ~ In c a -> split_once c (a ++ c :: b) = (a, b).
Proof.
  induction a as [|x a IH]; simpl; intros Hna.
  - rewrite Ascii.eqb_refl; reflexivity.
  - destruct (Ascii.eqb x c) eqn:E.
    + apply Ascii.eqb_eq in E; destruct Hna; auto.
    + rewrite IH; [reflexivity | intros H; apply Hna; auto].
Qed.

(** [split_page] on a cleaned page: the parts around the first hyphen,
    each trimmed; or the whole value and nothing. *)
Lemma split_page_hyphen (a b : str) :
  ~ In "-"%char a -> split_page (a ++ "-"%char :: b) = (strip a, strip b).
Proof.
  intros Hna; unfold split_page.
  destruct (a ++ "-"%char :: b) as [|x q] eqn:E;
    [destruct a; discriminate E|].
  rewrite <- E.
  replace (contains_char "-"%char (a ++ "-"%char :: b)) with true.
  - rewrite (split_once_first _ _ _ Hna); reflexivity.
  - symmetry; apply contains_char_In, in_or_app; right; left; reflexivity.
Qed.

Lemma split_page_plain (p : str) :
  ~ In "-"%char (strip p) -> split_page (strip p) = (strip p, []).
Proof.
  intros Hn; unfold split_page.
  destruct (strip p) as [|x q] eqn:E; [reflexivity|].
  destruct (contains_char "-"%char (x :: q)) eqn:C.
  - apply contains_char_In in C; destruct (Hn C).
  - rewrite <- E, strip_idem; reflexivity.
Qed.

Lemma clean_falsy (x : json) : truthy x = false -> clean x = Ok [].
Proof. intros H; unfold clean, py_or; rewrite H; reflexivity. Qed.

Lemma clean_str (p : str) : clean (JStr p) = Ok (strip p).
Proof. destruct p; reflexivity. Qed.

Lemma clean_Ok (x : json) (s : str) :
  clean x = Ok s ->
  (truthy x = false /\ s = []) \/ (exists p, x = JStr p /\ s = strip p).
Proof.
  destruct (truthy x) eqn:T.
  - unfold clean, py_or; rewrite T.
    destruct x; simpl; try discriminate.
    intros H; inversion H; right; eexists; split; reflexivity.
  - rewrite (clean_falsy _ T); intros H; inversion H; left; auto.
Qed.

Ltac invert_binds H :=
  repeat match type of H with
         | match ?x with _ => _ end = _ =>
             let E := fresh "E" in destruct x eqn:E; try discriminate H
         | (let (_, _) := ?x in _) = _ =>
             let E := fresh "E" in destruct x eqn:E
         end.

(** What a successful normalisation did to the page, the abstract and the
    year. *)
Lemma crossref_to_meta_inv (v : variant) (kv : list (str * json))
    (meta : Meta) :
  crossref_to_meta v (JObj kv) = Ok meta ->
  exists page abstract,
    clean (lookup kv "page") = Ok page
    /\ clean (lookup kv "abstract") = Ok abstract
    /\ m_sp meta = Some (fst (split_page page))
    /\ m_ep meta = Some (snd (split_page page))
    /\ m_abstract meta = Some (strip_jats abstract)
    /\ crossref_first_year v (JObj kv) = Ok (m_year meta).
Proof.
  unfold crossref_to_meta, ebind, dict_get; intros H.
  fold (lookup kv "page") in H; fold (lookup kv "abstract") in H.
  invert_binds H.
  inversion H; subst meta; simpl.
  do 2 eexists; repeat split; try eassumption.
  - match goal with E : split_page _ = _ |- _ => rewrite E end; reflexivity.
  - match goal with E : split_page _ = _ |- _ => rewrite E end; reflexivity.
Qed.

(** A record holding nothing but a page normalises, whatever the page. *)
Lemma page_only_returns (v : variant) (p : str) :
  exists meta, crossref_to_meta v (JObj [(lit "page", JStr p)]) = Ok meta.
Proof.
  unfold crossref_to_meta, ebind; simpl.
  rewrite clean_str.
  destruct (split_page (strip p)) as [sp ep].
  destruct v; simpl; eexists; reflexivity.
Qed.

(** C8.  When a message normalises, its page is split on the first hyphen:
    for a page text [p], trimmed, of the form [a-b] with no hyphen in [a],
    the start page is [a] and the end page is [b], each trimmed; for a page
    text without a hyphen the start page is the trimmed text and the end
    page is empty; without a page (absent, or holding a false value) both
    are empty.  A message holding only a page always normalises. *)
Theorem page_split_on_first_hyphen (v : variant) :
  (forall kv meta,
     crossref_to_meta v (JObj kv) = Ok meta ->
     match assoc (lit "page") kv with
     | Some (JStr p) =>
         (forall a b,
            strip p = a ++ "-"%char :: b -> ~ In "-"%char a ->
            m_sp meta = Some (strip a) /\ m_ep meta = Some (strip b))
         /\ (~ In "-"%char (strip p) ->
             m_sp meta = Some (strip p) /\ m_ep meta = Some [])
     | Some other =>
         truthy other = false /\ m_sp meta = Some [] /\ m_ep meta = Some []
     | None => m_sp meta = Some [] /\ m_ep meta = Some []
     end)
  /\ (forall p,
        exists meta,
          crossref_to_meta v (JObj [(lit "page", JStr p)]) = Ok meta).
Proof.
  split; [|apply page_only_returns].
  intros kv meta H.
  apply crossref_to_meta_inv in H.
  destruct H as (page & abstract & Hpage & _ & Hsp & Hep & _).
  unfold lookup in Hpage.
  destruct (assoc (lit "page") kv) as [x|].
  - apply clean_Ok in Hpage.
    destruct Hpage as [[Hf ->] | (p & -> & ->)].
    + destruct x; simpl in Hf; try discriminate Hf; auto.
      destruct s; [|discriminate Hf].
      split.
      * intros a b E; destruct a; discriminate E.
      * auto.
    + split.
      * intros a b E Hna.
        rewrite E, (split_page_hyphen _ _ Hna) in Hsp, Hep; auto.
      * intros Hn; rewrite (split_page_plain _ Hn) in Hsp, Hep; auto.
  - simpl in Hpage; inversion Hpage; subst page; auto.
Qed.

(** The specification's first example, through the theorem. *)
Lemma page_split_on_first_hyphen_witness :
  exists meta,
    crossref_to_meta Baseline (JObj [(lit "page", JStr (lit "100-110"))])
    = Ok meta
    /\ m_sp meta = Some (lit "100") /\ m_ep meta = Some (lit "110").
Proof.
  eexists; split; [reflexivity|].
  apply (proj1 (proj1 (page_split_on_first_hyphen Baseline)
                  [(lit "page", JStr (lit "100-110"))] _ eq_refl)
           (lit "100") (lit "110")).
  - reflexivity.
  - simpl; intros [H|[H|[H|[]]]]; discriminate H.
Defined.

Example page_examples :
  forall v,
    (exists m, crossref_to_meta v (JObj [(lit "page", JStr (lit "100-110"))])
               = Ok m
               /\ m_sp m = Some (lit "100") /\ m_ep m = Some (lit "110"))
    /\ (exists m, crossref_to_meta v (JObj [(lit "page", JStr (lit "100"))])
                  = Ok m
                  /\ m_sp m = Some (lit "100") /\ m_ep m = Some [])
    /\ (exists m, crossref_to_meta v (JObj []) = Ok m
                  /\ m_sp m = Some [] /\ m_ep m = Some []).
Proof.
  intros v; repeat split; destruct v; eexists; repeat split; reflexivity.
Qed.

(** ** The matcher *)

Lemma within_pred (max : option nat) (n : nat) :
  within (option_map pred max) n -> room max = true -> within max (S n).
Proof.
  unfold within; intros H R m E; subst max; destruct m; [discriminate R|].
  specialize (H m eq_refl); lia.
Qed.

Lemma within_0 (max : option nat) : within max 0.
Proof. intros m _; lia. Qed.

Lemma within_room (max : option nat) (n : nat) :
  within max (S n) -> room max = true /\ within (option_map pred max) n.
Proof.
  unfold within; intros H; destruct max as [[|m]|]; simpl.
  - specialize (H 0 eq_refl); lia.
  - split; [reflexivity|]; intros k E; simpl in E; inversion E; subst k.
    specialize (H (S m) eq_refl); lia.
  - split; [reflexivity|]; intros k E; discriminate E.
Qed.

(** Whatever a repetition returns is a split of the text into a run of
    the class, within the bounds, and a rest the continuation accepted. *)
Lemma rep_greedy_sound (c : ascii -> bool) (k : str -> option (list str)) :
  forall s min max acc r,
    rep_greedy c k min max acc s = Some r ->
    exists x s' l,
      s = x ++ s' /\ r = (rev acc ++ x) :: l /\ k s' = Some l
      /\ forallb c x = true /\ min <= length x /\ within max (length x).
Proof.
  assert (Stop : forall s min max acc r,
             match min with
             | 0 => option_map (cons (rev acc)) (k s)
             | S _ => None
             end = Some r ->
             exists x s' l,
               s = x ++ s' /\ r = (rev acc ++ x) :: l /\ k s' = Some l
               /\ forallb c x = true /\ min <= length x
               /\ within max (length x)).
  { intros s min max acc r H; destruct min; [|discriminate H].
    destruct (k s) as [l|] eqn:K; [|discriminate H].
    inversion H; subst r; exists [], s, l.
    rewrite app_nil_r; repeat split; auto; apply within_0. }
  induction s as [|a s IH]; intros min max acc r H; simpl in H.
  - destruct (room max); apply (Stop _ _ _ _ _ H).
  - destruct (room max) eqn:R; [|apply (Stop _ _ _ _ _ H)].
    destruct (c a) eqn:Ca; [|apply (Stop _ _ _ _ _ H)].
    destruct (rep_greedy c k (pred min) (option_map pred max) (a :: acc) s)
      as [r'|] eqn:Rec; [|apply (Stop _ _ _ _ _ H)].
    inversion H; subst r'.
    destruct (IH _ _ _ _ Rec) as (x & s' & l & -> & -> & K & Hc & Hmin & Hmax).
    exists (a :: x), s', l; simpl; rewrite <- app_assoc; simpl.
    repeat split; auto.
    + rewrite Ca; exact Hc.
    + lia.
    + apply within_pred; assumption.
Qed.

Lemma rep_lazy_sound (c : ascii -> bool) (k : str -> option (list str)) :
  forall s min max acc r,
    rep_lazy c k min max acc s = Some r ->
    exists x s' l,
      s = x ++ s' /\ r = (rev acc ++ x) :: l /\ k s' = Some l
      /\ forallb c x = true /\ min <= length x /\ within max (length x).
Proof.
  induction s as [|a s IH]; intros min max acc r H; simpl in H.
  - destruct min; simpl in H.
    + destruct (k []) as [l|] eqn:K; simpl in H.
      * inversion H; subst r; exists [], [], l;
          repeat split; rewrite ?app_nil_r; auto; apply within_0.
      * destruct (room max); discriminate H.
    + destruct (room max); discriminate H.
  - assert (Rec : room max = true -> c a = true ->
                  rep_lazy c k (pred min) (option_map pred max)
                    (a :: acc) s = Some r ->
                  exists x s' l,
                    a :: s = x ++ s' /\ r = (rev acc ++ x) :: l
                    /\ k s' = Some l /\ forallb c x = true
                    /\ min <= length x /\ within max (length x)).
    { intros R Ca Hrec.
      destruct (IH _ _ _ _ Hrec)
        as (x & s' & l & -> & -> & K & Hc & Hmin & Hmax).
      exists (a :: x), s', l; simpl; rewrite <- app_assoc; simpl.
      repeat split; auto.
      - rewrite Ca; exact Hc.
      - lia.
      - apply within_pred; assumption. }
    destruct min; simpl in H.
    + destruct (k (a :: s)) as [l|] eqn:K; simpl in H.
      * inversion H; subst r; exists [], (a :: s), l;
          repeat split; rewrite ?app_nil_r; auto; apply within_0.
      * destruct (room max) eqn:R; [|discriminate H].
        destruct (c a) eqn:Ca; [|discriminate H].
        apply Rec; auto.
    + destruct (room max) eqn:R; [|discriminate H].
      destruct (c a) eqn:Ca; [|discriminate H].
      apply Rec; auto.
Qed.

(** If some split is acceptable, a repetition returns a match. *)
Lemma rep_greedy_complete (c : ascii -> bool)
    (k : str -> option (list str)) :
  forall x s' min max acc,
    forallb c x = true -> min <= length x -> within max (length x) ->
    k s' <> None ->
    rep_greedy c k min max acc (x ++ s') <> None.
Proof.
  assert (Stop : forall s acc, k s <> None ->
                               option_map (cons (rev acc)) (k s) <> None).
  { intros s acc K; destruct (k s); [discriminate | destruct K; reflexivity]. }
  induction x as [|a x IH]; intros s' min max acc Hc Hmin Hmax K; simpl in *.
  - assert (min = 0) by lia; subst min.
    destruct s' as [|b s']; simpl.
    + destruct (room max); apply Stop, K.
    + destruct (room max); [|apply Stop, K].
      destruct (c b); [|apply Stop, K].
      destruct (rep_greedy c k 0 (option_map pred max) (b :: acc) s');
        [discriminate | apply Stop, K].
  - apply andb_true_iff in Hc; destruct Hc as [Ca Hc].
    destruct (within_room _ _ Hmax) as [R Hmax'].
    rewrite R, Ca.
    specialize (IH s' (pred min) (option_map pred max) (a :: acc) Hc).
    destruct (rep_greedy c k (pred min) (option_map pred max) (a :: acc)
                (x ++ s')); [discriminate|].
    destruct IH; auto; lia.
Qed.

Lemma rep_lazy_complete (c : ascii -> bool)
    (k : str -> option (list str)) :
  forall x s' min max acc,
    forallb c x = true -> min <= length x -> within max (length x) ->
    k s' <> None ->
    rep_lazy c k min max acc (x ++ s') <> None.
Proof.
  induction x as [|a x IH]; intros s' min max acc Hc Hmin Hmax K; simpl in *.
  - assert (min = 0) by lia; subst min.
    destruct s' as [|b s']; simpl;
      (destruct (k _); simpl; [discriminate | destruct K; reflexivity]).
  - apply andb_true_iff in Hc; destruct Hc as [Ca Hc].
    destruct (within_room _ _ Hmax) as [R Hmax'].
    assert (Rec : rep_lazy c k (pred min) (option_map pred max) (a :: acc)
                    (x ++ s') <> None) by (apply IH; auto; lia).
    destruct min; simpl.
    + destruct (k (a :: x ++ s')); simpl; [discriminate|].
      rewrite R, Ca; exact Rec.
    + rewrite R, Ca; exact Rec.
Qed.

(** A greedy unbounded repetition in front of a text that does not go on
    in the class takes the whole run, when the continuation accepts the
    rest. *)
Lemma rep_greedy_run (c : ascii -> bool) (k : str -> option (list str)) :
  forall x s' l min max acc,
    forallb c x = true -> min <= length x -> within max (length x) ->
    match s' with [] => True | b :: _ => c b = false end ->
    k s' = Some l ->
    rep_greedy c k min max acc (x ++ s') = Some ((rev acc ++ x) :: l).
Proof.
  induction x as [|a x IH]; intros s' l min max acc Hc Hmin Hmax Hs K;
    simpl in *.
  - assert (min = 0) by lia; subst min; rewrite app_nil_r.
    destruct s' as [|b s']; simpl.
    + rewrite K; destruct (room max); reflexivity.
    + rewrite Hs, K; destruct (room max); reflexivity.
  - apply andb_true_iff in Hc; destruct Hc as [Ca Hc].
    destruct (within_room _ _ Hmax) as [R Hmax'].
    rewrite R, Ca.
    rewrite (IH s' l (pred min) (option_map pred max) (a :: acc));
      auto; try lia.
    simpl; rewrite <- app_assoc; reflexivity.
Qed.

Lemma match_here_sound (r : regex) :
  forall s l,
    match_here r s = Some l ->
    matches r l /\ exists rest, s = concat l ++ rest.
Proof.
  induction r as [|p r IH]; intros s l H; simpl in H.
  - inversion H; subst l; split; [constructor | exists s; reflexivity].
  - assert (S : exists x s' l',
               s = x ++ s' /\ l = (rev [] ++ x) :: l'
               /\ match_here r s' = Some l' /\ forallb (cls p) x = true
               /\ rmin p <= length x /\ within (rmax p) (length x)).
    { destruct (greedy p);
        [apply rep_greedy_sound in H | apply rep_lazy_sound in H]; exact H. }
    destruct S as (x & s' & l' & -> & -> & K & Hc & Hmin & Hmax).
    destruct (IH _ _ K) as [M (rest & ->)].
    split.
    + constructor; [repeat split; assumption | exact M].
    + exists rest; simpl; rewrite <- app_assoc; reflexivity.
Qed.

Lemma match_here_complete (r : regex) :
  forall l rest, matches r l -> match_here r (concat l ++ rest) <> None.
Proof.
  induction r as [|p r IH]; intros l rest M; inversion M; subst; simpl.
  - discriminate.
  - match goal with H : accepts p _ |- _ => destruct H as (Hc & Hmin & Hmax) end.
    rewrite <- app_assoc.
    destruct (greedy p);
      [apply rep_greedy_complete | apply rep_lazy_complete]; auto.
Qed.

(** [search] returns the leftmost position at which the pattern matches. *)
Lemma search_from_Some (r : regex) :
  forall s pre p m,
    search_from r pre s = Some (p, m) ->
    exists skipped rest,
      s = skipped ++ rest /\ p = rev pre ++ skipped
      /\ match_here r rest = Some m
      /\ (forall a b, skipped = a ++ b -> b <> [] ->
                      match_here r (b ++ rest) = None).
Proof.
  induction s as [|x s IH]; intros pre p m H; simpl in H.
  - destruct (match_here r []) as [m'|] eqn:E; [|discriminate H].
    inversion H; subst; exists [], [].
    repeat (match goal with |- _ /\ _ => split end);
      rewrite ?app_nil_r; auto.
    intros a b E' Hb; destruct a, b; try discriminate E'; destruct Hb; auto.
  - destruct (match_here r (x :: s)) as [m'|] eqn:E.
    + inversion H; subst; exists [], (x :: s).
      repeat (match goal with |- _ /\ _ => split end);
      rewrite ?app_nil_r; auto.
      intros a b E' Hb; destruct a, b; try discriminate E'; destruct Hb; auto.
    + destruct (IH _ _ _ H) as (sk & rest & -> & -> & Hm & Hleft).
      exists (x :: sk), rest; simpl; rewrite <- app_assoc; simpl.
      repeat (match goal with |- _ /\ _ => split end);
      rewrite ?app_nil_r; auto.
      intros a b E' Hb; destruct a as [|y a]; simpl in E'.
      * subst b; exact E.
      * inversion E'; subst; apply (Hleft a b); auto.
Qed.

Lemma search_from_None (r : regex) :
  forall s pre,
    search_from r pre s = None ->
    forall a b, s = a ++ b -> match_here r b = None.
Proof.
  induction s as [|x s IH]; intros pre H a b E; simpl in H.
  - destruct a, b; try discriminate E.
    destruct (match_here r []); [discriminate H | reflexivity].
  - destruct (match_here r (x :: s)) eqn:M; [discriminate H|].
    destruct a as [|y a]; simpl in E.
    + subst b; exact M.
    + inversion E; subst; apply (IH _ H a b); reflexivity.
Qed.

(** ** DOIs in a text *)

Lemma isdigit_table (c : ascii) : isdigit c = contains_char c DIGITS.
Proof. destruct c as [[] [] [] [] [] [] [] []]; reflexivity. Qed.

Lemma doi_char_table (c : ascii) :
  doi_char c = contains_char c DOI_TOKEN_CHARS.
Proof. destruct c as [[] [] [] [] [] [] [] []]; reflexivity. Qed.

Lemma forallb_table (c : ascii -> bool) (table : str) (x : str) :
  (forall a, c a = contains_char a table) ->
  forallb c x = true <-> (forall a, In a x -> In a table).
Proof.
  intros T; rewrite forallb_forall; split; intros H a Ha.
  - apply contains_char_In; rewrite <- T; auto.
  - rewrite T; apply contains_char_In; auto.
Qed.

Lemma accepts_chr (a : ascii) (x : str) : accepts (chr a) x -> x = [a].
Proof.
  intros (Hc & Hmin & Hmax); simpl in *.
  specialize (Hmax 1 eq_refl).
  destruct x as [|b [|? ?]]; simpl in *; try lia.
  rewrite andb_true_r in Hc; apply Ascii.eqb_eq in Hc; subst; reflexivity.
Qed.

(** The texts [DOI_REGEX] matches are the texts of the shape. *)
Lemma matches_doi_shape (l : list str) :
  matches DOI_REGEX l -> doi_shape (concat l).
Proof.
  unfold matches, DOI_REGEX; intros M.
  repeat match goal with
         | H : Forall2 _ (_ :: _) _ |- _ => inversion H; clear H; subst
         | H : Forall2 _ [] _ |- _ => inversion H; clear H; subst
         | H : accepts (chr _) _ |- _ => apply accepts_chr in H; subst
         end.
  match goal with
  | D : accepts (between _ _ _) ?ds, T : accepts (plus _) ?tok |- _ =>
      destruct D as (Dc & Dmin & Dmax); destruct T as (Tc & Tmin & _);
      exists ds, tok
  end.
  simpl in Dc, Dmin, Dmax, Tc, Tmin.
  split; [simpl; rewrite app_nil_r; reflexivity|].
  split; [specialize (Dmax 9 eq_refl); lia|].
  split; [apply (forallb_table isdigit); [apply isdigit_table | exact Dc]|].
  split; [intros ->; simpl in Tmin; lia|].
  apply (forallb_table doi_char); [apply doi_char_table | exact Tc].
Qed.

(** The maximal run of a class at the head of a text. *)
Lemma run_split (c : ascii -> bool) (s : str) :
  exists x rest,
    s = x ++ rest /\ forallb c x = true
    /\ match rest with [] => True | b :: _ => c b = false end.
Proof.
  induction s as [|a s (x & rest & -> & Hx & Hr)].
  - exists [], []; auto.
  - destruct (c a) eqn:Ca.
    + exists (a :: x), rest; simpl; rewrite Ca; auto.
    + exists [], (a :: x ++ rest); auto.
Qed.

(** A literal character at the head of the text. *)
Lemma match_here_chr (a : ascii) (r : regex) (s : str) :
  match_here (chr a :: r) (a :: s)
  = option_map (cons [a]) (match_here r s).
Proof.
  change (match_here (chr a :: r) (a :: s))
    with (rep_greedy (Ascii.eqb a) (match_here r) 1 (Some 1) [] (a :: s)).
  destruct s; cbn [rep_greedy room pred option_map rev app];
    rewrite Ascii.eqb_refl; destruct (match_here r _); reflexivity.
Qed.

(** [DOI_REGEX] in front of a text in which the token does not go on. *)
Lemma match_doi_exact (ds tok rest : str) :
  forallb isdigit ds = true -> 4 <= length ds <= 9 ->
  forallb doi_char tok = true -> tok <> [] ->
  match rest with [] => True | b :: _ => doi_char b = false end ->
  match_here DOI_REGEX (lit "10." ++ ds ++ lit "/" ++ tok ++ rest)
  = Some [lit "1"; lit "0"; lit "."; ds; lit "/"; tok].
Proof.
  intros Hd Hlen Ht Hne Hr.
  assert (L1 : match_here [plus doi_char] (tok ++ rest) = Some [tok]).
  { apply (rep_greedy_run doi_char (fun _ => Some []) tok rest []); auto.
    - simpl; destruct tok; [destruct Hne; reflexivity | simpl; lia].
    - intros m E; discriminate E. }
  assert (L2 : match_here [chr "/"; plus doi_char]
                 (lit "/" ++ tok ++ rest) = Some [lit "/"; tok]).
  { change (lit "/" ++ tok ++ rest) with ("/"%char :: tok ++ rest).
    rewrite match_here_chr, L1; reflexivity. }
  unfold DOI_REGEX.
  change (lit "10." ++ ds ++ lit "/" ++ tok ++ rest)
    with ("1"%char :: "0"%char :: "."%char :: ds ++ lit "/" ++ tok ++ rest).
  rewrite !match_here_chr.
  change (match_here (between isdigit 4 9 :: [chr "/"; plus doi_char])
            (ds ++ lit "/" ++ tok ++ rest))
    with (rep_greedy isdigit (match_here [chr "/"; plus doi_char])
            4 (Some 9) [] (ds ++ lit "/" ++ tok ++ rest)).
  rewrite (rep_greedy_run isdigit _ ds (lit "/" ++ tok ++ rest)
             [lit "/"; tok]); auto.
  - lia.
  - intros m E; inversion E; lia.
  - reflexivity.
Qed.

(** A text of the shape, wherever it stands, is matched, by a match at
    least as long. *)
Lemma doi_shape_matched (r post : str) :
  doi_shape r ->
  exists m, match_here DOI_REGEX (r ++ post) = Some m
            /\ length r <= length (concat m).
Proof.
  intros (ds & tok & -> & Hlen & Hd & Hne & Ht).
  destruct (run_split doi_char post) as (x & rest & -> & Hx & Hr).
  exists [lit "1"; lit "0"; lit "."; ds; lit "/"; tok ++ x]; split.
  - replace ((lit "10." ++ ds ++ lit "/" ++ tok) ++ x ++ rest)
      with (lit "10." ++ ds ++ lit "/" ++ (tok ++ x) ++ rest)
      by (simpl; rewrite <- !app_assoc; reflexivity).
    apply match_doi_exact; auto.
    + apply (proj2 (forallb_table isdigit DIGITS ds isdigit_table)), Hd.
    + rewrite forallb_app, Hx, andb_true_r.
      apply (proj2 (forallb_table doi_char DOI_TOKEN_CHARS tok
                      doi_char_table)), Ht.
    + destruct tok; [destruct Hne; reflexivity | discriminate].
  - simpl; rewrite !length_app; simpl; rewrite !length_app; simpl; lia.
Qed.

Lemma app_eq_shorter {A : Type} (a b c d : list A) :
  a ++ b = c ++ d -> length c < length a ->
  exists e, e <> [] /\ a = c ++ e /\ d = e ++ b.
Proof.
  revert c; induction a as [|x a IH]; intros c E L; simpl in *; [lia|].
  destruct c as [|y c]; simpl in *.
  - exists (x :: a); repeat split; [discriminate | auto].
  - inversion E; subst.
    destruct (IH c H1) as (e & Hne & -> & ->); [lia|].
    exists e; auto.
Qed.

(** C7.  [find_doi_in_text] returns a text of the DOI shape that occurs in
    the input; no text of the shape starts further left, and none starting
    at the same place is longer.  It returns nothing exactly when no text
    of the shape occurs anywhere in the input.  On the specification's
    example it returns [10.1000/xyz123]. *)
Theorem find_doi_leftmost_longest :
  (forall text,
     match find_doi_in_text text with
     | Some r =>
         exists pre,
           occurs_at text pre r /\ doi_shape r
           /\ (forall pre' r',
                 occurs_at text pre' r' -> doi_shape r' ->
                 length pre <= length pre')
           /\ (forall r',
                 occurs_at text pre r' -> doi_shape r' ->
                 length r' <= length r)
     | None => forall pre r, occurs_at text pre r -> ~ doi_shape r
     end)
  /\ find_doi_in_text (lit "see https://doi.org/10.1000/xyz123 for details")
     = Some (lit "10.1000/xyz123").
Proof.
  split; [|reflexivity].
  intros text; unfold find_doi_in_text, search.
  destruct (search_from DOI_REGEX [] text) as [[p m]|] eqn:S.
  - apply search_from_Some in S.
    destruct S as (sk & rest & -> & _ & Hm & Hleft).
    destruct (match_here_sound _ _ _ Hm) as [M (rest' & Hrest)].
    exists sk.
    split; [exists rest'; rewrite Hrest; reflexivity|].
    split; [apply matches_doi_shape, M|].
    split.
    + intros pre' r' (post' & E) Sh.
      destruct (le_lt_dec (length sk) (length pre')) as [|L]; [assumption|].
      destruct (app_eq_shorter _ _ _ _ E L) as (b & Hb & -> & E').
      specialize (Hleft pre' b eq_refl Hb).
      destruct (doi_shape_matched r' post' Sh) as (m' & Hm' & _).
      rewrite <- E', Hm' in Hleft; discriminate Hleft.
    + intros r' (post' & E) Sh.
      apply app_inv_head in E.
      destruct (doi_shape_matched r' post' Sh) as (m' & Hm' & Hlen).
      rewrite <- E, Hm in Hm'; inversion Hm'; subst m'; exact Hlen.
  - intros pre r (post & E) Sh.
    pose proof (search_from_None _ _ _ S pre (r ++ post) E) as N.
    destruct (doi_shape_matched r post Sh) as (m' & Hm' & _).
    rewrite Hm' in N; discriminate N.
Qed.

(** The theorem at a text holding two DOIs: the first is returned whole. *)
Lemma find_doi_leftmost_longest_witness :
  exists pre,
    occurs_at (lit "a 10.1000/xyz123, 10.2000/b") pre (lit "10.1000/xyz123")
    /\ doi_shape (lit "10.1000/xyz123").
Proof.
  destruct (proj1 find_doi_leftmost_longest
              (lit "a 10.1000/xyz123, 10.2000/b"))
    as (pre & Hocc & Hshape & _).
  exists pre; split; assumption.
Defined.

(** ** Tags in an abstract *)

Lemma not_gt_In (s : str) : forallb not_gt s = true <-> ~ In ">"%char s.
Proof.
  rewrite forallb_forall; unfold not_gt; split.
  - intros H Hin; specialize (H _ Hin); discriminate H.
  - intros H x Hx; destruct (Ascii.eqb x ">"%char) eqn:E; [|reflexivity].
    apply Ascii.eqb_eq in E; subst; destruct (H Hx).
Qed.

Lemma sub_from_skip (r : regex) (repl x s : str) :
  sub_from r repl (length x) (x ++ s) = sub_from r repl 0 s.
Proof. induction x as [|a x IH]; simpl; [destruct s; reflexivity | exact IH]. Qed.

(** A tag at the head of the text: [<], a non-empty body without [>],
    then [>]. *)
Lemma match_tag_exact (body rest : str) :
  body <> [] -> ~ In ">"%char body ->
  match_here TAG_REGEX ("<"%char :: body ++ ">"%char :: rest)
  = Some [lit "<"; body; lit ">"].
Proof.
  intros Hne Hb; unfold TAG_REGEX.
  rewrite match_here_chr.
  change (match_here [plus not_gt; chr ">"] (body ++ ">"%char :: rest))
    with (rep_greedy not_gt (match_here [chr ">"]) 1 None []
            (body ++ ">"%char :: rest)).
  rewrite (rep_greedy_run not_gt _ body (">"%char :: rest) [lit ">"]).
  - reflexivity.
  - apply not_gt_In, Hb.
  - destruct body; [destruct Hne; reflexivity | simpl; lia].
  - intros m E; discriminate E.
  - reflexivity.
  - rewrite match_here_chr; reflexivity.
Qed.

Lemma match_here_chr_other (a b : ascii) (r : regex) (s : str) :
  Ascii.eqb a b = false -> match_here (chr a :: r) (b :: s) = None.
Proof.
  intros H.
  change (match_here (chr a :: r) (b :: s))
    with (rep_greedy (Ascii.eqb a) (match_here r) 1 (Some 1) [] (b :: s)).
  cbn [rep_greedy room]; rewrite H; reflexivity.
Qed.

(** Without a [>] ahead, the body of a tag finds no end. *)
Lemma tag_body_unclosed (s : str) :
  ~ In ">"%char s ->
  forall min acc,
    rep_greedy not_gt (match_here [chr ">"]) min None acc s = None.
Proof.
  induction s as [|a s IH]; intros Hs min acc; cbn [rep_greedy room].
  - destruct min; reflexivity.
  - assert (Ha : not_gt a = true).
    { apply not_gt_In in Hs; simpl in Hs.
      apply andb_true_iff in Hs; tauto. }
    rewrite Ha, IH by (intros H; apply Hs; right; exact H).
    destruct min; [|reflexivity].
    unfold not_gt in Ha; apply negb_true_iff in Ha.
    rewrite Ascii.eqb_sym in Ha.
    rewrite (match_here_chr_other _ _ _ _ Ha); reflexivity.
Qed.

(** [re.sub(r"<[^>]+>", " ", s)] equation by equation. *)
Lemma tag_sub_equations :
  re_sub TAG_REGEX (lit " ") [] = []
  /\ (forall body rest,
        body <> [] -> ~ In ">"%char body ->
        re_sub TAG_REGEX (lit " ") ("<"%char :: body ++ ">"%char :: rest)
        = lit " " ++ re_sub TAG_REGEX (lit " ") rest)
  /\ (forall x s,
        x <> "<"%char ->
        re_sub TAG_REGEX (lit " ") (x :: s)
        = x :: re_sub TAG_REGEX (lit " ") s)
  /\ (forall s,
        (match s with [] => True | b :: _ => b = ">"%char end
         \/ ~ In ">"%char s) ->
        re_sub TAG_REGEX (lit " ") ("<"%char :: s)
        = "<"%char :: re_sub TAG_REGEX (lit " ") s).
Proof.
  split; [reflexivity|].
  split; [|split].
  - intros body rest Hne Hb; unfold re_sub.
    cbn [sub_from].
    rewrite (match_tag_exact body rest Hne Hb).
    change (concat [lit "<"; body; lit ">"])
      with ("<"%char :: body ++ lit ">" ++ []).
    cbn [length].
    replace (body ++ ">"%char :: rest) with ((body ++ lit ">") ++ rest)
      by (rewrite <- app_assoc; reflexivity).
    replace (length (body ++ lit ">" ++ [])) with (length (body ++ lit ">"))
      by (rewrite app_nil_r; reflexivity).
    rewrite sub_from_skip; reflexivity.
  - intros x s Hx; unfold re_sub; cbn [sub_from].
    unfold TAG_REGEX; rewrite match_here_chr_other; [reflexivity|].
    apply Ascii.eqb_neq; intros E; apply Hx; auto.
  - intros s Hs; unfold re_sub; cbn [sub_from].
    replace (match_here TAG_REGEX ("<"%char :: s)) with (@None (list str));
      [reflexivity|].
    unfold TAG_REGEX; rewrite match_here_chr.
    change (match_here [plus not_gt; chr ">"] s)
      with (rep_greedy not_gt (match_here [chr ">"]) 1 None [] s).
    destruct Hs as [Hs|Hs].
    + destruct s as [|b s]; [reflexivity | subst b; reflexivity].
    + rewrite tag_body_unclosed by exact Hs; reflexivity.
Qed.

Lemma abstract_only_returns (v : variant) (t : str) :
  exists meta,
    crossref_to_meta v (JObj [(lit "abstract", JStr t)]) = Ok meta.
Proof.
  unfold crossref_to_meta, ebind; simpl.
  rewrite clean_str.
  destruct v; simpl; eexists; reflexivity.
Qed.

(** C4, as stated, fails: an abstract that begins with a tag other than a
    [<jats:] one keeps its tags, in both files. *)
Lemma html_abstract_keeps_tags :
  let msg := JObj [(lit "abstract", JStr (lit "<p>Hello</p>"))] in
  startswith (lit "<p>Hello</p>") (lit "<") = true
  /\ search TAG_REGEX (lit "<p>Hello</p>")
     = Some ([], [lit "<"; lit "p"; lit ">"])
  /\ (exists m, crossref_to_meta Baseline msg = Ok m
                /\ m_abstract m = Some (lit "<p>Hello</p>"))
  /\ (exists m, crossref_to_meta Fixed msg = Ok m
                /\ m_abstract m = Some (lit "<p>Hello</p>")).
Proof.
  repeat split; try (eexists; split; reflexivity).
Qed.

(** C4 (amended).  When a message normalises, its abstract is first
    trimmed; if the trimmed text begins with [<jats:], every tag (a [<], a
    non-empty run without [>], a [>]) is replaced by one space and the
    result trimmed; any other abstract, also one beginning with another
    tag, stays as trimmed; without an abstract the field is empty.  A
    message holding only an abstract always normalises. *)
Theorem abstract_tags_removed_behind_jats (v : variant) :
  (forall kv meta,
     crossref_to_meta v (JObj kv) = Ok meta ->
     match assoc (lit "abstract") kv with
     | Some (JStr t) =>
         m_abstract meta
         = Some (if startswith (strip t) (lit "<jats:")
                 then strip (re_sub TAG_REGEX (lit " ") (strip t))
                 else strip t)
     | Some other => truthy other = false /\ m_abstract meta = Some []
     | None => m_abstract meta = Some []
     end)
  /\ (forall t,
        exists meta,
          crossref_to_meta v (JObj [(lit "abstract", JStr t)]) = Ok meta).
Proof.
  split; [|apply abstract_only_returns].
  intros kv meta H.
  apply crossref_to_meta_inv in H.
  destruct H as (page & abstract & _ & Habs & _ & _ & Hm & _).
  unfold lookup in Habs.
  destruct (assoc (lit "abstract") kv) as [x|].
  - apply clean_Ok in Habs.
    destruct Habs as [[Hf ->] | (t & -> & ->)].
    + destruct x; simpl in Hf; try discriminate Hf; auto.
      destruct s; [exact Hm | discriminate Hf].
    + exact Hm.
  - simpl in Habs; inversion Habs; subst abstract; exact Hm.
Qed.

(** The theorem at a JATS abstract. *)
Lemma abstract_tags_removed_behind_jats_witness :
  exists meta,
    crossref_to_meta Baseline
      (JObj [(lit "abstract",
              JStr (lit " <jats:p>Hello <jats:i>w</jats:i></jats:p>"))])
    = Ok meta
    /\ m_abstract meta = Some (lit "Hello  w").
Proof.
  eexists; split; [reflexivity|].
  exact (proj1 (abstract_tags_removed_behind_jats Baseline)
           [(lit "abstract",
             JStr (lit " <jats:p>Hello <jats:i>w</jats:i></jats:p>"))]
           _ eq_refl).
Defined.

(** ** The title guess *)

Lemma guess_title_loop_first (lines : list str) :
  match guess_title_loop lines with
  | Some t =>
      exists before line after,
        lines = before ++ line :: after /\ t = strip line
        /\ qualifies t = true
        /\ (forall r, In r before -> qualifies (strip r) = false)
  | None => forall r, In r lines -> qualifies (strip r) = false
  end.
Proof.
  induction lines as [|line0 rest IH]; [simpl; tauto|].
  cbn [guess_title_loop]; cbv zeta.
  assert (Q : qualifies (strip line0)
              = ((4 <=? length (split_ws (strip line0)))
                 && negb (startswith_any (lower (strip line0))
                            TITLE_STOP_PREFIXES))
                && ((10 <=? length (strip line0))
                    && (length (strip line0) <=? 200))).
  { unfold qualifies; rewrite <- !andb_assoc; reflexivity. }
  destruct ((4 <=? length (split_ws (strip line0)))
            && negb (startswith_any (lower (strip line0))
                       TITLE_STOP_PREFIXES)) eqn:A;
    [destruct ((10 <=? length (strip line0))
               && (length (strip line0) <=? 200)) eqn:B|];
    simpl in Q; cbv iota.
  - exists [], line0, rest; conjs; auto.
    simpl; tauto.
  - destruct (guess_title_loop rest) as [t|].
    + destruct IH as (before & line & after & -> & -> & Hq & Hb).
      exists (line0 :: before), line, after; conjs; auto.
      intros r [<-|Hr]; auto.
    + intros r [<-|Hr]; auto.
  - destruct (guess_title_loop rest) as [t|].
    + destruct IH as (before & line & after & -> & -> & Hq & Hb).
      exists (line0 :: before), line, after; conjs; auto.
      intros r [<-|Hr]; auto.
    + intros r [<-|Hr]; auto.
Qed.

Lemma qualifies_spec (l : str) :
  qualifies l = true
  <-> 4 <= length (split_ws l)
      /\ (forall p, In p TITLE_STOP_PREFIXES -> startswith (lower l) p = false)
      /\ 10 <= length l <= 200.
Proof.
  unfold qualifies, startswith_any.
  rewrite !andb_true_iff, negb_true_iff, !Nat.leb_le.
  split.
  - intros [[[H4 Hp] H10] H200]; repeat split; auto.
    intros p Hin; destruct (startswith (lower l) p) eqn:E; [|reflexivity].
    assert (X : existsb (startswith (lower l)) TITLE_STOP_PREFIXES = true)
      by (apply existsb_exists; exists p; auto).
    rewrite X in Hp; discriminate Hp.
  - intros (H4 & Hp & H10 & H200); repeat split; auto.
    destruct (existsb (startswith (lower l)) TITLE_STOP_PREFIXES) eqn:E;
      [|reflexivity].
    apply existsb_exists in E; destruct E as (p & Hin & E).
    rewrite (Hp p Hin) in E; discriminate E.
Qed.

(** C6, as stated, fails.  A line with blanks around it is returned without
    them, so the value returned is not a line of the text; and the length
    is taken after trimming, so a line of 13 characters, 4 tokens and no
    stop prefix is passed over when only 7 characters remain. *)
Lemma guess_title_trims_lines :
  (let text := lit "  A Study of Something Interesting  " in
   splitlines text = [text]
   /\ guess_title_from_pdf_text text
      = Some (lit "A Study of Something Interesting")
   /\ ~ In (lit "A Study of Something Interesting") (splitlines text))
  /\ (let text := lit "A B C D      " in
      splitlines text = [text]
      /\ length (split_ws text) = 4
      /\ startswith_any (lower text) TITLE_STOP_PREFIXES = false
      /\ length text = 13
      /\ guess_title_from_pdf_text text = None).
Proof.
  repeat split.
  intros [H|[]]; discriminate H.
Qed.

(** C6 (amended).  [guessTitle] scans the lines in order, trims each of
    leading and trailing whitespace, and returns the first trimmed line
    that has at least 4 whitespace-separated tokens, does not start with
    one of the stop prefixes once put in lower case, and has between 10 and
    200 characters, all three measured on the trimmed line; it returns
    nothing if the trimmed form of no line qualifies.  On the example text
    of three lines it returns the second line exactly. *)
Theorem guess_title_first_trimmed_line :
  (forall text,
     match guess_title_from_pdf_text text with
     | Some t =>
         exists before line after,
           splitlines text = before ++ line :: after /\ t = strip line
           /\ qualifies t = true
           /\ (forall r, In r before -> qualifies (strip r) = false)
     | None => forall r, In r (splitlines text) -> qualifies (strip r) = false
     end)
  /\ (forall l,
        qualifies l = true
        <-> 4 <= length (split_ws l)
            /\ (forall p, In p [lit "arxiv:"; lit "doi:"; lit "issn:";
                                lit "copyright"] ->
                          startswith (lower l) p = false)
            /\ 10 <= length l <= 200)
  /\ splitlines three_lines
     = [lit "DOI: 10.1/2"; lit "A Study of Something Interesting"; lit "x"]
  /\ guess_title_from_pdf_text three_lines
     = Some (lit "A Study of Something Interesting").
Proof.
  split; [intros text; apply guess_title_loop_first|].
  split; [apply qualifies_spec|].
  split; reflexivity.
Qed.

(** The theorem at the example text: the line found is the second one. *)
Lemma guess_title_first_trimmed_line_witness :
  exists before line after,
    splitlines three_lines = before ++ line :: after
    /\ lit "A Study of Something Interesting" = strip line.
Proof.
  pose proof (proj1 guess_title_first_trimmed_line three_lines) as H.
  change (guess_title_from_pdf_text three_lines)
    with (Some (lit "A Study of Something Interesting")) in H.
  destruct H as (before & line & after & Hs & Ht & _).
  exists before, line, after; split; assumption.
Defined.

(** ** The year *)

Lemma first_year_loop_shaped (v : variant) (kv : list (str * json))
    (keys : list str) :
  forallb (fun key => date_shaped (assoc key kv)) keys = true ->
  first_year_loop v (JObj kv) keys
  = Ok (option_map str_of_Z (first_some (parsed_year (JObj kv)) keys)).
Proof.
  induction keys as [|key keys IH]; intros H; [reflexivity|].
  cbn [forallb] in H; apply andb_true_iff in H; destruct H as [Hk Hs].
  specialize (IH Hs).
  cbn [first_year_loop first_some].
  unfold parsed_year at 1, year_component, dict_get, ebind.
  unfold date_shaped in Hk.
  destruct (assoc key kv) as [d|]; [|exact IH].
  destruct d as [| | | | | |f]; try discriminate Hk.
  destruct (assoc (lit "date-parts") f) as [parts|]; [|exact IH].
  destruct parts as [| | | | |l|]; try discriminate Hk; [exact IH|].
  destruct l as [|p0 l]; [exact IH|].
  destruct p0 as [| | | | |ys|]; try discriminate Hk.
  destruct ys as [|y ys]; [exact IH|].
  cbn [truthy index0].
  destruct v; (destruct (py_int y) as [n|e]; [reflexivity | exact IH]).
Qed.

(** C5.  For a message whose date fields have the shape Crossref gives
    them, [crossref_first_year] goes through published-print, issued,
    created and published-online in this order and returns, written in
    decimal, the first year it finds: the first component of the first
    entry of the date parts, when that entry is not empty and [int] accepts
    the component; it returns nothing when no field has such a year.  The
    year of the normalised record is this value. *)
Theorem first_year_in_precedence_order (v : variant) (msg : json) :
  dates_shaped msg = true ->
  YEAR_KEYS = [lit "published-print"; lit "issued"; lit "created";
               lit "published-online"]
  /\ crossref_first_year v msg
     = Ok (option_map str_of_Z (first_some (parsed_year msg) YEAR_KEYS))
  /\ (forall meta,
        crossref_to_meta v msg = Ok meta ->
        m_year meta = spec_first_year msg).
Proof.
  intros H; split; [reflexivity|].
  destruct msg as [| | | | | |kv]; try discriminate H.
  assert (Y : crossref_first_year v (JObj kv) = Ok (spec_first_year (JObj kv)))
    by (apply first_year_loop_shaped; exact H).
  split; [exact Y|].
  intros meta Hm; apply crossref_to_meta_inv in Hm.
  destruct Hm as (page & abstract & _ & _ & _ & _ & _ & Hy).
  rewrite Y in Hy; inversion Hy; reflexivity.
Qed.

(** The theorem at a message whose issued date has no year: the year of
    the creation date, 2020, is taken. *)
Lemma first_year_in_precedence_order_witness :
  crossref_first_year Baseline created_2020 = Ok (Some (lit "2020"))
  /\ crossref_first_year Fixed created_2020 = Ok (Some (lit "2020")).
Proof.
  split.
  - exact (proj1 (proj2 (first_year_in_precedence_order Baseline
                           created_2020 eq_refl))).
  - exact (proj1 (proj2 (first_year_in_precedence_order Fixed
                           created_2020 eq_refl))).
Defined.

Example first_year_examples :
  (* a year given as text or as a float is read by [int] *)
  py_int (JStr (lit " 2019 ")) = Ok 2019%Z
  /\ py_int (JFloat (FFin 4041 (-1))) = Ok 2020%Z
  /\ str_of_Z 2020 = lit "2020"
  (* print before issued *)
  /\ spec_first_year
       (JObj [ (lit "issued",
                JObj [(lit "date-parts", JArr [JArr [JInt 2021]])]);
               (lit "published-print",
                JObj [(lit "date-parts", JArr [JArr [JInt 2022]])]) ])
     = Some (lit "2022")
  (* no date at all *)
  /\ spec_first_year (JObj []) = None.
Proof. repeat split. Qed.

(** ** The batch loops *)

Section Batch.

Variable v : variant.
Variable E : Env.

Lemma sends_as_init {A : Type} (m : M A) (r : Exc A) (reqs : list request) :
  sends_as m r reqs -> fst (m init) = r /\ sent (snd (m init)) = reqs.
Proof. intros H; rewrite (H init); split; reflexivity. Qed.

Lemma only_sends_ret {A : Type} (a : A) : only_sends (mret a).
Proof.
  exists (Ok a), []; intros [rs au se]; unfold mret; simpl.
  rewrite app_nil_r; reflexivity.
Qed.

Lemma only_sends_lift {A : Type} (x : Exc A) : only_sends (lift x).
Proof.
  exists x, []; intros [rs au se]; unfold lift; simpl.
  rewrite app_nil_r; reflexivity.
Qed.

Lemma sends_as_get (rq : request) :
  sends_as (get E rq) (requests_get E rq) [rq].
Proof. intros st; reflexivity. Qed.

Lemma only_sends_bind {A B : Type} (m : M A) (k : A -> M B) :
  only_sends m -> (forall a, only_sends (k a)) -> only_sends (mbind m k).
Proof.
  intros (r & reqs & Hm) Hk.
  destruct r as [a|e].
  - destruct (Hk a) as (r' & reqs' & Hka).
    exists r', (reqs ++ reqs'); intros st; unfold mbind.
    rewrite Hm, Hka; simpl; rewrite app_assoc; reflexivity.
  - exists (Raise e), reqs; intros st; unfold mbind.
    rewrite Hm; reflexivity.
Qed.

Lemma only_sends_raise_for_status (r : response) :
  only_sends (raise_for_status r).
Proof.
  unfold raise_for_status; destruct (resp_status_error r);
    [apply only_sends_lift | apply only_sends_ret].
Qed.

Ltac only_sends :=
  repeat first
    [ apply only_sends_ret
    | apply only_sends_lift
    | apply only_sends_raise_for_status
    | eexists; eexists; apply sends_as_get
    | apply only_sends_bind; [|intros ?] ].

Lemma only_sends_fetch (doi : str) :
  only_sends (fetch_crossref_by_doi v E doi).
Proof. unfold fetch_crossref_by_doi; only_sends. Qed.

Lemma only_sends_search (title : str) :
  only_sends (search_crossref_by_title v E title).
Proof.
  unfold search_crossref_by_title; destruct (strip title); only_sends.
  destruct (truthy _); only_sends.
Qed.

Lemma only_sends_via_doi (doi route : str) :
  only_sends (via_doi v E doi route).
Proof.
  unfold via_doi; apply only_sends_bind; [apply only_sends_fetch|].
  intros msg; only_sends.
Qed.

Lemma only_sends_via_title (title route : str) :
  only_sends (via_title v E title route).
Proof.
  unfold via_title; destruct title; [apply only_sends_ret|].
  apply only_sends_bind; [apply only_sends_search|].
  intros hit; destruct (truthy hit); only_sends.
Qed.

Lemma only_sends_pdf_strategies (f : UploadedFile) :
  only_sends (pdf_strategies v E f).
Proof.
  unfold pdf_strategies; apply only_sends_bind; [apply only_sends_lift|].
  intros text; destruct (find_doi_in_text text);
    [apply only_sends_via_doi | apply only_sends_via_title].
Qed.

Lemma only_sends_item_strategies (item : str) :
  only_sends (item_strategies v E item).
Proof.
  unfold item_strategies; destruct (search DOI_REGEX item).
  - apply only_sends_via_doi.
  - apply only_sends_bind; [eexists; eexists; apply sends_as_get|].
    intros resp; destruct (search DOI_REGEX (resp_text resp)) as [[? ?]|];
      [apply only_sends_via_doi | apply only_sends_via_title].
Qed.

(** One input: whatever its strategies do, exactly one entry is appended
    and nothing is raised. *)
Lemma guarded_effect (input error_route : str) (m : M outcome)
    (st : State) :
  only_sends m ->
  try_except (mbind m (record_outcome input)) (record_error input error_route)
    st
  = (Ok tt,
     mkState (results st ++ result_of (fst (m init)))
       (audit st ++ [entry_of input error_route (fst (m init))])
       (sent st ++ sent (snd (m init)))).
Proof.
  intros (r & reqs & H).
  destruct (sends_as_init _ _ _ H) as [-> ->].
  unfold try_except, mbind; rewrite H.
  destruct r as [[[meta|] route]|e]; simpl; rewrite ?app_nil_r; reflexivity.
Qed.

Lemma process_pdf_effect (f : UploadedFile) (st : State) :
  process_pdf v E f st
  = (Ok tt,
     mkState (results st ++ result_of (pdf_outcome v E f))
       (audit st ++ [pdf_entry v E f])
       (sent st ++ sent (snd (pdf_strategies v E f init)))).
Proof. apply guarded_effect, only_sends_pdf_strategies. Qed.

Lemma process_item_effect (item : str) (st : State) :
  process_item v E item st
  = (Ok tt,
     mkState (results st ++ result_of (item_outcome v E item))
       (audit st ++ [item_entry v E item])
       (sent st ++ item_requests v E item)).
Proof. apply guarded_effect, only_sends_item_strategies. Qed.

(** A loop whose body appends and never raises. *)
Lemma for_each_effect {A : Type} (body : A -> M unit)
    (rs : A -> list Meta) (en : A -> AuditEntry) (rq : A -> list request) :
  (forall x st,
     body x st
     = (Ok tt,
        mkState (results st ++ rs x) (audit st ++ [en x])
          (sent st ++ rq x))) ->
  forall l st,
    for_each l body st
    = (Ok tt,
       mkState (results st ++ flat_map rs l) (audit st ++ map en l)
         (sent st ++ flat_map rq l)).
Proof.
  intros Hb; induction l as [|x l IH]; intros [r a s]; simpl.
  - unfold mret; rewrite !app_nil_r; reflexivity.
  - unfold mbind; rewrite Hb, IH; simpl.
    rewrite <- !app_assoc; reflexivity.
Qed.

Lemma process_batch_effect (pdfs : list UploadedFile) (list_box : str)
    (st : State) :
  process_batch v E pdfs list_box st
  = (Ok tt,
     mkState
       (results st
        ++ flat_map (fun f => result_of (pdf_outcome v E f)) pdfs
        ++ flat_map (fun i => result_of (item_outcome v E i))
             (batch_items list_box))
       (audit st ++ map (pdf_entry v E) pdfs
        ++ map (item_entry v E) (batch_items list_box))
       (sent st
        ++ flat_map (fun f => sent (snd (pdf_strategies v E f init))) pdfs
        ++ flat_map (item_requests v E) (batch_items list_box))).
Proof.
  unfold process_batch, mbind.
  rewrite (for_each_effect _ _ _ _ process_pdf_effect).
  rewrite (for_each_effect _ _ _ _ process_item_effect); simpl.
  rewrite <- !app_assoc; reflexivity.
Qed.

End Batch.

Lemma skipn_app_exact {A : Type} (a b : list A) :
  skipn (length a) (a ++ b) = b.
Proof. induction a; simpl; auto. Qed.

Lemma batch_audit_entries (v : variant) (E : Env)
    (pdfs : list UploadedFile) (list_box : str) (st : State) :
  batch_audit v E pdfs list_box st
  = map (pdf_entry v E) pdfs
    ++ map (item_entry v E) (batch_items list_box).
Proof.
  unfold batch_audit; rewrite process_batch_effect; simpl.
  apply skipn_app_exact.
Qed.

(** The entries, as a function of the inputs and their outcomes. *)
Lemma batch_entries_combine (v : variant) (E : Env)
    (pdfs : list UploadedFile) (items : list str) :
  map (pdf_entry v E) pdfs ++ map (item_entry v E) items
  = map (fun io => entry_of (fst (fst io)) (snd (fst io)) (snd io))
      (combine (batch_inputs pdfs items) (batch_outcomes v E pdfs items)).
Proof.
  unfold batch_inputs, batch_outcomes.
  induction pdfs as [|f pdfs IH]; simpl.
  - induction items as [|i items IH]; simpl; [reflexivity|].
    rewrite IH; reflexivity.
  - rewrite IH; reflexivity.
Qed.

Lemma nth_error_map_combine {A B C : Type} (g : A * B -> C)
    (a : list A) (b b' : list B) (n : nat) :
  length b = length a -> length b' = length a ->
  nth_error b n = nth_error b' n ->
  nth_error (map g (combine a b)) n = nth_error (map g (combine a b')) n.
Proof.
  revert b b' n; induction a as [|x a IH]; intros b b' n Lb Lb' H.
  - reflexivity.
  - destruct b as [|y b]; [discriminate Lb|].
    destruct b' as [|y' b']; [discriminate Lb'|].
    destruct n as [|n]; simpl in *.
    + inversion H; reflexivity.
    + apply IH; auto.
Qed.

Lemma batch_outcomes_length (v : variant) (E : Env)
    (pdfs : list UploadedFile) (items : list str) :
  length (batch_outcomes v E pdfs items)
  = length (batch_inputs pdfs items).
Proof.
  unfold batch_outcomes, batch_inputs; rewrite !length_app, !length_map.
  reflexivity.
Qed.

(** C1.  A batch never raises and appends one audit entry per input, PDFs
    first, then the non-blank lines, in input order.  The entry of an input
    is a function of that input's own outcome: on an exception it has
    [success = false], the error route ([pdf_error] or [url_error]) and the
    exception's message.  Hence, in any two environments, an input whose
    outcome is the same has the same entry at the same position, whatever
    happens to the other inputs. *)
Theorem batch_isolates_each_input (v : variant) (E : Env)
    (pdfs : list UploadedFile) (list_box : str) (st : State) :
  let out := process_batch v E pdfs list_box st in
  let items := batch_items list_box in
  fst out = Ok tt
  /\ audit (snd out)
     = audit st ++ map (pdf_entry v E) pdfs ++ map (item_entry v E) items
  /\ length (batch_audit v E pdfs list_box st)
     = length pdfs + length items
  /\ (forall f,
        a_input (pdf_entry v E f) = name f
        /\ forall e,
             pdf_outcome v E f = Raise e ->
             pdf_entry v E f
             = mkAudit (name f) (lit "pdf_error") false None
                 (Some (exn_msg e)))
  /\ (forall item,
        a_input (item_entry v E item) = item
        /\ forall e,
             item_outcome v E item = Raise e ->
             item_entry v E item
             = mkAudit item (lit "url_error") false None (Some (exn_msg e)))
  /\ (forall E' st' n,
        nth_error (batch_outcomes v E pdfs items) n
        = nth_error (batch_outcomes v E' pdfs items) n ->
        nth_error (batch_audit v E pdfs list_box st) n
        = nth_error (batch_audit v E' pdfs list_box st') n).
Proof.
  intros out items; subst out items.
  rewrite process_batch_effect; simpl.
  split; [reflexivity|].
  split; [reflexivity|].
  split; [rewrite batch_audit_entries, length_app, !length_map; reflexivity|].
  split; [|split].
  - intros f; unfold pdf_entry; fold (pdf_outcome v E f); split.
    + destruct (pdf_outcome v E f) as [[[m|] r]|e]; reflexivity.
    + intros e ->; reflexivity.
  - intros item; unfold item_entry; fold (item_outcome v E item); split.
    + destruct (item_outcome v E item) as [[[m|] r]|e]; reflexivity.
    + intros e ->; reflexivity.
  - intros E' st' n H.
    rewrite !batch_audit_entries, !batch_entries_combine.
    apply nth_error_map_combine; auto using batch_outcomes_length.
Qed.

(** The theorem at three lines of which the second cannot be fetched:
    three entries, the second failed with the message, the others found. *)
Lemma batch_isolates_each_input_witness :
  let au := audit (snd (process_batch Baseline flaky_env [] three_dois init))
  in
  map a_input au = [lit "10.1000/one"; lit "10.1000/bad"; lit "10.1000/two"]
  /\ map a_success au = [true; false; true]
  /\ map a_route au = [lit "doi"; lit "url_error"; lit "doi"]
  /\ map a_error au = [None; Some (lit "connection refused"); None].
Proof.
  intros au; subst au.
  rewrite (proj1 (proj2 (batch_isolates_each_input Baseline flaky_env []
                           three_dois init))).
  repeat split; reflexivity.
Defined.

(** ** Lines holding a DOI *)

(** The direct-DOI strategy sends one request, for the text it is given,
    and either finds a record under its route or raises. *)
Lemma via_doi_run (v : variant) (E : Env) (doi route : str) (st : State) :
  exists r,
    via_doi v E doi route st
    = (r, mkState (results st) (audit st)
            (sent st ++ [fetch_request v doi]))
    /\ match r with
       | Ok o => exists meta, o = (Some meta, route)
       | Raise _ => True
       end.
Proof.
  unfold via_doi, fetch_crossref_by_doi, mbind, get, raise_for_status,
    lift, mret.
  repeat (cbv beta iota;
          match goal with
          | |- context [match ?x with _ => _ end] =>
              lazymatch type of x with
              | Exc _ => destruct x
              | option _ => destruct x
              end
          end);
    cbv beta iota; eexists; (split; [reflexivity|]);
    first [exact I | eexists; reflexivity].
Qed.

Lemma batch_items_In (list_box item : str) :
  In item (batch_items list_box)
  <-> exists line,
        In line (splitlines list_box) /\ item = strip line /\ item <> [].
Proof.
  unfold batch_items; rewrite filter_In, in_map_iff; split.
  - intros [(line & <- & Hl) Hne]; exists line; repeat split; auto.
    intros E; rewrite E in Hne; discriminate Hne.
  - intros (line & Hl & -> & Hne); split; [exists line; auto|].
    destruct (strip line); [destruct Hne; reflexivity | reflexivity].
Qed.

(** C9.  The items of a batch are its non-blank lines, trimmed.  For an
    item in which the DOI pattern matches somewhere, exactly one request is
    sent: the registry lookup of the whole item (the base address followed
    by the percent-encoded item), not of the matched part; the entry's
    route is [doi] when a record is found and [url_error] when the lookup
    or the normalisation raises.  For an item without a match the first
    request sent fetches the item as a page. *)
Theorem doi_line_is_fetched_whole (v : variant) (E : Env) :
  (forall list_box item,
     In item (batch_items list_box)
     <-> exists line,
           In line (splitlines list_box) /\ item = strip line /\ item <> [])
  /\ (forall item st,
        search DOI_REGEX item <> None ->
        sent (snd (process_item v E item st))
        = sent st
          ++ [Request (CROSSREF_API ++ quote item) [] (headers v) 20]
        /\ exists e,
             audit (snd (process_item v E item st)) = audit st ++ [e]
             /\ a_input e = item
             /\ ((a_success e = true /\ a_route e = lit "doi")
                 \/ (a_success e = false /\ a_route e = lit "url_error"
                     /\ a_error e <> None)))
  /\ (forall item st,
        search DOI_REGEX item = None ->
        exists more,
          sent (snd (process_item v E item st))
          = sent st ++ Request item [] (headers v) 20 :: more).
Proof.
  split; [apply batch_items_In|].
  split.
  - intros item st Hs.
    rewrite process_item_effect; simpl.
    unfold item_requests, item_entry, item_strategies.
    destruct (search DOI_REGEX item) as [p|]; [|destruct Hs; reflexivity].
    destruct (via_doi_run v E item (lit "doi") init) as (r & -> & Hr); simpl.
    split; [reflexivity|].
    eexists; split; [reflexivity|].
    destruct r as [o|e].
    + destruct Hr as (meta & ->); simpl; split; [reflexivity|].
      left; split; reflexivity.
    + simpl; split; [reflexivity|].
      right; repeat split; discriminate.
  - intros item st Hs.
    rewrite process_item_effect; simpl.
    unfold item_requests, item_strategies; rewrite Hs.
    unfold mbind at 1, get.
    destruct (requests_get E (page_request v item)) as [resp|e]; simpl.
    + match goal with
      | |- context [?m (mkState ?a ?b ?c)] =>
          destruct (m (mkState a b c)) as [r st'] eqn:Hm
      end.
      assert (Hsend : exists more, sent st' = page_request v item :: more).
      { destruct (search DOI_REGEX (resp_text resp)) as [[pre found]|].
        - destruct (via_doi_run v E (concat found) (lit "url_doi")
                      (mkState [] [] [page_request v item]))
            as (r' & Hv & _).
          simpl in Hv, Hm; rewrite Hv in Hm; inversion Hm; subst.
          eexists; reflexivity.
        - destruct (only_sends_via_title v E (page_title (resp_text resp))
                      (lit "url_title")) as (r' & reqs & Hv).
          rewrite Hv in Hm; inversion Hm; subst.
          eexists; reflexivity. }
      destruct Hsend as (more & Hmore); simpl; rewrite Hmore.
      exists more; reflexivity.
    + exists []; reflexivity.
Qed.

(** The theorem at a line that is a DOI link: the lookup is sent for the
    whole line, while the pattern matches only its end. *)
Lemma doi_line_is_fetched_whole_witness :
  find_doi_in_text (lit "https://doi.org/10.1000/xyz123")
  = Some (lit "10.1000/xyz123")
  /\ sent (snd (process_item Baseline flaky_env
                  (lit "https://doi.org/10.1000/xyz123") init))
     = [Request
          (lit "https://api.crossref.org/works/https%3A//doi.org/10.1000/xyz123")
          [] (headers Baseline) 20].
Proof.
  split; [reflexivity|].
  refine (proj1 (proj1 (proj2 (doi_line_is_fetched_whole Baseline flaky_env))
                   (lit "https://doi.org/10.1000/xyz123") init _)).
  vm_compute; discriminate.
Defined.

(** * Further properties *)

(** ** Trimming and escaping *)

Lemma lstrip_fixed (s : str) :
  match s with [] => True | c :: _ => isspace c = false end -> lstrip s = s.
Proof. destruct s as [|c s]; [reflexivity|]; simpl; intros ->; reflexivity. Qed.

(** A text with no whitespace at either end is trimmed. *)
Lemma trimmed_by_ends (s : str) :
  match s with [] => True | c :: _ => isspace c = false end ->
  match rev s with [] => True | c :: _ => isspace c = false end ->
  trimmed s.
Proof.
  intros Hh Hl; unfold trimmed, strip, rstrip.
  rewrite (lstrip_fixed _ Hh), (lstrip_fixed _ Hl); apply rev_involutive.
Qed.

Lemma trimmed_ends (s : str) :
  trimmed s ->
  match s with [] => True | c :: _ => isspace c = false end
  /\ match rev s with [] => True | c :: _ => isspace c = false end.
Proof.
  intros T; split.
  - destruct s as [|c s']; [exact I|].
    exact (strip_head _ _ _ T).
  - destruct (rev s) as [|c r] eqn:E; [exact I|].
    apply (strip_last s (rev r) c).
    rewrite T, <- (rev_involutive s), E; reflexivity.
Qed.

Lemma strip_trimmed (s : str) : trimmed (strip s).
Proof. apply strip_idem. Qed.

Lemma trimmed_nil : trimmed [].
Proof. reflexivity. Qed.

Lemma replace_char_absent (a b : ascii) (s : str) :
  ~ In a s -> replace_char a b s = s.
Proof.
  unfold replace_char; induction s as [|x s IH]; intros H; simpl;
    [reflexivity|].
  destruct (Ascii.eqb x a) eqn:E.
  - apply Ascii.eqb_eq in E; subst; destruct H; left; reflexivity.
  - rewrite IH; [reflexivity | intros Hin; apply H; right; exact Hin].
Qed.

Lemma replace_char_rev (a b : ascii) (s : str) :
  replace_char a b (rev s) = rev (replace_char a b s).
Proof. unfold replace_char; apply map_rev. Qed.

Lemma nonspace_kept (c : ascii) :
  isspace c = false ->
  (if Ascii.eqb c "010"%char then " "%char else c) = c.
Proof.
  intros H; destruct (Ascii.eqb c "010"%char) eqn:E; [|reflexivity].
  apply Ascii.eqb_eq in E; subst; discriminate H.
Qed.

(** X1 (escaping).  [ris_escape] is idempotent; on a trimmed text it only
    replaces newlines by spaces, character for character, so the length is
    kept; on a trimmed text without a newline it changes nothing. *)
Theorem ris_escape_idempotent_and_local (x : str) :
  ris_escape (ris_escape x) = ris_escape x
  /\ (trimmed x ->
      ris_escape x = replace_char "010"%char " "%char x
      /\ length (ris_escape x) = length x
      /\ (~ In "010"%char x -> ris_escape x = x)).
Proof.
  split.
  - unfold ris_escape at 1.
    rewrite (replace_char_absent _ _ _ (ris_escape_no_newline x)).
    apply ris_escape_trimmed.
  - intros T.
    assert (R : ris_escape x = replace_char "010"%char " "%char x).
    { unfold ris_escape; apply trimmed_by_ends.
      - destruct (trimmed_ends _ T) as [Hh _].
        destruct x as [|c x]; [exact I|]; simpl.
        rewrite (nonspace_kept _ Hh); exact Hh.
      - destruct (trimmed_ends _ T) as [_ Hl].
        rewrite <- replace_char_rev.
        destruct (rev x) as [|c r]; [exact I|]; simpl.
        rewrite (nonspace_kept _ Hl); exact Hl. }
    split; [exact R|].
    split; [rewrite R; apply replace_char_length|].
    intros Hn; rewrite R; apply replace_char_absent, Hn.
Qed.

Lemma ris_escape_idempotent_and_local_witness :
  ris_escape (lit "Deep" ++ NL ++ lit "Learning")
  = lit "Deep Learning"
  /\ length (ris_escape (lit "Deep" ++ NL ++ lit "Learning")) = 13.
Proof.
  destruct (proj2 (ris_escape_idempotent_and_local
                     (lit "Deep" ++ NL ++ lit "Learning")) eq_refl)
    as (R & L & _).
  split; [rewrite R; reflexivity | rewrite L; reflexivity].
Defined.

(** ** The export document *)

Lemma join_cons (sep x : str) (l : list str) :
  l <> [] -> join sep (x :: l) = x ++ sep ++ join sep l.
Proof. destruct l; [intros H; destruct H; reflexivity | reflexivity]. Qed.

(** The document is the records' blocks, each closed by a newline. *)
Lemma meta_to_ris_concat (l : list Meta) :
  meta_to_ris l
  = concat (map (fun m => join NL (to_ris_lines m) ++ NL) l).
Proof.
  unfold meta_to_ris; induction l as [|m l IH]; [reflexivity|].
  destruct l as [|m' l].
  - simpl; rewrite app_nil_r; reflexivity.
  - cbn [map concat]; cbn [map concat] in IH; rewrite <- IH.
    cbn [map]; rewrite join_cons by discriminate.
    rewrite <- !app_assoc; reflexivity.
Qed.

(** X2 (export).  [meta_to_ris] of no record is the empty text; the
    document of two lists put together is the two documents put together;
    the document of one record starts with its type line and ends with the
    end marker and exactly the one trailing newline the function adds. *)
Theorem meta_to_ris_is_blockwise :
  meta_to_ris [] = []
  /\ (forall l1 l2,
        meta_to_ris (l1 ++ l2) = meta_to_ris l1 ++ meta_to_ris l2)
  /\ (forall m,
        exists body,
          meta_to_ris [m]
          = lit "TY  - " ++ type_or_GEN m ++ body ++ lit "ER  - " ++ NL)
  /\ (forall l, l <> [] -> exists body, meta_to_ris l = body ++ lit "ER  - " ++ NL).
Proof.
  split; [reflexivity|].
  assert (One : forall m,
             exists body,
               join NL (to_ris_lines m) ++ NL
               = lit "TY  - " ++ type_or_GEN m ++ body ++ lit "ER  - " ++ NL).
  { intros m; rewrite to_ris_lines_entries.
    generalize (map render (entries m)); intros mid.
    rewrite join_cons by (destruct mid; discriminate).
    assert (J : exists b, join NL (mid ++ [tag_line (lit "ER") []])
                          = b ++ lit "ER  - ").
    { induction mid as [|x mid (b & Hb)].
      - exists []; reflexivity.
      - exists (x ++ NL ++ b); cbn [app].
        rewrite join_cons by (destruct mid; discriminate).
        rewrite Hb, <- !app_assoc; reflexivity. }
    destruct J as (b & ->).
    exists (NL ++ b); unfold tag_line; rewrite <- !app_assoc; reflexivity. }
  split; [|split].
  - intros l1 l2; rewrite !meta_to_ris_concat, map_app, concat_app.
    reflexivity.
  - intros m; rewrite meta_to_ris_concat; cbn [map concat].
    rewrite app_nil_r; apply One.
  - intros l Hl; rewrite meta_to_ris_concat.
    destruct (exists_last Hl) as (l' & m & ->).
    rewrite map_app, concat_app; cbn [map concat]; rewrite app_nil_r.
    destruct (One m) as (body & ->).
    eexists (concat _ ++ lit "TY  - " ++ type_or_GEN m ++ body).
    rewrite <- !app_assoc; reflexivity.
Qed.

(** ** The normalised record *)

Lemma dict_get_lookup (kv : list (str * json)) (k : string) :
  dict_get (JObj kv) (lit k) JNull = Ok (lookup kv k).
Proof. reflexivity. Qed.

(** Everything a successful normalisation computed. *)
Lemma crossref_to_meta_fields (v : variant) (kv : list (str * json))
    (meta : Meta) :
  crossref_to_meta v (JObj kv) = Ok meta ->
  exists ctype author_list authors page abstract keywords title year
         journal volume issue doi url publisher,
    as_str (lit "lower") (py_or (lookup kv "type") (JStr [])) = Ok ctype
    /\ py_iter (py_or (lookup kv "author") (JArr [])) = Ok author_list
    /\ emap normalize_author author_list = Ok authors
    /\ clean (lookup kv "page") = Ok page
    /\ clean (lookup kv "abstract") = Ok abstract
    /\ subject_keywords v (py_or (lookup kv "subject") (JArr []))
       = Ok keywords
    /\ clean (first_variant (lookup kv "title")) = Ok title
    /\ crossref_first_year v (JObj kv) = Ok year
    /\ clean (first_variant (lookup kv "container-title")) = Ok journal
    /\ clean (lookup kv "volume") = Ok volume
    /\ clean (lookup kv "issue") = Ok issue
    /\ clean (lookup kv "DOI") = Ok doi
    /\ clean (lookup kv "URL") = Ok url
    /\ clean (lookup kv "publisher") = Ok publisher
    /\ meta
       = mkMeta
           (Some match assoc (lower ctype) TYPE_MAP with
                 | Some x => x
                 | None => lit "GEN"
                 end)
           (Some title) authors year (Some journal) (Some volume)
           (Some issue) (Some (fst (split_page page)))
           (Some (snd (split_page page))) (Some doi) (Some url)
           (Some publisher) (Some (strip_jats abstract)) keywords.
Proof.
  unfold crossref_to_meta; rewrite !dict_get_lookup.
  unfold ebind; cbv beta iota; intros H.
  invert_binds H.
  injection H as Hm; subst meta.
  do 14 eexists; conjs; [first [reflexivity | eassumption] .. | ].
  match goal with E : split_page _ = _ |- _ => rewrite E end; reflexivity.
Qed.

Lemma type_map_codes (k : str) :
  In match assoc k TYPE_MAP with Some x => x | None => lit "GEN" end
    TYPE_CODES.
Proof.
  unfold TYPE_MAP; cbn [assoc].
  repeat match goal with
         | |- context [if ?b then _ else _] => destruct b
         end; simpl; tauto.
Qed.

(** X3 (type).  The type of a normalised record is one of the nine codes,
    and so is what the first line of its serialisation carries; a message
    without a type, or with one [TYPE_MAP] does not list whatever its
    letter case, gets [GEN]. *)
Theorem normalised_type_is_a_code (v : variant) (kv : list (str * json))
    (meta : Meta) :
  crossref_to_meta v (JObj kv) = Ok meta ->
  (exists ty,
     m_type meta = Some ty /\ In ty TYPE_CODES
     /\ hd_error (to_ris_lines meta) = Some (lit "TY  - " ++ ty))
  /\ (truthy (lookup kv "type") = false -> m_type meta = Some (lit "GEN"))
  /\ (forall t,
        lookup kv "type" = JStr t ->
        m_type meta
        = Some match assoc (lower t) TYPE_MAP with
               | Some code => code
               | None => lit "GEN"
               end).
Proof.
  intros H; apply crossref_to_meta_fields in H.
  destruct H as (ctype & al & au & pg & ab & kw & ti & yr & jo & vo & iss
                 & doi & url & pub & Ht & _ & _ & _ & _ & _ & _ & _ & _ & _
                 & _ & _ & _ & _ & ->).
  cbn [m_type]; split; [|split].
  - eexists; split; [reflexivity|]; split; [apply type_map_codes|].
    pose proof (type_map_codes (lower ctype)) as Hin.
    unfold to_ris_lines; cbn [m_type hd_error app].
    destruct (match assoc (lower ctype) TYPE_MAP with
              | Some x => x
              | None => lit "GEN"
              end) as [|c s]; [|reflexivity].
    exfalso; simpl in Hin;
      repeat (destruct Hin as [Hin|Hin]; [discriminate Hin|]);
      exact Hin.
  - intros Hf; unfold py_or in Ht; rewrite Hf in Ht.
    inversion Ht; reflexivity.
  - intros t Et; rewrite Et in Ht.
    destruct t as [|c t]; inversion Ht; reflexivity.
Qed.

Lemma normalised_type_is_a_code_witness :
  exists meta,
    crossref_to_meta Fixed (JObj [(lit "type", JStr (lit "Journal-Article"))])
    = Ok meta
    /\ m_type meta = Some (lit "JOUR").
Proof.
  eexists; split; [reflexivity|].
  exact (proj2 (proj2 (normalised_type_is_a_code Fixed
                         [(lit "type", JStr (lit "Journal-Article"))]
                         _ eq_refl))
           (lit "Journal-Article") eq_refl).
Defined.

Lemma clean_trimmed (x : json) (s : str) : clean x = Ok s -> trimmed s.
Proof.
  intros H; apply clean_Ok in H.
  destruct H as [[_ ->] | (p & _ & ->)];
    [apply trimmed_nil | apply strip_trimmed].
Qed.

Lemma split_page_trimmed (page : str) :
  trimmed (fst (split_page page)) /\ trimmed (snd (split_page page)).
Proof.
  unfold split_page; destruct page as [|c p]; [split; apply trimmed_nil|].
  destruct (contains_char "-"%char (c :: p)).
  - destruct (split_once "-"%char (c :: p)) as [a b]; split;
      apply strip_trimmed.
  - split; [apply strip_trimmed | apply trimmed_nil].
Qed.

Lemma strip_jats_trimmed (a : str) : trimmed a -> trimmed (strip_jats a).
Proof.
  intros T; unfold strip_jats.
  destruct (startswith a (lit "<jats:")); [apply strip_trimmed | exact T].
Qed.

Lemma strings_stripped_trimmed (l : list json) :
  Forall trimmed (strings_stripped l).
Proof.
  unfold strings_stripped; induction l as [|x l IH]; simpl; [constructor|].
  destruct x; simpl; try exact IH.
  constructor; [apply strip_trimmed | exact IH].
Qed.

Lemma emap_Forall {A B : Type} (f : A -> Exc B) (P : B -> Prop) :
  (forall a b, f a = Ok b -> P b) ->
  forall l l', emap f l = Ok l' -> Forall P l'.
Proof.
  intros Hf; induction l as [|a l IH]; intros l' H; simpl in H.
  - inversion H; constructor.
  - destruct (f a) as [b|] eqn:Fa; [|discriminate H].
    destruct (emap f l) as [bs|]; [|discriminate H].
    inversion H; subst; constructor; [exact (Hf _ _ Fa) | apply IH; reflexivity].
Qed.

Lemma emap_length {A B : Type} (f : A -> Exc B) :
  forall l l', emap f l = Ok l' -> length l' = length l.
Proof.
  induction l as [|a l IH]; intros l' H; simpl in H.
  - inversion H; reflexivity.
  - destruct (f a); [|discriminate H].
    destruct (emap f l) as [bs|]; [|discriminate H].
    inversion H; subst; simpl; rewrite (IH bs); reflexivity.
Qed.

(** What [normalize_author] returns, from the two cleaned name parts. *)
Lemma normalize_author_Ok (a : json) (s : str) :
  normalize_author a = Ok s ->
  exists kv family given,
    a = JObj kv
    /\ clean (lookup kv "given") = Ok given
    /\ clean (lookup kv "family") = Ok family
    /\ s = match family, given with
           | _ :: _, _ :: _ => family ++ lit ", " ++ given
           | _ :: _, [] => family
           | [], _ => given
           end.
Proof.
  destruct a as [| | | | | |kv];
    try (unfold normalize_author, dict_get, ebind; discriminate).
  unfold normalize_author; rewrite !dict_get_lookup.
  unfold ebind; cbv beta iota; intros H.
  destruct (clean (lookup kv "given")) as [given|] eqn:Eg;
    [|discriminate H].
  destruct (clean (lookup kv "family")) as [family|] eqn:Ef;
    [|discriminate H].
  injection H as <-; exists kv, family, given; conjs;
    first [reflexivity | assumption].
Qed.

Lemma rev_head_app (a b : str) (c : ascii) (r : str) :
  rev b = c :: r -> exists r', rev (a ++ b) = c :: r'.
Proof. intros H; rewrite rev_app_distr, H; eexists; reflexivity. Qed.

(** X4 (authors).  An author that normalises is an object; the result is
    trimmed; with both name parts it is the family name, a comma and a
    space, and the given name; with one part it is that part; it is empty
    exactly when both parts are blank or missing.  Anything that is not an
    object raises the [AttributeError] of its missing [get]. *)
Theorem normalize_author_family_comma_given :
  (forall a s,
     normalize_author a = Ok s ->
     trimmed s
     /\ exists kv family given,
          a = JObj kv
          /\ clean (lookup kv "family") = Ok family
          /\ clean (lookup kv "given") = Ok given
          /\ (family <> [] -> given <> [] ->
              s = family ++ lit ", " ++ given)
          /\ (given = [] -> s = family)
          /\ (family = [] -> s = given)
          /\ (s = [] <-> family = [] /\ given = []))
  /\ (forall a,
        (forall kv, a <> JObj kv) ->
        normalize_author a
        = Raise (AttributeError (type_name a) (lit "get"))).
Proof.
  split.
  - intros a s H.
    destruct (normalize_author_Ok _ _ H)
      as (kv & family & given & -> & Hg & Hf & ->).
    pose proof (clean_trimmed _ _ Hg) as Tg.
    pose proof (clean_trimmed _ _ Hf) as Tf.
    split.
    + destruct family as [|c f]; [exact Tg|].
      destruct given as [|d g]; [exact Tf|].
      apply trimmed_by_ends.
      * exact (proj1 (trimmed_ends _ Tf)).
      * pose proof (proj2 (trimmed_ends _ Tg)) as Hl.
        destruct (rev (d :: g)) as [|x r] eqn:R.
        { apply (f_equal (@length ascii)) in R.
          rewrite length_rev in R; discriminate R. }
        destruct (rev_head_app ((c :: f) ++ lit ", ") (d :: g) x r R)
          as (r' & R').
        rewrite <- app_assoc in R'; rewrite R'; exact Hl.
    + exists kv, family, given; conjs; auto.
      * intros Hfn Hgn; destruct family; [destruct Hfn; reflexivity|].
        destruct given; [destruct Hgn; reflexivity | reflexivity].
      * intros ->; destruct family; reflexivity.
      * intros ->; reflexivity.
      * destruct family as [|c f]; [tauto|].
        destruct given as [|d g]; split;
          first [discriminate | intros [X _]; discriminate X].
  - intros a Ha; destruct a; try reflexivity.
    destruct (Ha kv); reflexivity.
Qed.

Lemma normalize_author_family_comma_given_witness :
  normalize_author
    (JObj [(lit "given", JStr (lit " Ada "));
           (lit "family", JStr (lit "Lovelace"))])
  = Ok (lit "Lovelace, Ada")
  /\ trimmed (lit "Lovelace, Ada").
Proof.
  split; [reflexivity|].
  exact (proj1 (proj1 normalize_author_family_comma_given
                  (JObj [(lit "given", JStr (lit " Ada "));
                         (lit "family", JStr (lit "Lovelace"))])
                  (lit "Lovelace, Ada") eq_refl)).
Defined.

(** X5 (trimmed).  In a normalised record every cleaned text field is
    present and trimmed, and so is every author and every keyword: no
    value starts or ends with whitespace. *)
Theorem normalised_fields_are_trimmed (v : variant)
    (kv : list (str * json)) (meta : Meta) :
  crossref_to_meta v (JObj kv) = Ok meta ->
  (forall get, In get CLEANED_FIELDS ->
               exists s, get meta = Some s /\ trimmed s)
  /\ Forall trimmed (m_authors meta)
  /\ Forall trimmed (m_keywords meta).
Proof.
  intros H; apply crossref_to_meta_fields in H.
  destruct H as (ctype & al & au & pg & ab & kw & ti & yr & jo & vo & iss
                 & doi & url & pub & _ & _ & Hau & _ & Hab & Hkw & Hti & _
                 & Hjo & Hvo & His & Hdoi & Hurl & Hpub & ->).
  split; [|split].
  - intros get Hin; unfold CLEANED_FIELDS in Hin; split_In Hin; subst get;
      cbn; eexists; (split; [reflexivity|]);
      first [ eapply clean_trimmed; eassumption
            | apply (proj1 (split_page_trimmed pg))
            | apply (proj2 (split_page_trimmed pg))
            | apply strip_jats_trimmed; eapply clean_trimmed; eassumption ].
  - cbn; apply (emap_Forall normalize_author trimmed) with (l := al);
      [|exact Hau].
    intros a b Hn;
      exact (proj1 (proj1 normalize_author_family_comma_given a b Hn)).
  - cbn; unfold subject_keywords, ebind in Hkw.
    destruct v.
    + destruct (py_or (lookup kv "subject") (JArr [])); inversion Hkw;
        first [apply strings_stripped_trimmed | constructor].
    + destruct (py_iter _); inversion Hkw; apply strings_stripped_trimmed.
Qed.

Lemma normalised_fields_are_trimmed_witness :
  exists meta,
    crossref_to_meta Baseline
      (JObj [(lit "title", JArr [JStr (lit "  On Proofs ")])])
    = Ok meta
    /\ exists s, m_title meta = Some s /\ trimmed s.
Proof.
  eexists; split; [reflexivity|].
  apply (proj1 (normalised_fields_are_trimmed Baseline
                  [(lit "title", JArr [JStr (lit "  On Proofs ")])]
                  _ eq_refl) m_title).
  simpl; tauto.
Defined.

(** ** When normalisation returns *)

Lemma clean_shaped (x : json) :
  str_or_falsy x = true -> exists s, clean x = Ok s.
Proof.
  destruct x; simpl; intros H; try (apply negb_true_iff in H);
    try (eexists; apply clean_falsy; exact H);
    try (eexists; apply clean_str).
  eexists; reflexivity.
Qed.

Lemma as_str_shaped (method : str) (x : json) :
  str_or_falsy x = true ->
  exists s, as_str method (py_or x (JStr [])) = Ok s.
Proof.
  unfold py_or; destruct x; simpl; intros H;
    try (apply negb_true_iff in H; rewrite H);
    try (eexists; reflexivity).
  - destruct s; eexists; reflexivity.
Qed.

Lemma authors_shaped (l : list json) :
  forallb author_shaped l = true ->
  exists authors, emap normalize_author l = Ok authors.
Proof.
  induction l as [|a l IH]; intros H; [eexists; reflexivity|].
  cbn [forallb] in H; apply andb_true_iff in H; destruct H as [Ha Hl].
  destruct (IH Hl) as (authors & Hau).
  destruct a as [| | | | | |kv]; try discriminate Ha.
  cbn [author_shaped] in Ha; apply andb_true_iff in Ha.
  destruct Ha as [Hg Hf].
  destruct (clean_shaped _ Hg) as (g & Eg).
  destruct (clean_shaped _ Hf) as (f & Ef).
  cbn [emap]; unfold normalize_author at 1.
  rewrite !dict_get_lookup; unfold ebind; rewrite Eg, Ef, Hau.
  eexists; reflexivity.
Qed.

(** X6 (totality).  A message of the shape Crossref sends normalises, in
    both files; a message that is not an object raises the
    [AttributeError] of its missing [get]. *)
Theorem shaped_message_normalises (v : variant) (msg : json) :
  (crossref_shaped msg = true ->
   exists meta, crossref_to_meta v msg = Ok meta)
  /\ ((forall kv, msg <> JObj kv) ->
      crossref_to_meta v msg
      = Raise (AttributeError (type_name msg) (lit "get"))).
Proof.
  split.
  - destruct msg as [| | | | | |kv]; try discriminate.
    unfold crossref_shaped; rewrite !andb_true_iff.
    intros ((((((((((((Hty & Hti) & Hjo) & Hau) & Hpg) & Hab) & Hsu) & Hvo)
                  & His) & Hdoi) & Hurl) & Hpub) & Hdt).
    destruct (as_str_shaped (lit "lower") _ Hty) as (ctype & Ety).
    destruct (clean_shaped _ Hti) as (ti & Eti).
    destruct (clean_shaped _ Hjo) as (jo & Ejo).
    destruct (clean_shaped _ Hpg) as (pg & Epg).
    destruct (clean_shaped _ Hab) as (ab & Eab).
    destruct (clean_shaped _ Hvo) as (vo & Evo).
    destruct (clean_shaped _ His) as (iss & Eis).
    destruct (clean_shaped _ Hdoi) as (doi & Edoi).
    destruct (clean_shaped _ Hurl) as (url & Eurl).
    destruct (clean_shaped _ Hpub) as (pub & Epub).
    destruct (py_or (lookup kv "author") (JArr [])) as [| | | | |al|] eqn:Eau;
      try discriminate Hau.
    destruct (authors_shaped _ Hau) as (authors & Eauthors).
    destruct (py_or (lookup kv "subject") (JArr [])) as [| | | | |sl|] eqn:Esu;
      try discriminate Hsu.
    assert (Ekw : subject_keywords v (JArr sl) = Ok (strings_stripped sl))
      by (destruct v; reflexivity).
    pose proof (first_year_loop_shaped v kv YEAR_KEYS Hdt) as Eyr.
    fold (crossref_first_year v (JObj kv)) in Eyr.
    unfold crossref_to_meta; rewrite !dict_get_lookup.
    unfold ebind.
    rewrite Ety, Eau; cbn [py_iter]; rewrite Eauthors, Epg.
    destruct (split_page pg) as [sp ep].
    rewrite Eab, Esu, Ekw, Eti, Eyr, Ejo, Evo, Eis, Edoi, Eurl, Epub.
    eexists; reflexivity.
  - intros Hn; destruct msg; try reflexivity.
    destruct (Hn kv); reflexivity.
Qed.

Lemma shaped_message_normalises_witness :
  exists meta, crossref_to_meta Baseline created_2020 = Ok meta.
Proof.
  exact (proj1 (shaped_message_normalises Baseline created_2020) eq_refl).
Defined.

(** ** The two year lookups *)

Lemma first_year_loop_refines (msg : json) (keys : list str)
    (y : option str) :
  first_year_loop Baseline msg keys = Ok y ->
  first_year_loop Fixed msg keys = Ok y.
Proof.
  induction keys as [|key keys IH]; [exact (fun H => H)|].
  cbn [first_year_loop]; unfold ebind.
  destruct (dict_get msg key (JObj [])) as [d|]; [|discriminate].
  destruct (dict_get d (lit "date-parts") (JArr [])) as [parts|];
    [|discriminate].
  destruct (truthy parts); [|exact IH].
  destruct (index0 parts) as [p0|]; [|discriminate].
  destruct (truthy p0); [|exact IH].
  destruct (index0 p0) as [y0|]; [|discriminate].
  destruct (py_int y0); [exact (fun H => H) | exact IH].
Qed.

(** X7 (year, two files).  Whenever the year lookup of the baseline file
    returns, the lookup of the other file returns the same; the converse
    fails: where the first entry of the date parts is a number, the
    baseline file raises and the other file goes on to the next field. *)
Theorem fixed_year_lookup_refines_baseline :
  (forall msg y,
     crossref_first_year Baseline msg = Ok y ->
     crossref_first_year Fixed msg = Ok y)
  /\ (let msg :=
        JObj [ (lit "issued", JObj [(lit "date-parts", JArr [JInt 2020])]);
               (lit "created",
                JObj [(lit "date-parts", JArr [JArr [JInt 2019]])]) ] in
      crossref_first_year Baseline msg
      = Raise (TypeError (lit "'int' object is not subscriptable"))
      /\ crossref_first_year Fixed msg = Ok (Some (lit "2019"))).
Proof.
  split; [intros msg y; apply first_year_loop_refines|].
  split; reflexivity.
Qed.

Lemma fixed_year_lookup_refines_baseline_witness :
  crossref_first_year Fixed created_2020 = Ok (Some (lit "2020")).
Proof.
  exact (proj1 fixed_year_lookup_refines_baseline created_2020
           (Some (lit "2020")) eq_refl).
Defined.

(** ** The year as text *)














(** ** The two normalisations *)

(** Normalisation rebuilt from its parts. *)
Lemma crossref_to_meta_intro (v : variant) (kv : list (str * json))
    (ctype : str) (author_list : list json) (authors : list str)
    (page abstract : str) (keywords : list str) (title : str)
    (year : option str) (journal volume issue doi url publisher : str) :
  as_str (lit "lower") (py_or (lookup kv "type") (JStr [])) = Ok ctype ->
  py_iter (py_or (lookup kv "author") (JArr [])) = Ok author_list ->
  emap normalize_author author_list = Ok authors ->
  clean (lookup kv "page") = Ok page ->
  clean (lookup kv "abstract") = Ok abstract ->
  subject_keywords v (py_or (lookup kv "subject") (JArr [])) = Ok keywords ->
  clean (first_variant (lookup kv "title")) = Ok title ->
  crossref_first_year v (JObj kv) = Ok year ->
  clean (first_variant (lookup kv "container-title")) = Ok journal ->
  clean (lookup kv "volume") = Ok volume ->
  clean (lookup kv "issue") = Ok issue ->
  clean (lookup kv "DOI") = Ok doi ->
  clean (lookup kv "URL") = Ok url ->
  clean (lookup kv "publisher") = Ok publisher ->
  crossref_to_meta v (JObj kv)
  = Ok (mkMeta
          (Some match assoc (lower ctype) TYPE_MAP with
                | Some x => x
                | None => lit "GEN"
                end)
          (Some title) authors year (Some journal) (Some volume)
          (Some issue) (Some (fst (split_page page)))
          (Some (snd (split_page page))) (Some doi) (Some url)
          (Some publisher) (Some (strip_jats abstract)) keywords).
Proof.
  intros H1 H2 H3 H4 H5 H6 H7 H8 H9 H10 H11 H12 H13 H14.
  unfold crossref_to_meta; rewrite !dict_get_lookup.
  unfold ebind; cbv beta iota.
  rewrite H1, H2, H3, H4; destruct (split_page page) as [sp ep].
  rewrite H5, H6, H7, H8, H9, H10, H11, H12, H13, H14; reflexivity.
Qed.

(** X9 (two files).  On a message whose subject is absent, null, empty or
    a list, a record the baseline file builds is the record the other file
    builds. *)
Theorem fixed_normalises_as_baseline (kv : list (str * json))
    (meta : Meta) :
  (exists l, py_or (lookup kv "subject") (JArr []) = JArr l) ->
  crossref_to_meta Baseline (JObj kv) = Ok meta ->
  crossref_to_meta Fixed (JObj kv) = Ok meta.
Proof.
  intros (l & Hl) H.
  destruct (crossref_to_meta_fields _ _ _ H)
    as (ctype & author_list & authors & page & abstract & keywords & title
        & year & journal & volume & issue & doi & url & publisher
        & H1 & H2 & H3 & H4 & H5 & H6 & H7 & H8 & H9 & H10 & H11 & H12
        & H13 & H14 & ->).
  apply crossref_to_meta_intro with (author_list := author_list); auto.
  - rewrite Hl in *; exact H6.
  - apply first_year_loop_refines, H8.
Qed.

Lemma fixed_normalises_as_baseline_witness :
  crossref_to_meta Fixed
    (JObj [(lit "subject", JArr [JStr (lit " Logic "); JInt 3])])
  = Ok (mkMeta (Some (lit "GEN")) (Some []) [] None (Some []) (Some [])
          (Some []) (Some []) (Some []) (Some []) (Some []) (Some [])
          (Some []) [lit "Logic"]).
Proof.
  apply fixed_normalises_as_baseline; [eexists|]; reflexivity.
Defined.

Lemma strings_stripped_chars (s : str) :
  strings_stripped (map (fun c => JStr [c]) s) = map (fun x => strip [x]) s.
Proof.
  induction s as [|c s IH]; [reflexivity|].
  cbn [map strings_stripped flat_map app]; f_equal; exact IH.
Qed.

(** X10 (subject as text).  Where the subject is a text instead of a list,
    the baseline file keeps no keyword and the other file makes one
    keyword of every character of the text, a whitespace character giving
    an empty keyword. *)
Theorem text_subject_splits_in_fixed (kv : list (str * json))
    (c : ascii) (s : str) (meta : Meta) :
  lookup kv "subject" = JStr (c :: s) ->
  crossref_to_meta Baseline (JObj kv) = Ok meta ->
  m_keywords meta = []
  /\ exists meta',
       crossref_to_meta Fixed (JObj kv) = Ok meta'
       /\ m_keywords meta' = map (fun x => strip [x]) (c :: s).
Proof.
  intros Hs H.
  destruct (crossref_to_meta_fields _ _ _ H)
    as (ctype & author_list & authors & page & abstract & keywords & title
        & year & journal & volume & issue & doi & url & publisher
        & H1 & H2 & H3 & H4 & H5 & H6 & H7 & H8 & H9 & H10 & H11 & H12
        & H13 & H14 & ->).
  rewrite Hs in H6; cbn in H6; injection H6 as <-.
  split; [reflexivity|].
  eexists; split.
  - apply crossref_to_meta_intro with (author_list := author_list);
      try eassumption.
    + rewrite Hs; reflexivity.
    + apply first_year_loop_refines, H8.
  - cbn [m_keywords]; apply strings_stripped_chars.
Qed.

Lemma text_subject_splits_in_fixed_witness :
  exists meta',
    crossref_to_meta Fixed (JObj [(lit "subject", JStr (lit "AI"))])
    = Ok meta'
    /\ m_keywords meta' = [lit "A"; lit "I"].
Proof.
  exact (proj2 (text_subject_splits_in_fixed
                  [(lit "subject", JStr (lit "AI"))] "A"%char (lit "I") _
                  eq_refl eq_refl)).
Defined.

(** ** What the strategies send and find *)

Lemma only_sends_init {A : Type} (m : M A) :
  only_sends m -> sends_as m (fst (m init)) (requests_of m).
Proof.
  intros (r & reqs & H).
  destruct (sends_as_init _ _ _ H) as [-> Hs].
  unfold requests_of; rewrite Hs; exact H.
Qed.

(** The title strategy sends one search unless the title is blank, and a
    record it finds is under its route. *)
Lemma via_title_run (v : variant) (E : Env) (title route : str)
    (st : State) :
  exists r,
    via_title v E title route st
    = (r, mkState (results st) (audit st)
            (sent st ++ match strip title with
                        | [] => []
                        | _ :: _ => [search_request v title]
                        end))
    /\ outcome_under [route] r.
Proof.
  destruct st as [rs au se]; unfold via_title.
  destruct title as [|c t].
  { eexists; split; [unfold mret; cbn; rewrite app_nil_r|]; reflexivity. }
  unfold search_crossref_by_title.
  destruct (strip (c :: t)) as [|c' t'].
  { unfold mbind, mret; cbn; rewrite app_nil_r.
    eexists; split; reflexivity. }
  unfold mbind, get, raise_for_status, lift, mret.
  repeat (cbv beta iota;
          match goal with
          | |- context [match ?x with _ => _ end] =>
              lazymatch type of x with
              | Exc _ => destruct x
              | option _ => destruct x
              | bool => destruct x
              end
          end);
    cbv beta iota; eexists; (split; [reflexivity|]);
    cbn; auto.
Qed.

Lemma via_doi_profile (v : variant) (E : Env) (doi route : str)
    (st : State) :
  outcome_under [route] (fst (via_doi v E doi route st))
  /\ sent (snd (via_doi v E doi route st)) = sent st ++ [fetch_request v doi].
Proof.
  destruct (via_doi_run v E doi route st) as (r & -> & Hr); split;
    [|reflexivity].
  destruct r as [o|]; [|exact I].
  destruct Hr as (meta & ->); left; reflexivity.
Qed.

Lemma via_title_profile (v : variant) (E : Env) (title route : str)
    (st : State) :
  outcome_under [route] (fst (via_title v E title route st))
  /\ sent (snd (via_title v E title route st))
     = sent st ++ match strip title with
                  | [] => []
                  | _ :: _ => [search_request v title]
                  end.
Proof.
  destruct (via_title_run v E title route st) as (r & -> & Hr); split;
    [exact Hr | reflexivity].
Qed.

Lemma outcome_under_incl (a b : list str) (r : Exc outcome) :
  incl a b -> outcome_under a r -> outcome_under b r.
Proof.
  intros I; destruct r as [[[m|] route]|]; simpl; auto.
Qed.

Lemma to_crossref_title (v : variant) (title : str) :
  Forall (to_crossref v)
    match strip title with
    | [] => []
    | _ :: _ => [search_request v title]
    end.
Proof.
  destruct (strip title) eqn:S; constructor; [|constructor].
  right; exists title; split; [reflexivity|]; rewrite S; discriminate.
Qed.

Lemma title_requests_length (v : variant) (title : str) :
  length match strip title with
         | [] => []
         | _ :: _ => [search_request v title]
         end <= 1.
Proof. destruct (strip title); simpl; lia. Qed.

(** One uploaded PDF: at most one request, to the registry. *)
Lemma pdf_strategies_profile (v : variant) (E : Env) (f : UploadedFile) :
  outcome_under [lit "pdf_doi"; lit "pdf_title"] (pdf_outcome v E f)
  /\ length (requests_of (pdf_strategies v E f)) <= 1
  /\ Forall (to_crossref v) (requests_of (pdf_strategies v E f)).
Proof.
  unfold pdf_outcome, requests_of, pdf_strategies, mbind, lift.
  destruct (extract_text_from_pdf_bytes v E (content f)) as [text|e];
    [|cbn; repeat split; [lia | constructor]].
  destruct (find_doi_in_text text) as [d|].
  - destruct (via_doi_profile v E d (lit "pdf_doi") init) as [Ho ->].
    repeat split.
    + revert Ho; apply outcome_under_incl; intros x [<-|[]]; simpl; auto.
    + simpl; lia.
    + constructor; [left; eexists; reflexivity | constructor].
  - match goal with
    | |- context [via_title v E ?t ?r init] =>
        destruct (via_title_profile v E t r init) as [Ho ->];
        pose proof (to_crossref_title v t) as Hc;
        pose proof (title_requests_length v t) as Hl
    end.
    repeat split.
    + revert Ho; apply outcome_under_incl; intros x [<-|[]]; simpl; auto.
    + exact Hl.
    + exact Hc.
Qed.

(** One line of the list: a lookup of the line, or the page of the line
    and then at most one request to the registry. *)
Lemma item_strategies_profile (v : variant) (E : Env) (item : str) :
  outcome_under [lit "doi"; lit "url_doi"; lit "url_title"]
    (item_outcome v E item)
  /\ exists rest,
       item_requests v E item
       = match search DOI_REGEX item with
         | Some _ => []
         | None => [page_request v item]
         end ++ rest
       /\ length rest <= 1
       /\ Forall (to_crossref v) rest.
Proof.
  unfold item_outcome, item_requests, item_strategies.
  destruct (search DOI_REGEX item) as [m|].
  - destruct (via_doi_profile v E item (lit "doi") init) as [Ho ->].
    split.
    + revert Ho; apply outcome_under_incl; intros x [<-|[]]; simpl; auto.
    + eexists; split; [reflexivity|]; split; [simpl; lia|].
      constructor; [left; eexists; reflexivity | constructor].
  - unfold mbind, get.
    destruct (requests_get E (page_request v item)) as [resp|e].
    2:{ split; [exact I|]; exists []; repeat split; [simpl; lia|constructor]. }
    destruct (search DOI_REGEX (resp_text resp)) as [[pre found]|].
    + match goal with
      | |- context [via_doi v E ?d ?r ?st] =>
          destruct (via_doi_profile v E d r st) as [Ho ->]
      end.
      split.
      * revert Ho; apply outcome_under_incl; intros x [<-|[]]; simpl; auto.
      * eexists; split; [reflexivity|]; split; [simpl; lia|].
        constructor; [left; eexists; reflexivity | constructor].
    + match goal with
      | |- context [via_title v E ?t ?r ?st] =>
          destruct (via_title_profile v E t r st) as [Ho ->];
          pose proof (to_crossref_title v t) as Hc;
          pose proof (title_requests_length v t) as Hl
      end.
      split.
      * revert Ho; apply outcome_under_incl; intros x [<-|[]]; simpl; auto.
      * eexists; split; [reflexivity|]; split; assumption.
Qed.

(** ** The audit trail of a batch *)

Lemma entry_of_consistent (routes : list str) (input error_route : str)
    (r : Exc outcome) :
  incl routes ROUTES_FOUND -> In error_route ROUTES_ERROR ->
  outcome_under routes r -> consistent (entry_of input error_route r).
Proof.
  intros I Er; destruct r as [[[m|] route]|e]; unfold consistent;
    cbn [entry_of a_meta a_error a_success a_route outcome_under];
    intros Ho; split; auto.
Qed.

Lemma metas_of_app (a b : list AuditEntry) :
  metas_of (a ++ b) = metas_of a ++ metas_of b.
Proof. apply flat_map_app. Qed.

Lemma metas_of_entries {A : Type} (input : A -> str) (error_route : str)
    (r : A -> Exc outcome) (l : list A) :
  metas_of (map (fun x => entry_of (input x) error_route (r x)) l)
  = flat_map (fun x => result_of (r x)) l.
Proof.
  induction l as [|x l IH]; [reflexivity|].
  cbn [map flat_map]; rewrite <- IH; unfold metas_of at 1.
  cbn [flat_map]; f_equal.
  destruct (r x) as [[[m|] route]|e]; reflexivity.
Qed.

(** X11 (audit trail).  After a batch, from any state: every entry added
    holds either a record (success, under the route that found it), or an
    error message (no success, under [pdf_error] or [url_error]), or
    neither (no success, no route); and the records added to [results] are
    exactly the records of the entries added, in the same order. *)
Theorem batch_audit_is_consistent (v : variant) (E : Env)
    (pdfs : list UploadedFile) (list_box : str) (st : State) :
  Forall consistent (batch_audit v E pdfs list_box st)
  /\ results (snd (process_batch v E pdfs list_box st))
     = results st ++ metas_of (batch_audit v E pdfs list_box st).
Proof.
  rewrite batch_audit_entries; split.
  - apply Forall_app; split; apply Forall_forall; intros e He;
      apply in_map_iff in He; destruct He as (x & <- & _).
    + apply entry_of_consistent
        with (routes := [lit "pdf_doi"; lit "pdf_title"]).
      * intros r [<-|[<-|[]]]; simpl; auto 6.
      * simpl; auto.
      * apply pdf_strategies_profile.
    + apply entry_of_consistent
        with (routes := [lit "doi"; lit "url_doi"; lit "url_title"]).
      * intros r [<-|[<-|[<-|[]]]]; simpl; auto 6.
      * simpl; auto.
      * apply item_strategies_profile.
  - rewrite process_batch_effect; cbn [snd results].
    rewrite metas_of_app; unfold pdf_entry, item_entry.
    rewrite (metas_of_entries name), (metas_of_entries (fun i => i)).
    reflexivity.
Qed.

(** ** The requests of a batch *)

Lemma flat_map_length_le {A B : Type} (f : A -> list B) (k : nat)
    (l : list A) :
  (forall x, length (f x) <= k) -> length (flat_map f l) <= k * length l.
Proof.
  intros H; induction l as [|x l IH]; simpl; [lia|].
  rewrite length_app; specialize (H x); nia.
Qed.

Lemma Forall_flat_map_each {A B : Type} (P : B -> Prop) (f : A -> list B)
    (l : list A) :
  (forall x, In x l -> Forall P (f x)) -> Forall P (flat_map f l).
Proof.
  intros H; induction l as [|x l IH]; simpl; [constructor|].
  apply Forall_app; split; [apply H; left; reflexivity|].
  apply IH; intros y Hy; apply H; right; exact Hy.
Qed.

Lemma to_crossref_well_formed (v : variant) (rq : request) :
  to_crossref v rq -> well_formed_request v rq.
Proof. intros [(d & ->)|(t & -> & _)]; split; reflexivity. Qed.

Lemma batch_requests_sent (v : variant) (E : Env)
    (pdfs : list UploadedFile) (list_box : str) (st : State) :
  batch_requests v E pdfs list_box st
  = flat_map (fun f => requests_of (pdf_strategies v E f)) pdfs
    ++ flat_map (item_requests v E) (batch_items list_box).
Proof.
  unfold batch_requests; rewrite process_batch_effect; cbn [snd sent].
  apply skipn_app_exact.
Qed.

(** X12 (requests).  A batch sends at most one request per PDF and two per
    line.  Every request carries the program's user agent and a timeout of
    20 seconds, and goes either to the registry (a lookup by DOI, or a
    search by a title that is not blank) or to the address a line of the
    list gives. *)
Theorem batch_request_budget (v : variant) (E : Env)
    (pdfs : list UploadedFile) (list_box : str) (st : State) :
  let reqs := batch_requests v E pdfs list_box st in
  length reqs <= length pdfs + 2 * length (batch_items list_box)
  /\ Forall (well_formed_request v) reqs
  /\ Forall (fun rq =>
               to_crossref v rq
               \/ exists item,
                    In item (batch_items list_box)
                    /\ rq = page_request v item) reqs.
Proof.
  cbv zeta; rewrite batch_requests_sent.
  assert (Item : forall item,
             length (item_requests v E item) <= 2
             /\ Forall (fun rq => to_crossref v rq
                                  \/ rq = page_request v item)
                  (item_requests v E item)).
  { intros item.
    destruct (item_strategies_profile v E item) as (_ & rest & -> & L & C).
    split.
    - rewrite length_app; destruct (search DOI_REGEX item); simpl; lia.
    - apply Forall_app; split.
      + destruct (search DOI_REGEX item);
          [constructor | constructor; [right; reflexivity | constructor]].
      + revert C; apply Forall_impl; auto. }
  assert (Third :
            Forall (fun rq =>
                      to_crossref v rq
                      \/ exists item,
                           In item (batch_items list_box)
                           /\ rq = page_request v item)
              (flat_map (fun f => requests_of (pdf_strategies v E f)) pdfs
               ++ flat_map (item_requests v E) (batch_items list_box))).
  { apply Forall_app; split; apply Forall_flat_map_each.
    - intros f _.
      destruct (pdf_strategies_profile v E f) as (_ & _ & C).
      revert C; apply Forall_impl; auto.
    - intros item Hi; destruct (Item item) as [_ C].
      revert C; apply Forall_impl; intros rq [H| ->]; [left; exact H|].
      right; exists item; auto. }
  conjs.
  - rewrite length_app.
    pose proof (flat_map_length_le
                  (fun f => requests_of (pdf_strategies v E f)) 1 pdfs
                  (fun f => proj1 (proj2 (pdf_strategies_profile v E f)))).
    pose proof (flat_map_length_le (item_requests v E) 2
                  (batch_items list_box) (fun i => proj1 (Item i))).
    lia.
  - revert Third; apply Forall_impl.
    intros rq [H|(item & _ & ->)];
      [apply to_crossref_well_formed, H | split; reflexivity].
  - exact Third.
Qed.

(** ** Text extraction *)






(** ** The lines of the list *)

Lemma splitlines_aux_chars (n : nat) :
  forall s cur line,
    length s <= n ->
    (forall c, In c cur -> is_linebreak c = false) ->
    In line (splitlines_aux cur s) ->
    forall c, In c line -> is_linebreak c = false /\ (In c cur \/ In c s).
Proof.
  induction n as [|n IH]; intros s cur line L Hc Hl c Hin.
  - destruct s; [|simpl in L; lia].
    simpl in Hl; destruct cur as [|x cur]; [destruct Hl|].
    destruct Hl as [<-|[]]; apply in_rev in Hin; auto.
  - destruct s as [|x s].
    { simpl in Hl; destruct cur as [|y cur]; [destruct Hl|].
      destruct Hl as [<-|[]]; apply in_rev in Hin; auto. }
    simpl in L; cbn [splitlines_aux] in Hl.
    destruct (is_linebreak x) eqn:B.
    + destruct s as [|d s'].
      { destruct Hl as [<-|[]]; apply in_rev in Hin; auto. }
      assert (Rest : forall t, length t <= n ->
                               In line (rev cur :: splitlines_aux [] t) ->
                               (forall a, In a t -> In a (x :: d :: s')) ->
                               is_linebreak c = false
                               /\ (In c cur \/ In c (x :: d :: s'))).
      { intros t Lt [<-|Ht] Sub.
        - apply in_rev in Hin; auto.
        - destruct (IH t [] line Lt (fun a (F : In a []) => match F with end)
                      Ht c Hin) as [Hb [[]|Hs]]; auto. }
      simpl in L.
      destruct (is_CR x && is_LF d).
      * apply (Rest s'); [lia | exact Hl | intros a Ha; simpl; auto].
      * apply (Rest (d :: s')); [simpl; lia | exact Hl|].
        intros a Ha; right; exact Ha.
    + destruct (IH s (x :: cur) line ltac:(lia)
                  ltac:(intros a [<-|Ha]; auto) Hl c Hin)
        as [Hb [[<-|Hcur]|Hs]]; simpl; auto.
Qed.

Lemma splitlines_chars (s line : str) (c : ascii) :
  In line (splitlines s) -> In c line ->
  is_linebreak c = false /\ In c s.
Proof.
  intros Hl Hc.
  destruct (splitlines_aux_chars (length s) s [] line (le_n _)
              (fun a (F : In a []) => match F with end) Hl c Hc)
    as [Hb [[]|Hs]]; auto.
Qed.

Lemma lstrip_blank (s : str) :
  forallb isspace s = true -> lstrip s = [].
Proof.
  induction s as [|c s IH]; [reflexivity|]; simpl.
  intros H; apply andb_true_iff in H; destruct H as [-> H]; auto.
Qed.

Lemma strip_blank (s : str) : forallb isspace s = true -> strip s = [].
Proof. intros H; unfold strip; rewrite (lstrip_blank _ H); reflexivity. Qed.

Lemma batch_items_blank (list_box : str) :
  forallb isspace list_box = true -> batch_items list_box = [].
Proof.
  intros H; destruct (batch_items list_box) as [|item l] eqn:B;
    [reflexivity|].
  assert (Hi : In item (batch_items list_box)) by (rewrite B; left; auto).
  apply batch_items_In in Hi; destruct Hi as (line & Hl & -> & Hne).
  destruct Hne; apply strip_blank, forallb_forall; intros c Hc.
  rewrite forallb_forall in H; apply H.
  apply (splitlines_chars _ _ _ Hl Hc).
Qed.

(** X15 (items).  Every item of a batch is a non-empty text without leading
    or trailing whitespace, made of characters of the text area, none of
    them a line boundary; there are at most as many items as lines.  A
    text area holding only whitespace gives no item, and a batch without
    PDFs then leaves the state as it is. *)
Theorem batch_items_are_clean (list_box : str) :
  (forall item,
     In item (batch_items list_box) ->
     item <> [] /\ trimmed item
     /\ forall c, In c item -> In c list_box /\ is_linebreak c = false)
  /\ length (batch_items list_box) <= length (splitlines list_box)
  /\ (forallb isspace list_box = true ->
      batch_items list_box = []
      /\ forall v E st, process_batch v E [] list_box st = (Ok tt, st)).
Proof.
  conjs.
  - intros item Hi; apply batch_items_In in Hi.
    destruct Hi as (line & Hl & -> & Hne); conjs.
    + exact Hne.
    + apply strip_trimmed.
    + intros c Hc; apply strip_In in Hc.
      destruct (splitlines_chars _ _ _ Hl Hc); auto.
  - unfold batch_items.
    rewrite <- (length_map strip (splitlines list_box)).
    apply filter_length_le.
  - intros H; split; [apply batch_items_blank, H|].
    intros v E [rs au se]; rewrite process_batch_effect.
    rewrite (batch_items_blank _ H); cbn.
    rewrite !app_nil_r; reflexivity.
Qed.

Lemma batch_items_are_clean_witness :
  batch_items (lit "   ") = []
  /\ process_batch Fixed flaky_env [] (lit "   ") init = (Ok tt, init).
Proof.
  destruct (proj2 (proj2 (batch_items_are_clean (lit "   "))) eq_refl)
    as [B P].
  split; [exact B | apply P].
Defined.

(** ** The single input *)

Lemma only_sends_url_strategies (v : variant) (E : Env) (url : str) :
  only_sends (url_strategies v E url).
Proof.
  unfold url_strategies.
  apply only_sends_bind; [eexists; eexists; apply sends_as_get|].
  intros resp; destruct (search DOI_REGEX (resp_text resp)) as [[? ?]|];
    [apply only_sends_via_doi | apply only_sends_via_title].
Qed.

Lemma only_sends_single_strategies (v : variant) (E : Env) (doi url : str)
    (pdf : option UploadedFile) :
  only_sends (single_strategies v E doi url pdf).
Proof.
  unfold single_strategies.
  destruct (strip doi); [|apply only_sends_via_doi].
  destruct (strip url); [|apply only_sends_url_strategies].
  destruct pdf; [apply only_sends_pdf_strategies | apply only_sends_ret].
Qed.

Lemma process_single_effect (v : variant) (E : Env) (doi url : str)
    (pdf : option UploadedFile) (st : State) :
  nothing_given doi url pdf = false ->
  process_single v E doi url pdf st
  = (Ok (error_shown (single_outcome v E doi url pdf)
         ++ [single_verdict (settled (single_outcome v E doi url pdf))]),
     mkState
       (results st
        ++ result_of (Ok (settled (single_outcome v E doi url pdf))))
       (audit st ++ [single_entry v E doi url pdf])
       (sent st ++ requests_of (single_strategies v E doi url pdf))).
Proof.
  intros N; unfold process_single; rewrite N.
  pose proof (only_sends_init _
                (only_sends_single_strategies v E doi url pdf)) as H.
  unfold single_entry, single_outcome.
  unfold mbind at 1 2; unfold try_except, mbind at 1; rewrite H; clear H.
  generalize (requests_of (single_strategies v E doi url pdf)) as reqs.
  generalize (fst (single_strategies v E doi url pdf init)) as r.
  generalize (single_input doi url pdf) as input.
  intros input [[[meta|] route]|e] reqs; destruct st as [rs au se]; simpl;
    rewrite ?app_nil_r; reflexivity.
Qed.

Lemma url_strategies_profile (v : variant) (E : Env) (url : str) :
  outcome_under [lit "url_doi"; lit "url_title"]
    (fst (url_strategies v E url init))
  /\ exists rest,
       requests_of (url_strategies v E url) = page_request v url :: rest
       /\ length rest <= 1 /\ Forall (to_crossref v) rest.
Proof.
  unfold requests_of, url_strategies, mbind, get.
  destruct (requests_get E (page_request v url)) as [resp|e].
  2:{ split; [exact I|]; exists []; repeat split; [simpl; lia|constructor]. }
  destruct (search DOI_REGEX (resp_text resp)) as [[pre found]|].
  - match goal with
    | |- context [via_doi v E ?d ?r ?st] =>
        destruct (via_doi_profile v E d r st) as [Ho ->]
    end.
    split.
    + revert Ho; apply outcome_under_incl; intros x [<-|[]]; simpl; auto.
    + eexists; split; [reflexivity|]; split; [simpl; lia|].
      constructor; [left; eexists; reflexivity | constructor].
  - match goal with
    | |- context [via_title v E ?t ?r ?st] =>
        destruct (via_title_profile v E t r st) as [Ho ->];
        pose proof (to_crossref_title v t) as Hc;
        pose proof (title_requests_length v t) as Hl
    end.
    split.
    + revert Ho; apply outcome_under_incl; intros x [<-|[]]; simpl; auto.
    + eexists; split; [reflexivity|]; split; assumption.
Qed.

Lemma single_strategies_profile (v : variant) (E : Env) (doi url : str)
    (pdf : option UploadedFile) :
  outcome_under ROUTES_FOUND (single_outcome v E doi url pdf)
  /\ length (requests_of (single_strategies v E doi url pdf)) <= 2.
Proof.
  unfold single_outcome, single_strategies.
  destruct (strip doi) as [|c d] eqn:D.
  - destruct (strip url) as [|c u] eqn:U.
    + destruct pdf as [f|]; [|split; [reflexivity | simpl; lia]].
      destruct (pdf_strategies_profile v E f) as (Ho & L & _).
      split; [|lia].
      revert Ho; apply outcome_under_incl.
      intros x [<-|[<-|[]]]; simpl; auto 6.
    + destruct (url_strategies_profile v E (c :: u))
        as (Ho & rest & -> & L & _).
      split; [|simpl; lia].
      revert Ho; apply outcome_under_incl.
      intros x [<-|[<-|[]]]; simpl; auto 6.
  - destruct (via_doi_profile v E (c :: d) (lit "doi") init) as [Ho S].
    split.
    + revert Ho; apply outcome_under_incl; intros x [<-|[]]; simpl; auto.
    + unfold requests_of; rewrite S; simpl; lia.
Qed.

(** X16 (single input).  Without a DOI, a URL or a PDF the single-input tab
    only warns and changes nothing.  Otherwise it never raises and appends
    exactly one audit entry, labelled [doi or url or pdf.name], sending at
    most two requests; the record, if one is found, is appended to
    [results].  The entry never holds an error message: after an exception
    it has no record and no route, the message is only shown (followed by
    the failure notice). *)
Theorem single_input_is_recorded_once (v : variant) (E : Env)
    (doi url : str) (pdf : option UploadedFile) (st : State) :
  (nothing_given doi url pdf = true ->
   process_single v E doi url pdf st
   = (Ok [st_warning (lit "Please provide a DOI, a URL, or a PDF.")], st))
  /\ (nothing_given doi url pdf = false ->
      exists shown entry reqs,
        process_single v E doi url pdf st
        = (Ok shown,
           mkState (results st ++ metas_of [entry]) (audit st ++ [entry])
             (sent st ++ reqs))
        /\ a_input entry = single_input doi url pdf
        /\ a_error entry = None
        /\ consistent entry
        /\ length reqs <= 2
        /\ forall e,
             single_outcome v E doi url pdf = Raise e ->
             a_success entry = false /\ a_route entry = []
             /\ shown
                = [st_error (lit "Error: " ++ exn_msg e);
                   st_error
                     (lit "Failed to extract metadata. Try a DOI or publisher page.")]).
Proof.
  split; intros N.
  - unfold process_single; rewrite N; reflexivity.
  - rewrite (process_single_effect v E doi url pdf st N).
    destruct (single_strategies_profile v E doi url pdf) as [Ho L].
    do 3 eexists; split; [|conjs].
    + f_equal; f_equal.
      unfold single_entry.
      destruct (single_outcome v E doi url pdf) as [[[m|] route]|e];
        cbn; rewrite ?app_nil_r; reflexivity.
    + unfold single_entry.
      destruct (settled _) as [[m|] route]; reflexivity.
    + unfold single_entry.
      destruct (settled _) as [[m|] route]; reflexivity.
    + unfold single_entry.
      destruct (single_outcome v E doi url pdf) as [[[m|] route]|e];
        unfold consistent; cbn; cbn in Ho; auto.
    + exact L.
    + intros e He; unfold single_entry; rewrite He; cbn.
      conjs; reflexivity.
Qed.

Lemma single_input_is_recorded_once_witness :
  process_single Fixed flaky_env [] (lit "  ") None init
  = (Ok [st_warning (lit "Please provide a DOI, a URL, or a PDF.")], init).
Proof.
  apply (proj1 (single_input_is_recorded_once Fixed flaky_env [] (lit "  ")
                  None init)).
  reflexivity.
Defined.

(** X17 (priority).  A DOI that is not blank wins over the URL and the PDF:
    the only request is the lookup of the trimmed DOI, and the whole step
    is the one taken without URL and PDF.  The label of the entry is the
    DOI field as typed, also when it is blank: with a blank, non-empty DOI
    field and a URL, the page of the URL is fetched and the entry is
    labelled with the blank DOI field. *)
Theorem single_doi_takes_priority (v : variant) (E : Env)
    (doi url : str) (pdf : option UploadedFile) :
  (strip doi <> [] ->
   requests_of (single_strategies v E doi url pdf)
   = [fetch_request v (strip doi)]
   /\ forall st,
        process_single v E doi url pdf st
        = process_single v E doi [] None st)
  /\ (doi <> [] -> strip doi = [] -> strip url <> [] ->
      a_input (single_entry v E doi url pdf) = doi
      /\ exists rest,
           requests_of (single_strategies v E doi url pdf)
           = page_request v (strip url) :: rest).
Proof.
  split.
  - intros D.
    assert (S : single_strategies v E doi url pdf
                = via_doi v E (strip doi) (lit "doi")).
    { unfold single_strategies; destruct (strip doi);
        [destruct D|]; reflexivity. }
    assert (S0 : single_strategies v E doi [] None
                 = via_doi v E (strip doi) (lit "doi")).
    { unfold single_strategies; destruct (strip doi);
        [destruct D|]; reflexivity. }
    assert (I : single_input doi url pdf = single_input doi [] None).
    { destruct doi; [destruct D|]; reflexivity. }
    assert (N : forall u p, nothing_given doi u p = false).
    { intros u p; unfold nothing_given; destruct (strip doi);
        [destruct D|]; reflexivity. }
    split.
    + rewrite S; unfold requests_of.
      rewrite (proj2 (via_doi_profile v E (strip doi) (lit "doi") init)).
      reflexivity.
    + intros st; unfold process_single; rewrite !N, S, S0, I; reflexivity.
  - intros D B U; split.
    + unfold single_entry.
      destruct (settled _) as [[m|] route]; destruct doi;
        try (destruct D; reflexivity); reflexivity.
    + unfold single_strategies; rewrite B.
      destruct (strip url) as [|c u] eqn:Eu; [destruct U; reflexivity|].
      destruct (url_strategies_profile v E (c :: u))
        as (_ & rest & -> & _).
      exists rest; reflexivity.
Qed.

Lemma single_doi_takes_priority_witness :
  requests_of
    (single_strategies Fixed flaky_env (lit " 10.1000/one ")
       (lit "https://example.org") None)
  = [fetch_request Fixed (lit "10.1000/one")].
Proof.
  apply (proj1 (single_doi_takes_priority Fixed flaky_env
                  (lit " 10.1000/one ") (lit "https://example.org") None)).
  discriminate.
Defined.

(** ** One run of the script *)








(** ** The audit log *)

Lemma json_escape_char_no_lf (c : ascii) :
  no_lf (json_escape_char c) = true.
Proof. destruct c as [[] [] [] [] [] [] [] []]; reflexivity. Qed.

Lemma no_lf_app (a b : str) :
  no_lf (a ++ b) = no_lf a && no_lf b.
Proof. apply forallb_app. Qed.

Lemma json_string_no_lf (s : str) : no_lf (json_string s) = true.
Proof.
  unfold json_string; rewrite !no_lf_app.
  replace (no_lf (flat_map json_escape_char s)) with true; [reflexivity|].
  induction s as [|c s IH]; [reflexivity|].
  cbn [flat_map]; rewrite no_lf_app, json_escape_char_no_lf, <- IH.
  reflexivity.
Qed.

Lemma join_no_lf (sep : str) (l : list str) :
  no_lf sep = true -> Forall (fun x => no_lf x = true) l ->
  no_lf (join sep l) = true.
Proof.
  intros Hs; induction 1 as [|x l Hx Hl IH]; [reflexivity|].
  destruct l as [|y l]; [exact Hx|].
  rewrite join_cons by discriminate.
  rewrite !no_lf_app, Hx, Hs, IH; reflexivity.
Qed.

Lemma json_opt_string_no_lf (o : option str) :
  no_lf (json_opt_string o) = true.
Proof. destruct o; [apply json_string_no_lf | reflexivity]. Qed.

Lemma json_strings_no_lf (l : list str) : no_lf (json_strings l) = true.
Proof.
  unfold json_strings; rewrite !no_lf_app, join_no_lf; [reflexivity..|].
  apply Forall_forall; intros x Hx; apply in_map_iff in Hx.
  destruct Hx as (y & <- & _); apply json_string_no_lf.
Qed.

Lemma json_member_no_lf (key : string) (value : str) :
  no_lf (lit key) = true -> no_lf value = true ->
  no_lf (json_member key value) = true.
Proof.
  intros _ Hv; unfold json_member.
  rewrite !no_lf_app, json_string_no_lf, Hv; reflexivity.
Qed.

Lemma json_object_no_lf (members : list str) :
  Forall (fun x => no_lf x = true) members ->
  no_lf (json_object members) = true.
Proof.
  intros H; unfold json_object.
  rewrite !no_lf_app, (join_no_lf (lit ", ") _ eq_refl H); reflexivity.
Qed.

Lemma dumps_meta_no_lf (m : Meta) : no_lf (dumps_meta m) = true.
Proof.
  unfold dumps_meta; apply json_object_no_lf.
  repeat constructor; apply json_member_no_lf;
    first [ reflexivity | apply json_opt_string_no_lf
          | apply json_strings_no_lf ].
Qed.

Lemma dumps_entry_no_lf (a : AuditEntry) : no_lf (dumps_entry a) = true.
Proof.
  unfold dumps_entry; apply json_object_no_lf.
  apply Forall_app; split; [|apply Forall_app; split].
  - repeat constructor; apply json_member_no_lf;
      first [ reflexivity | apply json_string_no_lf | idtac ].
    destruct (a_success a); reflexivity.
  - destruct (a_error a); repeat constructor.
    apply json_member_no_lf; [reflexivity | apply json_string_no_lf].
  - repeat constructor; apply json_member_no_lf; [reflexivity|].
    destruct (a_meta a); [apply dumps_meta_no_lf | reflexivity].
Qed.

Lemma line_feeds_app (a b : str) :
  line_feeds (a ++ b) = line_feeds a + line_feeds b.
Proof. unfold line_feeds; rewrite filter_app, length_app; reflexivity. Qed.

Lemma no_lf_line_feeds (s : str) : no_lf s = true -> line_feeds s = 0.
Proof.
  unfold no_lf, line_feeds; induction s as [|c s IH]; [reflexivity|].
  simpl; intros H; apply andb_true_iff in H; destruct H as [Hc Hs].
  destruct (is_LF c); [discriminate Hc | apply IH, Hs].
Qed.

Lemma join_line_feeds (l : list str) :
  Forall (fun x => no_lf x = true) l ->
  line_feeds (join NL l) = length l - 1.
Proof.
  induction 1 as [|x l Hx Hl IH]; [reflexivity|].
  destruct l as [|y l].
  - cbn [join]; rewrite (no_lf_line_feeds _ Hx); reflexivity.
  - rewrite join_cons by discriminate.
    rewrite !line_feeds_app, (no_lf_line_feeds _ Hx), IH.
    simpl; lia.
Qed.

Lemma utf8_char_line_feed (c : ascii) :
  line_feed_bytes (utf8_char c) = if is_LF c then 1 else 0.
Proof. destruct c as [[] [] [] [] [] [] [] []]; reflexivity. Qed.

Lemma encode_utf8_line_feeds (s : str) :
  line_feed_bytes (encode_utf8 s) = line_feeds s.
Proof.
  unfold encode_utf8, line_feed_bytes, line_feeds.
  induction s as [|c s IH]; [reflexivity|].
  cbn [flat_map filter]; rewrite filter_app, length_app, IH.
  fold (line_feed_bytes (utf8_char c)); rewrite utf8_char_line_feed.
  destruct (is_LF c); reflexivity.
Qed.

(** X19 (audit log).  The audit log holds one line per entry: no entry is
    written with a line feed inside, whatever its input, its error message
    or its record hold, so the bytes offered for download hold one line
    feed less than there are entries. *)
Theorem audit_log_one_line_per_entry (entries : list AuditEntry) :
  Forall (fun a => no_lf (dumps_entry a) = true) entries
  /\ line_feed_bytes (audit_bytes entries) = length entries - 1.
Proof.
  assert (H : Forall (fun x => no_lf x = true) (map dumps_entry entries)).
  { apply Forall_forall; intros x Hx; apply in_map_iff in Hx.
    destruct Hx as (a & <- & _); apply dumps_entry_no_lf. }
  split.
  - apply Forall_forall; intros a _; apply dumps_entry_no_lf.
  - unfold audit_bytes.
    rewrite encode_utf8_line_feeds, (join_line_feeds _ H), length_map.
    reflexivity.
Qed.

(** ** A DOI that was found *)

Lemma doi_char_plain (c : ascii) :
  doi_char c = true -> isspace c = false /\ is_linebreak c = false.
Proof.
  destruct c as [[] [] [] [] [] [] [] []]; vm_compute; intros H;
    first [discriminate H | split; reflexivity].
Qed.

Lemma doi_shape_plain (r : str) (c : ascii) :
  doi_shape r -> In c r -> isspace c = false /\ is_linebreak c = false.
Proof.
  intros (ds & tok & -> & _ & Hd & _ & Ht) H.
  apply doi_char_plain; rewrite doi_char_table; apply contains_char_In.
  rewrite !in_app_iff in H; destruct H as [H|[H|[H|H]]].
  - simpl in H; simpl; tauto.
  - apply Hd in H; simpl in H; simpl; tauto.
  - simpl in H; simpl; tauto.
  - apply Ht, H.
Qed.

Lemma find_doi_shape (text r : str) :
  find_doi_in_text text = Some r -> doi_shape r.
Proof.
  unfold find_doi_in_text, search.
  destruct (search_from DOI_REGEX [] text) as [[p m]|] eqn:S;
    [|discriminate].
  intros H; injection H as <-.
  apply search_from_Some in S.
  destruct S as (sk & rest & _ & _ & Hm & _).
  apply matches_doi_shape, (match_here_sound _ _ _ Hm).
Qed.

Lemma doi_shape_found (r : str) :
  doi_shape r -> exists m, search DOI_REGEX r = Some ([], m) /\ concat m = r.
Proof.
  intros Sh.
  destruct (doi_shape_matched r [] Sh) as (m & Hm & L).
  rewrite app_nil_r in Hm.
  destruct (match_here_sound _ _ _ Hm) as [_ (rest & E)].
  assert (rest = []).
  { apply (f_equal (@length ascii)) in E; rewrite length_app in E.
    destruct rest; [reflexivity | simpl in E; lia]. }
  subst rest; rewrite app_nil_r in E.
  exists m; split; [|symmetry; exact E].
  unfold search; destruct r; cbn [search_from]; rewrite Hm; reflexivity.
Qed.

Lemma splitlines_aux_plain (s : str) :
  forall cur,
    (forall c, In c s -> is_linebreak c = false) ->
    splitlines_aux cur s
    = match rev cur ++ s with [] => [] | c :: l => [c :: l] end.
Proof.
  induction s as [|x s IH]; intros cur H.
  - cbn [splitlines_aux]; rewrite app_nil_r.
    destruct cur as [|y cur]; [reflexivity|].
    destruct (rev (y :: cur)) eqn:R; [|reflexivity].
    apply (f_equal (@length ascii)) in R; rewrite length_rev in R.
    discriminate R.
  - cbn [splitlines_aux]; rewrite (H x (or_introl eq_refl)).
    rewrite IH by (intros c Hc; apply H; right; exact Hc).
    cbn [rev]; rewrite <- app_assoc; reflexivity.
Qed.

(** X20 (found DOI).  What [find_doi_in_text] returns is found again, whole,
    when it is searched itself.  Pasted into the list of a batch it is one
    item, unchanged, and that item takes the DOI route: the only request is
    the lookup of this DOI. *)
Theorem found_doi_is_stable (text r : str) :
  find_doi_in_text text = Some r ->
  find_doi_in_text r = Some r
  /\ batch_items r = [r]
  /\ forall v E, item_requests v E r = [fetch_request v r].
Proof.
  intros H; pose proof (find_doi_shape _ _ H) as Sh.
  destruct (doi_shape_found r Sh) as (m & Hs & Hc).
  pose proof (fun c => doi_shape_plain r c Sh) as Plain.
  assert (Hne : r <> []).
  { destruct Sh as (ds & tok & -> & _); discriminate. }
  conjs.
  - unfold find_doi_in_text; rewrite Hs, Hc; reflexivity.
  - unfold batch_items, splitlines.
    rewrite splitlines_aux_plain by (intros c Hin; apply Plain, Hin).
    cbn [rev app]; destruct r as [|c r']; [destruct Hne; reflexivity|].
    cbn [map].
    assert (T : trimmed (c :: r')).
    { apply trimmed_by_ends.
      - apply Plain; left; reflexivity.
      - destruct (rev (c :: r')) as [|d t] eqn:R; [exact I|].
        apply Plain, in_rev; rewrite R; left; reflexivity. }
    unfold trimmed in T; rewrite T; reflexivity.
  - intros v E; unfold item_requests, item_strategies; rewrite Hs.
    rewrite (proj2 (via_doi_profile v E r (lit "doi") init)); reflexivity.
Qed.

Lemma found_doi_is_stable_witness :
  find_doi_in_text (lit "10.1000/xyz123") = Some (lit "10.1000/xyz123")
  /\ batch_items (lit "10.1000/xyz123") = [lit "10.1000/xyz123"].
Proof.
  destruct (found_doi_is_stable (lit "see 10.1000/xyz123 for details")
              (lit "10.1000/xyz123") eq_refl) as (A & B & _).
  split; assumption.
Defined.

(** ** Lines of a record *)

Lemma no_lf_In (s : str) : no_lf s = true <-> ~ In "010"%char s.
Proof.
  unfold no_lf; rewrite forallb_forall; split.
  - intros H Hin; specialize (H _ Hin); discriminate H.
  - intros H c Hc; destruct (is_LF c) eqn:L; [|reflexivity].
    destruct H; unfold is_LF, code in L; apply N.eqb_eq in L.
    assert (E : c = "010"%char)
      by (rewrite <- (ascii_N_embedding c), L; reflexivity).
    rewrite <- E; exact Hc.
Qed.

Lemma scalar_no_lf (tag : string) (esc : bool) (o : option str) :
  no_lf (lit tag) = true ->
  (esc = false -> forall x, o = Some x -> no_lf x = true) ->
  Forall (fun line => no_lf line = true) (map render (scalar tag esc o)).
Proof.
  intros Ht Hv; destruct o as [[|c s]|]; cbn [scalar map]; constructor;
    [|constructor].
  unfold render, tag_line; rewrite !no_lf_app, Ht; cbn [andb].
  destruct esc.
  - apply no_lf_In, ris_escape_no_newline.
  - apply Hv; reflexivity.
Qed.

Lemma listed_no_lf (tag : string) (l : list str) :
  no_lf (lit tag) = true ->
  Forall (fun line => no_lf line = true) (map render (listed tag l)).
Proof.
  intros Ht; apply Forall_forall; intros line H.
  apply in_map_iff in H; destruct H as (e & <- & He).
  apply listed_inv in He; destruct He as (x & -> & _ & _).
  unfold render, tag_line; rewrite !no_lf_app, Ht; cbn [andb].
  apply no_lf_In, ris_escape_no_newline.
Qed.

Lemma to_ris_lines_no_lf (m : Meta) :
  (forall field x,
     In field VERBATIM_FIELDS -> field m = Some x -> no_lf x = true) ->
  Forall (fun line => no_lf line = true) (to_ris_lines m).
Proof.
  intros H; rewrite to_ris_lines_entries; constructor.
  - unfold tag_line, type_or_GEN; rewrite !no_lf_app; cbn [andb].
    destruct (m_type m) as [[|c s]|] eqn:T; try reflexivity.
    apply (H m_type); [simpl; tauto | exact T].
  - apply Forall_app; split; [|repeat constructor].
    unfold entries; rewrite !map_app.
    repeat match goal with
           | |- Forall _ (_ ++ _) => apply Forall_app; split
           end;
      first [ apply listed_no_lf; reflexivity
            | apply scalar_no_lf; [reflexivity|] ];
      intros Esc x Hx; try discriminate Esc;
      match type of Hx with
      | ?f m = Some _ => apply (H f x); [simpl; tauto | exact Hx]
      end.
Qed.

Lemma line_feeds_block (lines : list str) :
  Forall (fun line => no_lf line = true) lines -> lines <> [] ->
  line_feeds (join NL lines ++ NL) = length lines.
Proof.
  intros H Hne; rewrite line_feeds_app, (join_line_feeds _ H).
  change (line_feeds NL) with 1.
  destruct lines; [destruct Hne; reflexivity|]; simpl; lia.
Qed.

(** X21 (lines).  If the fields a record writes verbatim (type, year,
    volume, issue, pages, DOI, URL) hold no newline, no line of the record
    does, whatever the escaped fields hold; the document of such records
    then has exactly one newline per line, so it reads back as the lines
    written. *)
Theorem verbatim_clean_records_keep_lines (l : list Meta) :
  (forall m field x,
     In m l -> In field VERBATIM_FIELDS -> field m = Some x ->
     no_lf x = true) ->
  Forall (fun line => no_lf line = true) (flat_map to_ris_lines l)
  /\ line_feeds (meta_to_ris l) = length (flat_map to_ris_lines l).
Proof.
  intros H; split.
  - apply Forall_flat_map_each; intros m Hm.
    apply to_ris_lines_no_lf; intros field x; apply H, Hm.
  - rewrite meta_to_ris_concat.
    induction l as [|m l IH]; [reflexivity|].
    cbn [map concat flat_map]; rewrite line_feeds_app, length_app.
    rewrite IH by (intros m' f x Hm'; apply H; right; exact Hm').
    f_equal; apply line_feeds_block.
    + apply to_ris_lines_no_lf; intros field x; apply H; left; reflexivity.
    + rewrite to_ris_lines_entries; discriminate.
Qed.

Lemma verbatim_clean_records_keep_lines_witness :
  line_feeds (meta_to_ris [title_only]) = 3.
Proof.
  refine (proj2 (verbatim_clean_records_keep_lines [title_only] _)).
  intros m field x [<-|[]] Hf Hx.
  simpl in Hf; repeat destruct Hf as [<-|Hf]; try discriminate Hx.
  destruct Hf.
Defined.

(** ** Authors and keywords *)

Lemma startswith_same_length (p q v : str) :
  length p = length q -> startswith (p ++ v) q = str_eqb q p.
Proof.
  revert q; induction p as [|a p IH]; intros [|b q] L;
    try discriminate L; [destruct v; reflexivity|].
  simpl; rewrite IH by (simpl in L; lia); reflexivity.
Qed.

Lemma lines_tagged_app (tag : string) (a b : list str) :
  lines_tagged tag (a ++ b) = lines_tagged tag a ++ lines_tagged tag b.
Proof. apply filter_app. Qed.

Lemma render_tagged (tag other : string) (esc : bool) (x : str) :
  length (lit other) = length (lit tag) ->
  startswith (render (lit other, esc, x)) (lit tag ++ lit "  - ")
  = str_eqb (lit tag ++ lit "  - ") (lit other ++ lit "  - ").
Proof.
  intros L; unfold render, tag_line; rewrite app_assoc.
  apply startswith_same_length; rewrite !length_app, L; reflexivity.
Qed.

Lemma lines_tagged_scalar (tag other : string) (esc : bool)
    (o : option str) :
  length (lit other) = length (lit tag) ->
  str_eqb (lit tag ++ lit "  - ") (lit other ++ lit "  - ") = false ->
  lines_tagged tag (map render (scalar other esc o)) = [].
Proof.
  intros L H; destruct o as [[|c s]|]; try reflexivity.
  unfold lines_tagged; cbn [scalar map filter].
  rewrite (render_tagged tag other esc _ L), H; reflexivity.
Qed.

Lemma lines_tagged_listed (tag other : string) (l : list str) :
  length (lit other) = length (lit tag) ->
  lines_tagged tag (map render (listed other l))
  = if str_eqb (lit tag ++ lit "  - ") (lit other ++ lit "  - ")
    then map render (listed other l) else [].
Proof.
  intros L; unfold lines_tagged, listed.
  induction (filter (fun a => match a with [] => false | _ => true end) l)
    as [|a r IH]; cbn [map filter].
  - destruct (str_eqb _ _); reflexivity.
  - rewrite (render_tagged tag other true _ L), IH.
    destruct (str_eqb _ _); reflexivity.
Qed.

Lemma lines_tagged_entries (tag : string) (m : Meta) :
  length (lit tag) = 2 ->
  lines_tagged tag (map render (entries m))
  = lines_tagged tag (map render (scalar "TI" true (m_title m)))
    ++ lines_tagged tag (map render (scalar "T2" true (m_journal m)))
    ++ lines_tagged tag (map render (scalar "PB" true (m_publisher m)))
    ++ lines_tagged tag (map render (scalar "PY" false (m_year m)))
    ++ lines_tagged tag (map render (scalar "VL" false (m_volume m)))
    ++ lines_tagged tag (map render (scalar "IS" false (m_issue m)))
    ++ lines_tagged tag (map render (listed "AU" (m_authors m)))
    ++ lines_tagged tag (map render (scalar "SP" false (m_sp m)))
    ++ lines_tagged tag (map render (scalar "EP" false (m_ep m)))
    ++ lines_tagged tag (map render (scalar "DO" false (m_doi m)))
    ++ lines_tagged tag (map render (scalar "UR" false (m_url m)))
    ++ lines_tagged tag (map render (scalar "AB" true (m_abstract m)))
    ++ lines_tagged tag (map render (listed "KW" (m_keywords m))).
Proof.
  intros _; unfold entries.
  rewrite !map_app, !lines_tagged_app; reflexivity.
Qed.

Ltac eval_tags :=
  repeat match goal with
         | |- context [str_eqb ?a ?b] =>
             let r := eval vm_compute in (str_eqb a b) in
             change (str_eqb a b) with r
         end;
  cbv iota.

(** X22 (authors, keywords).  The [AU] lines of a record are its non-empty
    authors, escaped, in the order of the list and with repetitions; the
    [KW] lines are its non-empty keywords likewise.  An author or keyword
    of whitespace only is not skipped: it gives a line with an empty
    value. *)
Theorem list_fields_keep_their_order (m : Meta) :
  lines_tagged "AU" (to_ris_lines m)
  = map (fun a => tag_line (lit "AU") (ris_escape a))
      (filter (fun a => match a with [] => false | _ => true end)
         (m_authors m))
  /\ lines_tagged "KW" (to_ris_lines m)
     = map (fun k => tag_line (lit "KW") (ris_escape k))
         (filter (fun k => match k with [] => false | _ => true end)
            (m_keywords m))
  /\ forall c s,
       forallb isspace (c :: s) = true ->
       In (c :: s) (m_authors m) ->
       In (tag_line (lit "AU") []) (to_ris_lines m).
Proof.
  assert (Ends : forall tag,
             length (lit tag) = 2 ->
             startswith (tag_line (lit "TY") (type_or_GEN m))
               (lit tag ++ lit "  - ") = false ->
             startswith (tag_line (lit "ER") []) (lit tag ++ lit "  - ")
             = false ->
             lines_tagged tag (to_ris_lines m)
             = lines_tagged tag (map render (entries m))).
  { intros tag _ Hty Her; rewrite to_ris_lines_entries.
    unfold lines_tagged at 1; cbn [filter]; rewrite Hty.
    rewrite filter_app; cbn [filter]; rewrite Her, app_nil_r.
    reflexivity. }
  conjs.
  - rewrite Ends; [|reflexivity..].
    rewrite lines_tagged_entries by reflexivity.
    rewrite !lines_tagged_scalar, !lines_tagged_listed by reflexivity.
    eval_tags; cbn [app]; rewrite app_nil_r; unfold listed; rewrite map_map.
    reflexivity.
  - rewrite Ends; [|reflexivity..].
    rewrite lines_tagged_entries by reflexivity.
    rewrite !lines_tagged_scalar, !lines_tagged_listed by reflexivity.
    eval_tags; cbn [app]; unfold listed; rewrite map_map.
    reflexivity.
  - intros c s Hb Hin; rewrite to_ris_lines_entries.
    right; apply in_or_app; left.
    apply in_map_iff; exists (lit "AU", true, c :: s); split.
    + unfold render, ris_escape.
      replace (strip (replace_char "010"%char " "%char (c :: s)))
        with (@nil ascii); [reflexivity|].
      symmetry; apply strip_blank, forallb_forall.
      intros x Hx; unfold replace_char in Hx; apply in_map_iff in Hx.
      destruct Hx as (y & <- & Hy).
      rewrite forallb_forall in Hb.
      destruct (Ascii.eqb y "010"%char); [reflexivity | apply Hb, Hy].
    + unfold entries; rewrite !in_app_iff.
      do 6 right; left; unfold listed; apply in_map.
      apply filter_In; split; [exact Hin | reflexivity].
Qed.

Lemma list_fields_keep_their_order_witness :
  In (tag_line (lit "AU") [])
    (to_ris_lines
       (mkMeta None None [lit " "] None None None None None None None None
          None None [])).
Proof.
  apply (proj2 (proj2 (list_fields_keep_their_order
                         (mkMeta None None [lit " "] None None None None
                            None None None None None None [])))
           " "%char []); [reflexivity | left; reflexivity].
Defined.

(** ** The title of a page *)

Lemma spaces_match_none (c : ascii) (s : str) :
  isspace c = false -> match_here SPACES_REGEX (c :: s) = None.
Proof.
  intros H; unfold SPACES_REGEX, plus.
  cbn [match_here greedy cls rmin rmax rep_greedy room]; rewrite H.
  reflexivity.
Qed.

Lemma spaces_match_run (x rest : str) :
  forallb isspace x = true -> x <> [] ->
  match rest with [] => True | b :: _ => isspace b = false end ->
  match_here SPACES_REGEX (x ++ rest) = Some [x].
Proof.
  intros Hx Hne Hr.
  change (match_here SPACES_REGEX (x ++ rest))
    with (rep_greedy isspace (match_here []) 1 None [] (x ++ rest)).
  rewrite (rep_greedy_run isspace _ x rest []); auto.
  - destruct x; [destruct Hne; reflexivity | simpl; lia].
  - intros m E; discriminate E.
Qed.

Lemma collapse_run (x rest : str) :
  forallb isspace x = true ->
  match rest with [] => True | b :: _ => isspace b = false end ->
  collapse true (x ++ rest) = collapse false rest.
Proof.
  intros Hx Hr; induction x as [|a x IH]; simpl in *.
  - destruct rest as [|b rest]; [reflexivity|]; simpl; rewrite Hr.
    reflexivity.
  - apply andb_true_iff in Hx; destruct Hx as [-> Hx]; auto.
Qed.

Lemma sub_spaces_collapse (n : nat) :
  forall s, length s <= n ->
            sub_from SPACES_REGEX (lit " ") 0 s = collapse false s.
Proof.
  induction n as [|n IH]; intros s L.
  - destruct s; [reflexivity | simpl in L; lia].
  - destruct s as [|c s]; [reflexivity|].
    destruct (isspace c) eqn:C.
    + destruct (run_split isspace s) as (x & rest & -> & Hx & Hr).
      cbn [sub_from].
      change (c :: x ++ rest) with ((c :: x) ++ rest).
      rewrite (spaces_match_run (c :: x) rest);
        [|simpl; rewrite C; exact Hx | discriminate | exact Hr].
      cbn [concat]; rewrite app_nil_r; cbn [length].
      rewrite sub_from_skip, IH.
      * cbn [collapse app lit list_ascii_of_string]; rewrite C.
        rewrite (collapse_run x rest Hx Hr); reflexivity.
      * simpl in L; rewrite length_app in L; lia.
    + cbn [sub_from]; rewrite (spaces_match_none c s C).
      cbn [collapse]; rewrite C, IH; [reflexivity | simpl in L; lia].
Qed.

Lemma collapse_shape (s : str) :
  forall b,
    single_spaced (collapse b s) = true
    /\ (b = true ->
        match collapse b s with
        | [] => True
        | d :: _ => isspace d = false
        end)
    /\ forall c, In c (collapse b s) ->
                 c = " "%char \/ (isspace c = false /\ In c s).
Proof.
  induction s as [|x s IH]; intros b.
  - repeat split; auto; intros c [].
  - cbn [collapse]; destruct (isspace x) eqn:X.
    + destruct b.
      * destruct (IH true) as (S & Hd & Hc); conjs; auto.
        intros c Hin; destruct (Hc c Hin) as [|[? ?]]; simpl; auto.
      * destruct (IH true) as (S & Hd & Hc); conjs.
        -- cbn [single_spaced]; rewrite S.
           specialize (Hd eq_refl).
           destruct (collapse true s) as [|d t]; [reflexivity|].
           rewrite Hd; reflexivity.
        -- discriminate.
        -- intros c [<-|Hin]; [left; reflexivity|].
           destruct (Hc c Hin) as [|[? ?]]; simpl; auto.
    + destruct (IH false) as (S & _ & Hc); conjs.
      * cbn [single_spaced]; rewrite X, S; reflexivity.
      * intros _; exact X.
      * intros c [<-|Hin]; [right; simpl; auto|].
        destruct (Hc c Hin) as [|[? ?]]; simpl; auto.
Qed.

Lemma single_spaced_suffix (a b : str) :
  single_spaced (a ++ b) = true -> single_spaced b = true.
Proof.
  induction a as [|x a IH]; [auto|].
  cbn [app single_spaced]; intros H.
  apply andb_true_iff in H; apply IH, H.
Qed.

Lemma single_spaced_prefix (a b : str) :
  single_spaced (a ++ b) = true -> single_spaced a = true.
Proof.
  induction a as [|x a IH]; [reflexivity|].
  cbn [app single_spaced]; intros H.
  apply andb_true_iff in H; destruct H as [H1 H2].
  rewrite (IH H2), andb_true_r.
  destruct (isspace x); [|reflexivity].
  apply andb_true_iff in H1; destruct H1 as [-> H1].
  destruct a; [reflexivity | exact H1].
Qed.

Lemma lstrip_suffix (s : str) : exists d, s = d ++ lstrip s.
Proof.
  induction s as [|x s (d & IH)]; [exists []; reflexivity|].
  simpl; destruct (isspace x).
  - exists (x :: d); simpl; rewrite <- IH; reflexivity.
  - exists []; reflexivity.
Qed.

Lemma strip_single_spaced (s : str) :
  single_spaced s = true -> single_spaced (strip s) = true.
Proof.
  intros H; unfold strip, rstrip.
  destruct (lstrip_suffix s) as (d & E).
  rewrite E in H; apply single_spaced_suffix in H.
  destruct (lstrip_suffix (rev (lstrip s))) as (d' & E').
  apply (f_equal (@rev ascii)) in E'.
  rewrite rev_involutive, rev_app_distr in E'.
  rewrite E' in H; apply single_spaced_prefix in H; exact H.
Qed.

Lemma nth_In_concat (l : list str) (n : nat) (c : ascii) :
  In c (nth n l []) -> In c (concat l).
Proof.
  revert n; induction l as [|x l IH]; intros [|n] H; simpl in *;
    try (destruct H; fail); apply in_or_app; [left | right; eauto]; auto.
Qed.

(** X23 (page title).  Replacing the whitespace runs of a text by one space
    with the pattern is the character-wise collapse of the text.  The title
    taken from a page has no whitespace at either end, no whitespace
    character other than the space and no two spaces in a row; a character
    of it that is not a space is a character of the page. *)
Theorem page_title_is_single_spaced (page : str) :
  (forall s, re_sub SPACES_REGEX (lit " ") s = collapse false s)
  /\ trimmed (page_title page)
  /\ single_spaced (page_title page) = true
  /\ forall c, In c (page_title page) ->
               c = " "%char \/ (isspace c = false /\ In c page).
Proof.
  assert (Sub : forall s, re_sub SPACES_REGEX (lit " ") s = collapse false s)
    by (intros s; apply (sub_spaces_collapse (length s)), le_n).
  split; [exact Sub|].
  unfold page_title, search.
  destruct (search_from TITLE_REGEX [] page) as [[pre m]|] eqn:S;
    [|conjs; [reflexivity | reflexivity | intros c []]].
  rewrite Sub.
  destruct (collapse_shape (nth 8 m []) false) as (Sp & _ & Hc).
  conjs.
  - apply strip_trimmed.
  - apply strip_single_spaced, Sp.
  - intros c Hin; apply strip_In in Hin.
    destruct (Hc c Hin) as [|[Hs Hg]]; [left; assumption|].
    right; split; [exact Hs|].
    apply search_from_Some in S.
    destruct S as (sk & rest & -> & _ & Hm & _).
    destruct (match_here_sound _ _ _ Hm) as [_ (rest' & ->)].
    apply in_or_app; right; apply in_or_app; left.
    apply (nth_In_concat _ _ _ Hg).
Qed.

(** ** The address of a lookup *)







(** ** An answer without a message *)

(** X25 (empty answer).  When the registry answers a lookup with an object
    that holds no message, or an empty one, the item still counts as
    found: its entry has [success = true] under the route [doi] and holds
    the record without any field, which is written as a type line [GEN]
    and the end marker. *)
Theorem message_less_answer_counts_as_found (v : variant) (E : Env)
    (item : str) (resp : response) (kv : list (str * json)) :
  search DOI_REGEX item <> None ->
  requests_get E (fetch_request v item) = Ok resp ->
  resp_status_error resp = None ->
  resp_json resp = Ok (JObj kv) ->
  assoc (lit "message") kv = None
  \/ assoc (lit "message") kv = Some (JObj []) ->
  item_entry v E item
  = mkAudit item (lit "doi") true (Some blank_record) None
  /\ result_of (item_outcome v E item) = [blank_record]
  /\ to_ris_lines blank_record = [lit "TY  - GEN"; lit "ER  - "].
Proof.
  intros Hs Hg He Hj Hm.
  assert (O : item_outcome v E item = Ok (Some blank_record, lit "doi")).
  { unfold item_outcome, item_strategies.
    destruct (search DOI_REGEX item); [|destruct Hs; reflexivity].
    unfold via_doi, fetch_crossref_by_doi, mbind, get, raise_for_status,
      lift, mret.
    rewrite Hg, He; cbv beta iota; rewrite Hj; cbv beta iota.
    unfold dict_get; destruct Hm as [-> | ->]; cbv beta iota;
      destruct v; reflexivity. }
  unfold item_entry; fold (item_outcome v E item); rewrite O.
  repeat split.
Qed.

Lemma message_less_answer_counts_as_found_witness :
  let E := mkEnv (fun _ => Ok (Response [] None (Ok (JObj []))))
             (fun _ => Ok []) (fun _ => Ok []) true true in
  item_entry Fixed E (lit "10.1000/one")
  = mkAudit (lit "10.1000/one") (lit "doi") true (Some blank_record) None.
Proof.
  refine (proj1 (message_less_answer_counts_as_found Fixed
                   (mkEnv (fun _ => Ok (Response [] None (Ok (JObj []))))
                      (fun _ => Ok []) (fun _ => Ok []) true true)
                   (lit "10.1000/one") (Response [] None (Ok (JObj []))) []
                   _ eq_refl eq_refl eq_refl (or_introl eq_refl))).
  discriminate.
Defined.

(** ** The title searched for a PDF *)

(** X26 (PDF title).  A title search sent for an uploaded PDF is sent only
    when the text holds no DOI, and searches for the title guess: a
    trimmed line of the text with at least four words and 10 to 200
    characters that does not start with one of the stop prefixes. *)
Theorem pdf_title_search_is_a_qualified_line (v : variant) (E : Env)
    (f : UploadedFile) (t : str) :
  In (search_request v t) (requests_of (pdf_strategies v E f)) ->
  exists text,
    extract_text_from_pdf_bytes v E (content f) = Ok text
    /\ find_doi_in_text text = None
    /\ guess_title_from_pdf_text text = Some t
    /\ qualifies t = true
    /\ 10 <= length t <= 200
    /\ exists line, In line (splitlines text) /\ t = strip line.
Proof.
  unfold requests_of, pdf_strategies, mbind, lift.
  destruct (extract_text_from_pdf_bytes v E (content f)) as [text|e];
    [|intros []].
  destruct (find_doi_in_text text) as [d|] eqn:D.
  - rewrite (proj2 (via_doi_profile v E d (lit "pdf_doi") init)).
    intros [H|[]]; discriminate H.
  - match goal with
    | |- context [via_title v E ?g ?r init] =>
        rewrite (proj2 (via_title_profile v E g r init))
    end.
    pose proof (guess_title_loop_first (splitlines text)) as G.
    fold (guess_title_from_pdf_text text) in G.
    destruct (guess_title_from_pdf_text text) as [g|] eqn:Gq;
      [|intros []].
    destruct (strip g); [intros []|].
    intros [H|[]]; injection H as <-.
    destruct G as (before & line & after & Hl & Ht & Hq & _).
    exists text; split; [reflexivity|]; split; [exact D|].
    split; [exact Gq|]; split; [exact Hq|]; split.
    + apply qualifies_spec in Hq; apply Hq.
    + exists line; split; [|exact Ht].
      rewrite Hl; apply in_or_app; right; left; reflexivity.
Qed.

Lemma pdf_title_search_is_a_qualified_line_witness :
  exists text,
    guess_title_from_pdf_text text
    = Some (lit "A Study of Something Interesting").
Proof.
  destruct (pdf_title_search_is_a_qualified_line Fixed paper_env
              (Upload (lit "a.pdf") [])
              (lit "A Study of Something Interesting")
              (or_introl eq_refl))
    as (text & _ & _ & G & _).
  exists text; exact G.
Defined.

(** ** The statements at concrete inputs *)

Lemma meta_to_ris_is_blockwise_witness :
  exists body, meta_to_ris [title_only] = body ++ lit "ER  - " ++ NL.
Proof.
  apply (proj2 (proj2 (proj2 meta_to_ris_is_blockwise)) [title_only]).
  discriminate.
Defined.


Lemma page_title_is_single_spaced_witness :
  trimmed (page_title (lit "<title> a  b </title>"))
  /\ single_spaced (page_title (lit "<title> a  b </title>")) = true.
Proof.
  destruct (page_title_is_single_spaced (lit "<title> a  b </title>"))
    as (_ & T & S & _).
  split; assumption.
Defined.

